(** * coldy: the order lifecycle engine, embedded and verified

    A shallow embedding of the Go services of the repository (orders,
    inventory, payments, the outbox publisher and the circuit breaker)
    together with the SQL they run, and the properties of the order
    lifecycle stated over it.

    Conventions of the embedding.
    - Go's fixed-width integers are [Z] with the wrap-around written out
      ([wrap64], [wrap_u32]); PostgreSQL's INTEGER arithmetic raises an
      error on overflow instead, which [int4] models.
    - A function that returns [error] returns [option error] ([None] is
      Go's [nil]); one that talks to the database threads the database
      explicitly.  A [*sql.Tx] is a working copy: [Commit] returns it,
      the deferred [Rollback] returns the database the call started from.
    - Tables are lists of rows in insertion order (maps where the primary
      key is the only access path).  The bookkeeping columns [created_at]
      and [updated_at] are left out, as are surrogate UUID keys that no
      statement reads back.
    - Clocks, the payment provider, the message broker and the UUIDs a
      call draws are inputs.  A statement fails for the reasons the schema
      gives (a constraint, a key, a column type) and, in the payment
      service, when the context of the caller is done; the textual format
      of UUID and VARCHAR columns and failures of the connection itself
      are not modelled.  The keys of the idempotency store expire on the
      clock of the store. *)

From Stdlib Require Import ZArith Lia.
From stdpp Require Import base option list strings pretty gmap.

Local Open Scope string_scope.
Local Open Scope list_scope.
Local Open Scope Z_scope.

(** ** Go values shared by the packages *)

(** [error] values: [errors.New]/[fmt.Errorf] messages, [%w] wrapping and
    the two context errors. *)
Inductive error : Type :=
| errors_New (msg : string)
| Errorf_w (msg : string) (cause : error)
| DeadlineExceeded
| Canceled.

(** [err.Error()] *)
Fixpoint Error (e : error) : string :=
  match e with
  | errors_New msg => msg
  | Errorf_w msg cause => msg +:+ ": " +:+ Error cause
  | DeadlineExceeded => "context deadline exceeded"
  | Canceled => "context canceled"
  end.

#[global] Instance error_eq_dec : EqDecision error.
Proof. solve_decision. Defined.

(** A text between double quotes, as PostgreSQL prints names and values
    in its messages. *)
Definition quoted (text : string) : string :=
  String (Ascii.ascii_of_nat 34) text +:+ String (Ascii.ascii_of_nat 34) "".

(** What a call does: it returns, or it panics. *)
Inductive handled (A : Type) : Type :=
| Returns (r : A)
| Panics.

Arguments Returns {A} r.
Arguments Panics {A}.

(** [int64] arithmetic wraps (two's complement). *)
Definition wrap64 (z : Z) : Z := (z + 2 ^ 63) mod 2 ^ 64 - 2 ^ 63.
Definition int64_add (a b : Z) : Z := wrap64 (a + b).
Definition int64_mul (a b : Z) : Z := wrap64 (a * b).
Definition is_int64 (z : Z) : Prop := - 2 ^ 63 <= z < 2 ^ 63.

(** [uint32] arithmetic wraps. *)
Definition wrap_u32 (z : Z) : Z := z mod 2 ^ 32.

Lemma wrap64_small (z : Z) : is_int64 z -> wrap64 z = z.
Proof. unfold is_int64, wrap64. intros H. rewrite Z.mod_small; lia. Qed.

Lemma wrap64_mod (z : Z) : wrap64 z mod 2 ^ 64 = z mod 2 ^ 64.
Proof.
  unfold wrap64. rewrite Zminus_mod_idemp_l. f_equal. lia.
Qed.

Lemma wrap64_cong (a b : Z) : a mod 2 ^ 64 = b mod 2 ^ 64 -> wrap64 a = wrap64 b.
Proof.
  intros H. unfold wrap64.
  rewrite <- (Zplus_mod_idemp_l a), <- (Zplus_mod_idemp_l b), H. reflexivity.
Qed.

(** Adding a wrapped product to a wrapped sum is wrapping the exact sum. *)
Lemma int64_add_mul_wrap (t a q : Z) :
  int64_add (wrap64 t) (int64_mul a q) = wrap64 (t + a * q).
Proof.
  unfold int64_add, int64_mul. apply wrap64_cong.
  rewrite Zplus_mod, !wrap64_mod, <- Zplus_mod. reflexivity.
Qed.

(** Identifiers for the examples, in the textual form of a UUID: a user,
    two products, an order, a payment, and streams of fresh ids. *)
Definition uuid_text (group : string) (n : nat) : string :=
  "00000000-0000-4000-" +:+ group +:+ "-00000000000" +:+ pretty n.

Definition u1 : string := uuid_text "a000" 1.
Definition p1 : string := uuid_text "b000" 1.
Definition p2 : string := uuid_text "b000" 2.
Definition o1 : string := uuid_text "c000" 1.
Definition pay1 : string := uuid_text "d000" 1.

(** ** pkg/circuitbreaker *)

Module circuitbreaker.

Definition ErrCircuitOpen : error := errors_New "circuit breaker is open".

Inductive State : Type := StateClosed | StateHalfOpen | StateOpen.

#[global] Instance State_eq_dec : EqDecision State.
Proof. solve_decision. Defined.

(** [time.Duration] is an [int64] count of nanoseconds; a [time.Time] is
    read here as the monotonic clock, in nanoseconds. *)
Record Config : Type := mkConfig {
  MaxFailures : Z;   (* uint32 *)
  Timeout : Z;       (* time.Duration *)
  ResetTimeout : Z   (* time.Duration *)
}.

(** The breaker. [onStateChange] tells whether a callback is installed and
    [notified] lists the calls it received, oldest first. *)
Record CircuitBreaker : Type := mkCircuitBreaker {
  config : Config;
  state : State;
  failures : Z;      (* uint32 *)
  lastAttempt : Z;   (* time.Time *)
  onStateChange : bool;
  notified : list (State * State)
}.

Definition maxDuration : Z := 2 ^ 63 - 1.
Definition minDuration : Z := - 2 ^ 63.

(** [t.Sub(u)]: the difference, saturated to the range of a Duration. *)
Definition time_Sub (t u : Z) : Z := Z.max minDuration (Z.min maxDuration (t - u)).

Definition New (cfg : Config) (now : Z) : CircuitBreaker :=
  {| config := cfg; state := StateClosed; failures := 0; lastAttempt := now;
     onStateChange := false; notified := [] |}.

Definition OnStateChange (cb : CircuitBreaker) : CircuitBreaker :=
  {| config := config cb; state := state cb; failures := failures cb;
     lastAttempt := lastAttempt cb; onStateChange := true; notified := notified cb |}.

Definition setState (newState : State) (cb : CircuitBreaker) : CircuitBreaker :=
  if decide (state cb = newState) then cb
  else
    {| config := config cb; state := newState; failures := failures cb;
       lastAttempt := lastAttempt cb; onStateChange := onStateChange cb;
       notified := if onStateChange cb then notified cb ++ [(state cb, newState)]
                   else notified cb |}.

Definition canAttempt (now : Z) (cb : CircuitBreaker) : bool * CircuitBreaker :=
  if decide (state cb = StateOpen) then
    if ResetTimeout (config cb) <? time_Sub now (lastAttempt cb)
    then (true, setState StateHalfOpen cb)
    else (false, cb)
  else (true, cb).

Definition recordSuccess (now : Z) (cb : CircuitBreaker) : CircuitBreaker :=
  let cb1 :=
    {| config := config cb; state := state cb; failures := 0; lastAttempt := now;
       onStateChange := onStateChange cb; notified := notified cb |} in
  if decide (state cb1 = StateHalfOpen) then setState StateClosed cb1 else cb1.

Definition recordFailure (now : Z) (cb : CircuitBreaker) : CircuitBreaker :=
  let cb1 :=
    {| config := config cb; state := state cb;
       failures := wrap_u32 (failures cb + 1); lastAttempt := now;
       onStateChange := onStateChange cb; notified := notified cb |} in
  if decide (state cb1 = StateHalfOpen) then setState StateOpen cb1
  else if MaxFailures (config cb1) <=? failures cb1 then setState StateOpen cb1
  else cb1.

(** What the wrapped function does when it is run: the error it returns
    ([None] for [nil]) and how long it takes to return. *)
Record Call : Type := mkCall {
  call_err : option error;
  call_took : Z
}.

(** What [Execute] did: its return value, whether [fn] was started, and
    the breaker afterwards. *)
Record Outcome : Type := mkOutcome {
  returned : option error;
  invoked : bool;
  after : CircuitBreaker
}.

(** [context.WithTimeout(ctx, timeout)]: after how long the derived context
    is done and the error it then reports.  The caller's [ctx] is done
    after some time with some error, or never ([None]). *)
Definition WithTimeout (ctx : option (Z * error)) (timeout : Z) : Z * error :=
  match ctx with
  | Some (c, e) => if c <? timeout then (c, e) else (timeout, DeadlineExceeded)
  | None => (timeout, DeadlineExceeded)
  end.

(** [Execute], called at [now].  The [select] takes [errCh] when [fn] has
    returned before [timeoutCtx] is done, and [timeoutCtx.Done()]
    otherwise. *)
Definition Execute (now : Z) (ctx : option (Z * error)) (fn : Call) (cb : CircuitBreaker) : Outcome :=
  match canAttempt now cb with
  | (false, cb1) => {| returned := Some ErrCircuitOpen; invoked := false; after := cb1 |}
  | (true, cb1) =>
      let timeoutCtx := WithTimeout ctx (Timeout (config cb1)) in
      if call_took fn <? fst timeoutCtx then
        match call_err fn with
        | Some err =>
            {| returned := Some err; invoked := true;
               after := recordFailure (now + call_took fn) cb1 |}
        | None =>
            {| returned := None; invoked := true;
               after := recordSuccess (now + call_took fn) cb1 |}
        end
      else
        {| returned := Some (snd timeoutCtx); invoked := true;
           after := recordFailure (now + fst timeoutCtx) cb1 |}
  end.

(** How long [Execute] takes to return: no time when the attempt is
    refused, else until [fn] has returned or [timeoutCtx] is done, whichever
    comes first. *)
Definition Execute_took (now : Z) (ctx : option (Z * error)) (fn : Call)
    (cb : CircuitBreaker) : Z :=
  match canAttempt now cb with
  | (false, _) => 0
  | (true, cb1) =>
      let timeoutCtx := WithTimeout ctx (Timeout (config cb1)) in
      if call_took fn <? fst timeoutCtx then call_took fn else fst timeoutCtx
  end.

Definition GetState (cb : CircuitBreaker) : State := state cb.
Definition GetFailures (cb : CircuitBreaker) : Z := failures cb.

Definition Reset (cb : CircuitBreaker) : CircuitBreaker :=
  setState StateClosed
    {| config := config cb; state := state cb; failures := 0;
       lastAttempt := lastAttempt cb; onStateChange := onStateChange cb;
       notified := notified cb |}.

(** One call as the breaker sees it: the instant it is made at, the
    caller's context and the behaviour of the wrapped function. *)
Record Attempt : Type := mkAttempt {
  at_time : Z;
  at_ctx : option (Z * error);
  at_fn : Call
}.

Definition attempt (a : Attempt) (cb : CircuitBreaker) : Outcome :=
  Execute (at_time a) (at_ctx a) (at_fn a) cb.

(** A run of calls, one after the other. *)
Fixpoint run (calls : list Attempt) (cb : CircuitBreaker) : CircuitBreaker :=
  match calls with
  | [] => cb
  | a :: rest => run rest (after (attempt a cb))
  end.

(** A call fails when the wrapped function returns an error or has not
    returned by the time [timeoutCtx] is done. *)
Definition fails (cfg : Config) (ctx : option (Z * error)) (fn : Call) : Prop :=
  call_err fn <> None \/ fst (WithTimeout ctx (Timeout cfg)) <= call_took fn.

(** *** Properties of the breaker *)

Lemma setState_state (s : State) (cb : CircuitBreaker) : state (setState s cb) = s.
Proof. unfold setState. destruct (decide (state cb = s)); [assumption | reflexivity]. Qed.

Lemma setState_failures (s : State) (cb : CircuitBreaker) :
  failures (setState s cb) = failures cb.
Proof. unfold setState. destruct (decide (state cb = s)); reflexivity. Qed.

Lemma setState_config (s : State) (cb : CircuitBreaker) :
  config (setState s cb) = config cb.
Proof. unfold setState. destruct (decide (state cb = s)); reflexivity. Qed.

Lemma setState_lastAttempt (s : State) (cb : CircuitBreaker) :
  lastAttempt (setState s cb) = lastAttempt cb.
Proof. unfold setState. destruct (decide (state cb = s)); reflexivity. Qed.

Lemma recordFailure_config (now : Z) (cb : CircuitBreaker) :
  config (recordFailure now cb) = config cb.
Proof.
  unfold recordFailure; cbn.
  repeat case_match; rewrite ?setState_config; reflexivity.
Qed.

Lemma recordFailure_failures (now : Z) (cb : CircuitBreaker) :
  failures (recordFailure now cb) = wrap_u32 (failures cb + 1).
Proof.
  unfold recordFailure; cbn.
  repeat case_match; rewrite ?setState_failures; reflexivity.
Qed.

Lemma recordFailure_lastAttempt (now : Z) (cb : CircuitBreaker) :
  lastAttempt (recordFailure now cb) = now.
Proof.
  unfold recordFailure; cbn.
  repeat case_match; rewrite ?setState_lastAttempt; reflexivity.
Qed.

(** A failure recorded in the half-open state opens the breaker. *)
Lemma recordFailure_half_open (now : Z) (cb : CircuitBreaker) :
  state cb = StateHalfOpen -> state (recordFailure now cb) = StateOpen.
Proof.
  intros Hs. unfold recordFailure; cbn.
  destruct (decide (state cb = StateHalfOpen)); [apply setState_state | contradiction].
Qed.

(** A failure recorded in the closed state opens the breaker exactly when
    the count reaches the threshold. *)
Lemma recordFailure_closed (now : Z) (cb : CircuitBreaker) :
  state cb = StateClosed ->
  state (recordFailure now cb) =
    if MaxFailures (config cb) <=? wrap_u32 (failures cb + 1) then StateOpen else StateClosed.
Proof.
  intros Hs. unfold recordFailure; cbn.
  destruct (decide (state cb = StateHalfOpen)) as [E|_]; [congruence|].
  destruct (MaxFailures (config cb) <=? wrap_u32 (failures cb + 1));
    [apply setState_state | exact Hs].
Qed.

Lemma recordSuccess_half_open (now : Z) (cb : CircuitBreaker) :
  state cb = StateHalfOpen ->
  state (recordSuccess now cb) = StateClosed /\ failures (recordSuccess now cb) = 0.
Proof.
  intros Hs. unfold recordSuccess; cbn.
  destruct (decide (state cb = StateHalfOpen)); [| contradiction].
  rewrite setState_state, setState_failures. split; reflexivity.
Qed.

Lemma canAttempt_not_open (now : Z) (cb : CircuitBreaker) :
  state cb <> StateOpen -> canAttempt now cb = (true, cb).
Proof. intros Hs. unfold canAttempt. destruct (decide (state cb = StateOpen)); [contradiction | reflexivity]. Qed.

Lemma canAttempt_open_early (now : Z) (cb : CircuitBreaker) :
  state cb = StateOpen ->
  time_Sub now (lastAttempt cb) <= ResetTimeout (config cb) ->
  canAttempt now cb = (false, cb).
Proof.
  intros Hs Ht. unfold canAttempt.
  destruct (decide (state cb = StateOpen)); [| contradiction].
  destruct (Z.ltb_spec (ResetTimeout (config cb)) (time_Sub now (lastAttempt cb))); [lia | reflexivity].
Qed.

Lemma canAttempt_open_late (now : Z) (cb : CircuitBreaker) :
  state cb = StateOpen ->
  ResetTimeout (config cb) < time_Sub now (lastAttempt cb) ->
  canAttempt now cb = (true, setState StateHalfOpen cb).
Proof.
  intros Hs Ht. unfold canAttempt.
  destruct (decide (state cb = StateOpen)); [| contradiction].
  destruct (Z.ltb_spec (ResetTimeout (config cb)) (time_Sub now (lastAttempt cb))); [reflexivity | lia].
Qed.

(** What [Execute] does once the attempt is permitted. *)
Lemma Execute_permitted_fails (now : Z) ctx fn (cb cb1 : CircuitBreaker) :
  canAttempt now cb = (true, cb1) ->
  fails (config cb1) ctx fn ->
  exists err t,
    Execute now ctx fn cb =
      {| returned := Some err; invoked := true; after := recordFailure t cb1 |}.
Proof.
  intros Hc Hf. unfold Execute. rewrite Hc.
  destruct (Z.ltb_spec (call_took fn) (fst (WithTimeout ctx (Timeout (config cb1))))) as [Hlt|Hge].
  - destruct Hf as [Hf|Hf]; [| lia].
    destruct (call_err fn) as [err|]; [eauto | congruence].
  - eauto.
Qed.

Lemma Execute_permitted_succeeds (now : Z) ctx fn (cb cb1 : CircuitBreaker) :
  canAttempt now cb = (true, cb1) ->
  ~ fails (config cb1) ctx fn ->
  Execute now ctx fn cb =
    {| returned := None; invoked := true;
       after := recordSuccess (now + call_took fn) cb1 |}.
Proof.
  intros Hc Hf. unfold Execute. rewrite Hc. unfold fails in Hf.
  destruct (Z.ltb_spec (call_took fn) (fst (WithTimeout ctx (Timeout (config cb1))))) as [Hlt|Hge].
  - destruct (call_err fn) as [err|]; [| reflexivity].
    exfalso. apply Hf. left. discriminate.
  - exfalso. apply Hf. right. exact Hge.
Qed.

(** Failing calls on a closed breaker: below the threshold the breaker
    stays closed and counts; on reaching it the breaker opens. *)
Lemma run_failures_closed (cfg : Config) (calls : list Attempt) :
  forall cb : CircuitBreaker,
    config cb = cfg -> state cb = StateClosed ->
    0 <= failures cb ->
    failures cb + Z.of_nat (length calls) <= MaxFailures cfg ->
    MaxFailures cfg < 2 ^ 32 ->
    Forall (fun a => fails cfg (at_ctx a) (at_fn a)) calls ->
    config (run calls cb) = cfg /\
    failures (run calls cb) = failures cb + Z.of_nat (length calls) /\
    state (run calls cb) =
      if decide (calls <> [] /\ failures cb + Z.of_nat (length calls) = MaxFailures cfg)
      then StateOpen else StateClosed.
Proof.
  induction calls as [|a rest IH]; intros cb Hcfg Hst Hf0 Hle Hmax Hall.
  - cbn. split; [assumption|]. split; [lia|].
    destruct (decide _) as [[Hne _]|_]; [congruence | assumption].
  - apply Forall_cons in Hall as [Ha Hrest].
    cbn [run length] in *. unfold attempt.
    assert (Hc : canAttempt (at_time a) cb = (true, cb))
      by (apply canAttempt_not_open; congruence).
    destruct (Execute_permitted_fails _ _ _ _ _ Hc ltac:(rewrite Hcfg; exact Ha)) as (err & t & ->).
    cbn [after].
    assert (Hw : wrap_u32 (failures cb + 1) = failures cb + 1).
    { unfold wrap_u32. apply Z.mod_small. lia. }
    pose proof (recordFailure_closed t cb Hst) as Hs'.
    rewrite Hw, Hcfg in Hs'.
    destruct (Z.leb_spec (MaxFailures cfg) (failures cb + 1)) as [Hopen|Hclosed].
    + assert (rest = []) as -> by (destruct rest; [reflexivity | cbn in Hle; lia]).
      cbn. rewrite recordFailure_config, recordFailure_failures, Hw.
      split; [assumption|]. split; [lia|].
      rewrite Hs'. destruct (decide _) as [_|Hn]; [reflexivity|].
      exfalso. apply Hn. split; [discriminate | lia].
    + specialize (IH (recordFailure t cb)).
      rewrite recordFailure_config, recordFailure_failures, Hw in IH.
      destruct IH as (Hc' & Hf' & Hs''); try assumption; try lia.
      split; [assumption|]. split; [lia|].
      rewrite Hs''.
      destruct (decide _) as [[Hne He]|Hn], (decide _) as [[Hne' He']|Hn']; try reflexivity.
      * exfalso. apply Hn'. split; [discriminate | lia].
      * exfalso. destruct rest as [|b rest']; [cbn in Hle, He'|]; [lia|].
        apply Hn. split; [discriminate | lia].
Qed.

Lemma WithTimeout_le (ctx : option (Z * error)) (timeout : Z) :
  fst (WithTimeout ctx timeout) <= timeout.
Proof.
  unfold WithTimeout. destruct ctx as [[c e]|]; cbn; [| lia].
  destruct (Z.ltb_spec c timeout); cbn; lia.
Qed.

(** C3 (as amended: the threshold is at least one). A breaker created
    with [1 <= max_failures] is still closed after fewer than
    [max_failures] consecutive failed calls and open after exactly
    [max_failures] of them; the next call, made while no more than
    [reset_timeout] has passed since the last attempt, returns
    [ErrCircuitOpen] without running the wrapped function and leaves the
    breaker as it is.  An open breaker whose last attempt is more than
    [reset_timeout] ago goes half-open and runs the next call: if the call
    succeeds the breaker is closed with a failure count of zero, if it
    fails the breaker is open again.  A permitted call that takes longer
    than the per-call timeout returns an error and is counted as a
    failure. *)
Theorem breaker_thresholds (cfg : Config) (t0 : Z) (calls : list Attempt) :
  1 <= MaxFailures cfg < 2 ^ 32 ->
  Z.of_nat (length calls) = MaxFailures cfg ->
  Forall (fun a => fails cfg (at_ctx a) (at_fn a)) calls ->
  let opened := run calls (New cfg t0) in
  (forall k : nat, (k < length calls)%nat ->
     state (run (take k calls) (New cfg t0)) = StateClosed) /\
  state opened = StateOpen /\
  (forall now ctx fn,
     time_Sub now (lastAttempt opened) <= ResetTimeout cfg ->
     Execute now ctx fn opened =
       {| returned := Some ErrCircuitOpen; invoked := false; after := opened |}) /\
  (forall (cb : CircuitBreaker) now ctx fn,
     config cb = cfg -> state cb = StateOpen ->
     ResetTimeout cfg < time_Sub now (lastAttempt cb) ->
     state (snd (canAttempt now cb)) = StateHalfOpen /\
     invoked (Execute now ctx fn cb) = true /\
     (~ fails cfg ctx fn ->
        returned (Execute now ctx fn cb) = None /\
        state (after (Execute now ctx fn cb)) = StateClosed /\
        failures (after (Execute now ctx fn cb)) = 0) /\
     (fails cfg ctx fn ->
        returned (Execute now ctx fn cb) <> None /\
        state (after (Execute now ctx fn cb)) = StateOpen)) /\
  (forall (cb : CircuitBreaker) now ctx fn,
     config cb = cfg -> fst (canAttempt now cb) = true ->
     Timeout cfg < call_took fn ->
     invoked (Execute now ctx fn cb) = true /\
     returned (Execute now ctx fn cb) <> None /\
     failures (after (Execute now ctx fn cb)) = wrap_u32 (failures cb + 1)).
Proof.
  intros Hmax Hlen Hall opened.
  assert (Hnew : forall l : list Attempt,
             Forall (fun a => fails cfg (at_ctx a) (at_fn a)) l ->
             Z.of_nat (length l) <= MaxFailures cfg ->
             config (run l (New cfg t0)) = cfg /\
             failures (run l (New cfg t0)) = Z.of_nat (length l) /\
             state (run l (New cfg t0)) =
               if decide (l <> [] /\ Z.of_nat (length l) = MaxFailures cfg)
               then StateOpen else StateClosed).
  { intros l Hl Hle.
    destruct (run_failures_closed cfg l (New cfg t0)) as (H1 & H2 & H3);
      cbn; try reflexivity; try lia; try assumption.
    cbn in H2, H3. auto. }
  destruct (Hnew calls Hall ltac:(lia)) as (Hcfg & Hfail & Hst).
  assert (Hopen : state opened = StateOpen).
  { subst opened. rewrite Hst. destruct (decide _) as [_|Hn]; [reflexivity|].
    exfalso. apply Hn. split; [| assumption].
    intros ->. cbn in Hlen. lia. }
  split; [| split; [exact Hopen | split; [| split]]].
  - intros k Hk.
    assert (Hlk : length (take k calls) = k) by (rewrite length_take; lia).
    destruct (Hnew (take k calls)) as (_ & _ & Hs);
      [apply Forall_take; exact Hall | lia |].
    rewrite Hs. clear Hs Hst. case_decide as He; [| reflexivity].
    destruct He as [_ He]. rewrite Hlk in He. lia.
  - intros now ctx fn Ht.
    unfold Execute. rewrite canAttempt_open_early; [reflexivity | exact Hopen |].
    subst opened. rewrite Hcfg. exact Ht.
  - intros cb now ctx fn Hc Hs Ht.
    assert (Hca : canAttempt now cb = (true, setState StateHalfOpen cb))
      by (apply canAttempt_open_late; [exact Hs | rewrite Hc; exact Ht]).
    rewrite Hca. cbn [snd]. rewrite setState_state.
    split; [reflexivity|].
    assert (Hinv : invoked (Execute now ctx fn cb) = true).
    { unfold Execute. rewrite Hca. repeat case_match; reflexivity. }
    split; [exact Hinv|]. split.
    + intros Hok.
      rewrite (Execute_permitted_succeeds now ctx fn _ _ Hca)
        by (rewrite setState_config, Hc; exact Hok).
      cbn. split; [reflexivity|].
      apply recordSuccess_half_open, setState_state.
    + intros Hko.
      destruct (Execute_permitted_fails now ctx fn _ _ Hca) as (err & t & ->).
      { rewrite setState_config, Hc. exact Hko. }
      cbn. split; [discriminate|].
      apply recordFailure_half_open, setState_state.
  - intros cb now ctx fn Hc Hca Hslow.
    destruct (canAttempt now cb) as [b cb1] eqn:E. cbn in Hca. subst b.
    assert (Hcb1 : config cb1 = cfg /\ failures cb1 = failures cb).
    { unfold canAttempt in E. repeat case_match; inversion E; subst;
        rewrite ?setState_config, ?setState_failures; auto. }
    destruct Hcb1 as [Hc1 Hf1].
    destruct (Execute_permitted_fails now ctx fn cb cb1 E) as (err & t & ->).
    { right. rewrite Hc1. pose proof (WithTimeout_le ctx (Timeout cfg)). lia. }
    cbn. split; [reflexivity|]. split; [discriminate|].
    rewrite recordFailure_failures, Hf1. reflexivity.
Qed.

(** The configuration of the payment service: five failures, ten seconds
    per call, thirty seconds before a retry. *)
Definition payment_config : Config :=
  {| MaxFailures := 5; Timeout := 10 * 10 ^ 9; ResetTimeout := 30 * 10 ^ 9 |}.

Definition declined : Call :=
  {| call_err := Some (errors_New "payment declined by provider"); call_took := 10 ^ 6 |}.

Definition five_declines : list Attempt :=
  map (fun t => {| at_time := t; at_ctx := None; at_fn := declined |})
      [10 ^ 9; 2 * 10 ^ 9; 3 * 10 ^ 9; 4 * 10 ^ 9; 5 * 10 ^ 9].

Lemma breaker_thresholds_witness :
  let opened := run five_declines (New payment_config 0) in
  (forall k : nat, (k < length five_declines)%nat ->
     state (run (take k five_declines) (New payment_config 0)) = StateClosed) /\
  state opened = StateOpen /\
  (forall now ctx fn,
     time_Sub now (lastAttempt opened) <= ResetTimeout payment_config ->
     Execute now ctx fn opened =
       {| returned := Some ErrCircuitOpen; invoked := false; after := opened |}) /\
  (forall (cb : CircuitBreaker) now ctx fn,
     config cb = payment_config -> state cb = StateOpen ->
     ResetTimeout payment_config < time_Sub now (lastAttempt cb) ->
     state (snd (canAttempt now cb)) = StateHalfOpen /\
     invoked (Execute now ctx fn cb) = true /\
     (~ fails payment_config ctx fn ->
        returned (Execute now ctx fn cb) = None /\
        state (after (Execute now ctx fn cb)) = StateClosed /\
        failures (after (Execute now ctx fn cb)) = 0) /\
     (fails payment_config ctx fn ->
        returned (Execute now ctx fn cb) <> None /\
        state (after (Execute now ctx fn cb)) = StateOpen)) /\
  (forall (cb : CircuitBreaker) now ctx fn,
     config cb = payment_config -> fst (canAttempt now cb) = true ->
     Timeout payment_config < call_took fn ->
     invoked (Execute now ctx fn cb) = true /\
     returned (Execute now ctx fn cb) <> None /\
     failures (after (Execute now ctx fn cb)) = wrap_u32 (failures cb + 1)).
Proof.
  apply (breaker_thresholds payment_config 0 five_declines).
  - cbn. lia.
  - reflexivity.
  - unfold five_declines. cbn [map].
    repeat (apply List.Forall_cons; [left; discriminate |]).
    apply List.Forall_nil.
Defined.

(** The zero value of the threshold. *)
Definition zero_threshold : Config :=
  {| MaxFailures := 0; Timeout := 10 * 10 ^ 9; ResetTimeout := 30 * 10 ^ 9 |}.

(** C3 as stated fails for a threshold of zero: after exactly zero failed
    calls the new breaker is closed, not open, and the first call is run
    instead of being refused.  (With that configuration the breaker opens
    at the first failure.) *)
Lemma breaker_zero_threshold_counterexample :
  let calls : list Attempt := [] in
  let cb := run calls (New zero_threshold 0) in
  Z.of_nat (length calls) = MaxFailures zero_threshold /\
  Forall (fun a => fails zero_threshold (at_ctx a) (at_fn a)) calls /\
  state cb = StateClosed /\
  time_Sub 1 (lastAttempt cb) <= ResetTimeout zero_threshold /\
  invoked (Execute 1 None declined cb) = true /\
  returned (Execute 1 None declined cb) <> Some ErrCircuitOpen.
Proof.
  cbn. repeat split; try constructor; try discriminate.
Qed.

(** Whether a call fails is decidable. *)
Lemma classic_fails (cfg : Config) (ctx : option (Z * error)) (fn : Call) :
  fails cfg ctx fn \/ ~ fails cfg ctx fn.
Proof.
  unfold fails.
  destruct (call_err fn) as [e|].
  - left. left. discriminate.
  - destruct (Z_le_gt_dec (fst (WithTimeout ctx (Timeout cfg))) (call_took fn)).
    + left. right. assumption.
    + right. intros [H|H]; [congruence | lia].
Qed.

(** *** Invariants of a run *)

Lemma recordSuccess_not_half_open (now : Z) (cb : CircuitBreaker) :
  state cb <> StateHalfOpen ->
  state (recordSuccess now cb) = state cb /\ failures (recordSuccess now cb) = 0 /\
  config (recordSuccess now cb) = config cb.
Proof.
  intros Hs. unfold recordSuccess; cbn.
  destruct (decide (state cb = StateHalfOpen)); [contradiction|]. cbn. auto.
Qed.

Lemma recordSuccess_config (now : Z) (cb : CircuitBreaker) :
  config (recordSuccess now cb) = config cb.
Proof.
  unfold recordSuccess; cbn. case_decide; rewrite ?setState_config; reflexivity.
Qed.

(** What a breaker is between two calls. *)
Definition at_rest (cfg : Config) (cb : CircuitBreaker) : Prop :=
  config cb = cfg /\
  state cb <> StateHalfOpen /\
  (state cb = StateClosed -> 0 <= failures cb < MaxFailures cfg).

Lemma Execute_at_rest (cfg : Config) (now : Z) ctx fn (cb : CircuitBreaker) :
  1 <= MaxFailures cfg < 2 ^ 32 ->
  at_rest cfg cb -> at_rest cfg (after (Execute now ctx fn cb)).
Proof.
  intros Hmax (Hcfg & Hnh & Hclosed).
  destruct (state cb) eqn:Hs; [| contradiction |].
  - (* closed *)
    specialize (Hclosed eq_refl).
    assert (Hca : canAttempt now cb = (true, cb))
      by (apply canAttempt_not_open; congruence).
    destruct (classic_fails cfg ctx fn) as [Hf|Hf].
    + destruct (Execute_permitted_fails now ctx fn cb cb Hca) as (err & t & ->);
        [rewrite Hcfg; exact Hf|]. cbn [after].
      assert (Hw : wrap_u32 (failures cb + 1) = failures cb + 1)
        by (unfold wrap_u32; apply Z.mod_small; lia).
      pose proof (recordFailure_closed t cb Hs) as Hst. rewrite Hw, Hcfg in Hst.
      split; [rewrite recordFailure_config; exact Hcfg|].
      rewrite Hst, recordFailure_failures, Hw.
      destruct (Z.leb_spec (MaxFailures cfg) (failures cb + 1)); split;
        try discriminate; try lia; intros; lia.
    + rewrite (Execute_permitted_succeeds now ctx fn cb cb Hca)
        by (rewrite Hcfg; exact Hf). cbn [after].
      destruct (recordSuccess_not_half_open (now + call_took fn) cb) as (H1 & H2 & H3);
        [congruence|].
      split; [congruence|]. rewrite H1, H2, Hs. split; [discriminate | lia].
  - (* open *)
    unfold Execute, canAttempt. rewrite Hs.
    destruct (decide (StateOpen = StateOpen)); [| contradiction].
    destruct (ResetTimeout (config cb) <? time_Sub now (lastAttempt cb)).
    + assert (Hh : state (setState StateHalfOpen cb) = StateHalfOpen)
        by apply setState_state.
      assert (Hc : config (setState StateHalfOpen cb) = cfg)
        by (rewrite setState_config; exact Hcfg).
      destruct (call_took fn <? _); [destruct (call_err fn) |]; cbn [after].
      * split; [rewrite recordFailure_config; exact Hc|].
        rewrite (recordFailure_half_open _ _ Hh). split; discriminate.
      * destruct (recordSuccess_half_open (now + call_took fn) _ Hh) as [H1 H2].
        split; [rewrite recordSuccess_config; exact Hc|].
        rewrite H1, H2. split; [discriminate | lia].
      * split; [rewrite recordFailure_config; exact Hc|].
        rewrite (recordFailure_half_open _ _ Hh). split; discriminate.
    + cbn [after]. split; [exact Hcfg|]. rewrite Hs. split; discriminate.
Qed.

Lemma run_at_rest_from (cfg : Config) (calls : list Attempt) :
  1 <= MaxFailures cfg < 2 ^ 32 ->
  forall cb : CircuitBreaker, at_rest cfg cb -> at_rest cfg (run calls cb).
Proof.
  intros Hmax. induction calls as [|a rest IH]; intros cb Hcb; cbn [run]; [exact Hcb|].
  apply IH. unfold attempt. apply Execute_at_rest; assumption.
Qed.

(** X1. With a threshold of at least one, whatever calls a new breaker
    has served, between two calls it is never half-open, and while it is
    closed its failure count is below the threshold. *)
Theorem breaker_at_rest (cfg : Config) (t0 : Z) (calls : list Attempt) :
  1 <= MaxFailures cfg < 2 ^ 32 ->
  let cb := run calls (New cfg t0) in
  state cb <> StateHalfOpen /\
  (state cb = StateClosed -> 0 <= failures cb < MaxFailures cfg).
Proof.
  intros Hmax cb.
  destruct (run_at_rest_from cfg calls Hmax (New cfg t0)) as (_ & H1 & H2).
  - repeat split; cbn; [discriminate | lia | lia].
  - split; assumption.
Qed.

Lemma breaker_at_rest_witness :
  let cb := run five_declines (New payment_config 0) in
  state cb <> StateHalfOpen /\
  (state cb = StateClosed -> 0 <= failures cb < MaxFailures payment_config).
Proof.
  apply (breaker_at_rest payment_config 0 five_declines). cbn. lia.
Defined.

(** *** The observer *)

(** A log of state changes that starts in [s]: every entry leaves the
    state the entry before it entered, and every entry changes the state. *)
Fixpoint follows (s : State) (log : list (State * State)) : Prop :=
  match log with
  | [] => True
  | (a, b) :: rest => a = s /\ a <> b /\ follows b rest
  end.

(** The state such a log ends in. *)
Fixpoint ends_in (s : State) (log : list (State * State)) : State :=
  match log with
  | [] => s
  | (_, b) :: rest => ends_in b rest
  end.

Lemma follows_snoc (log : list (State * State)) :
  forall s b : State,
    follows s log -> ends_in s log <> b ->
    follows s (log ++ [(ends_in s log, b)]) /\ ends_in s (log ++ [(ends_in s log, b)]) = b.
Proof.
  induction log as [|[x y] rest IH]; intros s b Hf Hne; cbn in *.
  - auto.
  - destruct Hf as (Hx & Hxy & Hrest).
    destruct (IH y b Hrest Hne) as [H1 H2]. auto.
Qed.

(** A breaker whose callback has seen every change since it was in [s0]. *)
Definition observed (s0 : State) (cb : CircuitBreaker) : Prop :=
  onStateChange cb = true /\
  follows s0 (notified cb) /\
  ends_in s0 (notified cb) = state cb.

Lemma setState_observed (s0 s : State) (cb : CircuitBreaker) :
  observed s0 cb -> observed s0 (setState s cb).
Proof.
  intros (Hon & Hf & He). unfold setState.
  destruct (decide (state cb = s)) as [|Hne]; [repeat split; assumption|].
  unfold observed; cbn. rewrite Hon. split; [reflexivity|].
  rewrite <- He in *. apply follows_snoc; assumption.
Qed.

Lemma recordSuccess_observed (s0 : State) (now : Z) (cb : CircuitBreaker) :
  observed s0 cb -> observed s0 (recordSuccess now cb).
Proof.
  intros H. unfold recordSuccess. cbn.
  case_decide; [apply setState_observed|]; exact H.
Qed.

Lemma recordFailure_observed (s0 : State) (now : Z) (cb : CircuitBreaker) :
  observed s0 cb -> observed s0 (recordFailure now cb).
Proof.
  intros H. unfold recordFailure. cbn.
  repeat case_match; try apply setState_observed; exact H.
Qed.

Lemma Execute_observed (s0 : State) (now : Z) ctx fn (cb : CircuitBreaker) :
  observed s0 cb -> observed s0 (after (Execute now ctx fn cb)).
Proof.
  intros H. unfold Execute, canAttempt.
  repeat case_match; simplify_eq; cbn [after];
    try apply recordFailure_observed; try apply recordSuccess_observed;
    try apply setState_observed; exact H.
Qed.

(** X2. When a callback is installed on a new breaker, the calls it
    receives tell the whole story: the first change leaves [closed], every
    change leaves the state the one before it entered, no call reports a
    change from a state to itself, and the last change enters the state
    the breaker is in. *)
Theorem observer_sees_every_change (cfg : Config) (t0 : Z) (calls : list Attempt) :
  let cb := run calls (OnStateChange (New cfg t0)) in
  follows StateClosed (notified cb) /\
  ends_in StateClosed (notified cb) = state cb.
Proof.
  intros cb.
  assert (H : forall l c, observed StateClosed c -> observed StateClosed (run l c)).
  { induction l as [|a rest IH]; intros c Hc; cbn [run]; [exact Hc|].
    apply IH. unfold attempt. apply Execute_observed, Hc. }
  destruct (H calls (OnStateChange (New cfg t0))) as (_ & H1 & H2).
  - repeat split.
  - split; assumption.
Qed.

(** X8. Refused calls do not prolong the open state.  While the breaker
    is open and no more than the reset timeout has passed since the last
    attempt, every call is refused with [ErrCircuitOpen] without the
    wrapped function being started, and the breaker, its time of last
    attempt included, is exactly what it was: however many calls are
    refused, the first call made later than the reset timeout after the
    last attempt is let through. *)
Theorem refused_calls_leave_no_trace (cb : CircuitBreaker) (calls : list Attempt)
    (next : Attempt) :
  state cb = StateOpen ->
  Forall (fun a => time_Sub (at_time a) (lastAttempt cb) <= ResetTimeout (config cb)) calls ->
  ResetTimeout (config cb) < time_Sub (at_time next) (lastAttempt cb) ->
  run calls cb = cb /\
  Forall (fun a => invoked (attempt a cb) = false /\
                   returned (attempt a cb) = Some ErrCircuitOpen) calls /\
  invoked (attempt next (run calls cb)) = true.
Proof.
  intros Hs Hcalls Hnext.
  assert (Hrej : forall a,
             time_Sub (at_time a) (lastAttempt cb) <= ResetTimeout (config cb) ->
             attempt a cb =
               {| returned := Some ErrCircuitOpen; invoked := false; after := cb |}).
  { intros a Ha. unfold attempt, Execute.
    rewrite (canAttempt_open_early _ _ Hs Ha). reflexivity. }
  assert (Hrun : run calls cb = cb).
  { induction Hcalls as [|a rest Ha _ IH]; [reflexivity|].
    cbn [run]. rewrite (Hrej a Ha). exact IH. }
  split; [exact Hrun|]. split.
  - eapply List.Forall_impl; [| exact Hcalls].
    intros a Ha. rewrite (Hrej a Ha). split; reflexivity.
  - rewrite Hrun. unfold attempt, Execute.
    rewrite (canAttempt_open_late _ _ Hs Hnext).
    repeat case_match; reflexivity.
Qed.

Lemma refused_calls_leave_no_trace_witness :
  let cb := run five_declines (New payment_config 0) in
  let calls := [ {| at_time := 6 * 10 ^ 9; at_ctx := None; at_fn := declined |};
                 {| at_time := 35 * 10 ^ 9; at_ctx := None; at_fn := declined |} ] in
  let next := {| at_time := 36 * 10 ^ 9; at_ctx := None; at_fn := declined |} in
  run calls cb = cb /\
  Forall (fun a => invoked (attempt a cb) = false /\
                   returned (attempt a cb) = Some ErrCircuitOpen) calls /\
  invoked (attempt next (run calls cb)) = true.
Proof.
  apply (refused_calls_leave_no_trace (run five_declines (New payment_config 0))).
  - reflexivity.
  - repeat (apply List.Forall_cons; [vm_compute; discriminate|]). apply List.Forall_nil.
  - vm_compute. reflexivity.
Defined.

(** *** Reset *)

(** Two breakers that no caller can tell apart: the same configuration,
    state and failure count, and the same time of last attempt where it is
    read, which is in the open state. *)
Definition alike (x y : CircuitBreaker) : Prop :=
  config x = config y /\ state x = state y /\ failures x = failures y /\
  (state x = StateOpen -> lastAttempt x = lastAttempt y).

Lemma recordFailure_alike (t : Z) (x y : CircuitBreaker) :
  config x = config y -> state x = state y -> failures x = failures y ->
  alike (recordFailure t x) (recordFailure t y).
Proof.
  intros Hc Hs Hf.
  destruct x as [cx sx fx lx ox nx], y as [cy sy fy ly oy ny]. cbn in *. subst.
  unfold alike, recordFailure, setState.
  destruct sy; cbn;
    repeat match goal with |- context [?a <=? ?b] => destruct (a <=? b) end;
    cbn; auto.
Qed.

Lemma recordSuccess_alike (t : Z) (x y : CircuitBreaker) :
  config x = config y -> state x = state y -> failures x = failures y ->
  alike (recordSuccess t x) (recordSuccess t y).
Proof.
  intros Hc Hs Hf.
  destruct x as [cx sx fx lx ox nx], y as [cy sy fy ly oy ny]. cbn in *. subst.
  unfold alike, recordSuccess, setState.
  destruct sy; cbn; auto.
Qed.

Lemma canAttempt_alike (now : Z) (x y : CircuitBreaker) :
  alike x y ->
  fst (canAttempt now x) = fst (canAttempt now y) /\
  config (snd (canAttempt now x)) = config (snd (canAttempt now y)) /\
  state (snd (canAttempt now x)) = state (snd (canAttempt now y)) /\
  failures (snd (canAttempt now x)) = failures (snd (canAttempt now y)) /\
  (fst (canAttempt now x) = false -> alike (snd (canAttempt now x)) (snd (canAttempt now y))).
Proof.
  intros (Hc & Hs & Hf & Hl). unfold canAttempt.
  destruct (decide (state x = StateOpen)) as [Hx|Hx].
  - rewrite decide_True by congruence.
    rewrite <- (Hl Hx), <- Hc.
    destruct (_ <? _); cbn.
    + rewrite !setState_config, !setState_state, !setState_failures.
      split; [reflexivity|]. split; [exact Hc|]. split; [reflexivity|].
      split; [exact Hf | discriminate].
    + unfold alike. repeat split; auto.
  - rewrite decide_False by congruence. cbn.
    split; [reflexivity|]. split; [exact Hc|]. split; [exact Hs|].
    split; [exact Hf | discriminate].
Qed.

Lemma Execute_alike (now : Z) ctx fn (x y : CircuitBreaker) :
  alike x y ->
  returned (Execute now ctx fn x) = returned (Execute now ctx fn y) /\
  invoked (Execute now ctx fn x) = invoked (Execute now ctx fn y) /\
  alike (after (Execute now ctx fn x)) (after (Execute now ctx fn y)).
Proof.
  intros Hxy. destruct (canAttempt_alike now x y Hxy) as (Hp & Hc & Hs & Hf & Hno).
  unfold Execute.
  destruct (canAttempt now x) as [[|] x1], (canAttempt now y) as [[|] y1];
    cbn [fst snd] in *; try discriminate.
  - rewrite Hc.
    destruct (call_took fn <? _); [destruct (call_err fn)|]; cbn [returned invoked after];
      (split; [reflexivity|]; split; [reflexivity|]);
      first [apply recordFailure_alike | apply recordSuccess_alike]; assumption.
  - cbn [returned invoked after].
    split; [reflexivity|]. split; [reflexivity|]. apply Hno. reflexivity.
Qed.

Lemma run_alike (calls : list Attempt) :
  forall x y : CircuitBreaker, alike x y -> alike (run calls x) (run calls y).
Proof.
  induction calls as [|a rest IH]; intros x y Hxy; [exact Hxy|].
  cbn [run]. apply IH. apply Execute_alike, Hxy.
Qed.

(** X18. [Reset] is a fresh start.  Whatever the breaker went through
    before, after [Reset] it answers every run of calls as a breaker
    newly made with the same configuration does: each call is let
    through or refused alike and returns the same error, and state and
    failure count agree after every call. *)
Theorem Reset_is_a_fresh_start (cb : CircuitBreaker) (t0 : Z) (calls : list Attempt)
    (next : Attempt) :
  let old := run calls (Reset cb) in
  let new := run calls (New (config cb) t0) in
  state old = state new /\
  failures old = failures new /\
  returned (attempt next old) = returned (attempt next new) /\
  invoked (attempt next old) = invoked (attempt next new).
Proof.
  cbn zeta.
  assert (Hstart : alike (Reset cb) (New (config cb) t0)).
  { unfold alike, Reset. rewrite setState_config, setState_state, setState_failures.
    cbn. repeat split. discriminate. }
  pose proof (run_alike calls _ _ Hstart) as Hrun.
  destruct (Execute_alike (at_time next) (at_ctx next) (at_fn next) _ _ Hrun)
    as (Hret & Hinv & _).
  destruct Hrun as (_ & Hs & Hf & _). auto.
Qed.

End circuitbreaker.

(** ** services/inventory *)

Module inventory.

(** *** The schema (migrations/000001) *)

(** A row of [inventory], keyed by [product_id] in the table. *)
Record Inventory : Type := mkInventory {
  AvailableQuantity : Z;
  ReservedQuantity : Z;
  TotalQuantity : Z;
  Version : Z
}.

(** A row of [reservations]; [status] is one of ["active"], ["committed"],
    ["released"]. *)
Record Reservation : Type := mkReservation {
  reservation_id : string;
  product_id : string;
  quantity : Z;
  status : string;
  expires_at : Z
}.

Record DB : Type := mkDB {
  inventory : gmap string Inventory;
  reservations : list Reservation
}.

#[global] Instance Inventory_eq_dec : EqDecision Inventory.
Proof. solve_decision. Defined.

#[global] Instance Reservation_eq_dec : EqDecision Reservation.
Proof. solve_decision. Defined.

(** The errors PostgreSQL raises for the constraints of the schema. *)
Definition pq_integer_out_of_range : error := errors_New "pq: integer out of range".
Definition pq_check_violation (constraint : string) : error :=
  errors_New ("pq: new row for relation " +:+ quoted "inventory"
              +:+ " violates check constraint " +:+ quoted constraint).
Definition pq_unique_violation (constraint : string) : error :=
  errors_New ("pq: duplicate key value violates unique constraint " +:+ quoted constraint).
Definition pq_foreign_key_violation (constraint : string) : error :=
  errors_New ("pq: insert or update on table " +:+ quoted "reservations"
              +:+ " violates foreign key constraint " +:+ quoted constraint).

(** INTEGER columns hold 32-bit values; arithmetic outside that range is
    an error, not a wrap-around. *)
Definition int4 (z : Z) : bool := (- 2 ^ 31 <=? z) && (z <? 2 ^ 31).

(** What stops a row from being written to [inventory]: a column out of
    range, or one of the two CHECK constraints
    [available_quantity >= 0], [reserved_quantity >= 0]. *)
Definition inventory_violation (row : Inventory) : option error :=
  if negb (int4 (AvailableQuantity row) && int4 (ReservedQuantity row)
           && int4 (TotalQuantity row) && int4 (Version row))
  then Some pq_integer_out_of_range
  else if AvailableQuantity row <? 0
  then Some (pq_check_violation "inventory_available_quantity_check")
  else if ReservedQuantity row <? 0
  then Some (pq_check_violation "inventory_reserved_quantity_check")
  else None.

(** [UPDATE inventory SET ... WHERE product_id = p AND cond]: the new row
    is [set row]; the result is the number of rows affected. *)
Definition update_inventory (p : string) (cond : Inventory -> bool)
    (set : Inventory -> Inventory) (tx : DB) : error + (Z * DB) :=
  match inventory tx !! p with
  | Some row =>
      if cond row then
        match inventory_violation (set row) with
        | Some e => inl e
        | None => inr (1, {| inventory := <[p := set row]> (inventory tx);
                             reservations := reservations tx |})
        end
      else inr (0, tx)
  | None => inr (0, tx)
  end.

(** [INSERT INTO reservations]: [reservation_id] is UNIQUE, [product_id]
    references [inventory], [quantity] is an INTEGER. *)
Definition insert_reservation (r : Reservation) (tx : DB) : error + DB :=
  if negb (int4 (quantity r)) then inl pq_integer_out_of_range
  else if decide (reservation_id r ∈ map reservation_id (reservations tx))
  then inl (pq_unique_violation "reservations_reservation_id_key")
  else if decide (inventory tx !! product_id r = None)
  then inl (pq_foreign_key_violation "reservations_product_id_fkey")
  else inr {| inventory := inventory tx; reservations := reservations tx ++ [r] |}.

Definition set_status (newStatus : string) (r : Reservation) : Reservation :=
  {| reservation_id := reservation_id r; product_id := product_id r;
     quantity := quantity r; status := newStatus; expires_at := expires_at r |}.

(** [UPDATE reservations SET status = s WHERE cond] *)
Definition update_reservations (cond : Reservation -> Prop)
    `{!forall r, Decision (cond r)} (newStatus : string) (tx : DB) : DB :=
  {| inventory := inventory tx;
     reservations :=
       map (fun r => if decide (cond r) then set_status newStatus r else r)
           (reservations tx) |}.

(** *** internal/service *)

Record ReservationItem : Type := mkReservationItem {
  ProductID : string;
  Quantity : Z   (* int32 *)
}.

(** The SET clauses of the four inventory updates. *)
Definition set_reserve (q : Z) (row : Inventory) : Inventory :=
  {| AvailableQuantity := AvailableQuantity row - q;
     ReservedQuantity := ReservedQuantity row + q;
     TotalQuantity := TotalQuantity row;
     Version := Version row + 1 |}.

Definition set_release (q : Z) (row : Inventory) : Inventory :=
  {| AvailableQuantity := AvailableQuantity row + q;
     ReservedQuantity := ReservedQuantity row - q;
     TotalQuantity := TotalQuantity row;
     Version := Version row + 1 |}.

Definition set_commit (q : Z) (row : Inventory) : Inventory :=
  {| AvailableQuantity := AvailableQuantity row;
     ReservedQuantity := ReservedQuantity row - q;
     TotalQuantity := TotalQuantity row - q;
     Version := Version row + 1 |}.

Definition set_adjust (delta : Z) (row : Inventory) : Inventory :=
  {| AvailableQuantity := AvailableQuantity row + delta;
     ReservedQuantity := ReservedQuantity row;
     TotalQuantity := TotalQuantity row + delta;
     Version := Version row + 1 |}.

(** The body of the loop of [ReserveStock], run inside the transaction. *)
Definition reserve_item (reservationID : string) (expiresAt : Z)
    (item : ReservationItem) (tx : DB) : error + DB :=
  match inventory tx !! ProductID item with           (* SELECT ... FOR UPDATE *)
  | None => inl (errors_New ("product " +:+ ProductID item +:+ " not found in inventory"))
  | Some inv =>
      if AvailableQuantity inv <? Quantity item then
        inl (errors_New ("insufficient stock for product " +:+ ProductID item
                         +:+ ": available=" +:+ pretty (AvailableQuantity inv)
                         +:+ ", requested=" +:+ pretty (Quantity item)))
      else
        match update_inventory (ProductID item)
                (fun row => Version row =? Version inv)
                (set_reserve (Quantity item)) tx with
        | inl e => inl (Errorf_w "failed to update inventory" e)
        | inr (rowsAffected, tx1) =>
            if rowsAffected =? 0 then
              inl (errors_New ("inventory conflict for product " +:+ ProductID item
                               +:+ " (concurrent update)"))
            else
              match insert_reservation
                      {| reservation_id := reservationID;
                         product_id := ProductID item;
                         quantity := Quantity item;
                         status := "active";
                         expires_at := expiresAt |} tx1 with
              | inl e => inl (Errorf_w "failed to create reservation" e)
              | inr tx2 => inr tx2
              end
        end
  end.

Fixpoint reserve_items (reservationID : string) (expiresAt : Z)
    (items : list ReservationItem) (tx : DB) : error + DB :=
  match items with
  | [] => inr tx
  | item :: rest =>
      match reserve_item reservationID expiresAt item tx with
      | inl e => inl e
      | inr tx1 => reserve_items reservationID expiresAt rest tx1
      end
  end.

(** [time.Now().Add(time.Duration(ttlSeconds) * time.Second)] *)
Definition expiry (now ttlSeconds : Z) : Z :=
  let ttlSeconds := if ttlSeconds <=? 0 then 900 else ttlSeconds in
  now + int64_mul ttlSeconds (10 ^ 9).

Definition ReserveStock (now : Z) (reservationID : string)
    (items : list ReservationItem) (ttlSeconds : Z) (db : DB) : option error * DB :=
  match reserve_items reservationID (expiry now ttlSeconds) items db with
  | inl e => (Some e, db)      (* the deferred Rollback *)
  | inr tx => (None, tx)       (* Commit *)
  end.

(** The reservations [updateReservationStatus] selects. *)
Definition active_of (reservationID : string) (r : Reservation) : Prop :=
  reservation_id r = reservationID /\ status r = "active".

#[global] Instance active_of_dec rid r : Decision (active_of rid r).
Proof. unfold active_of. apply _. Defined.

Definition active_items (reservationID : string) (tx : DB) : list ReservationItem :=
  map (fun r => {| ProductID := product_id r; Quantity := quantity r |})
      (filter (active_of reservationID) (reservations tx)).

Fixpoint update_each (updateFn : ReservationItem -> DB -> error + (Z * DB))
    (items : list ReservationItem) (tx : DB) : error + DB :=
  match items with
  | [] => inr tx
  | item :: rest =>
      match updateFn item tx with
      | inl e => inl (Errorf_w "failed to update inventory" e)
      | inr (_, tx1) => update_each updateFn rest tx1
      end
  end.

Definition updateReservationStatus (reservationID newStatus : string)
    (updateFn : ReservationItem -> DB -> error + (Z * DB)) (db : DB) : option error * DB :=
  let items := active_items reservationID db in
  match items with
  | [] => (Some (errors_New ("no active reservations found for " +:+ reservationID)), db)
  | _ =>
      match update_each updateFn items db with
      | inl e => (Some e, db)
      | inr tx =>
          (None, update_reservations (active_of reservationID) newStatus tx)
      end
  end.

Definition ReleaseStock (reservationID : string) (db : DB) : option error * DB :=
  updateReservationStatus reservationID "released"
    (fun item => update_inventory (ProductID item) (fun _ => true)
                   (set_release (Quantity item))) db.

Definition CommitStock (reservationID : string) (db : DB) : option error * DB :=
  updateReservationStatus reservationID "committed"
    (fun item => update_inventory (ProductID item) (fun _ => true)
                   (set_commit (Quantity item))) db.

Definition GetInventory (productID : string) (db : DB) : error + Inventory :=
  match inventory db !! productID with
  | None => inl (errors_New "inventory not found")
  | Some row => inr row
  end.

(** [INSERT ... ON CONFLICT (product_id) DO UPDATE ... RETURNING].  The row
    proposed for insertion is [(delta, 0, delta, 1)]; PostgreSQL checks it
    against the constraints of the table before it looks for a conflict,
    and applies the SET clause to the existing row when there is one. *)
Definition AdjustInventory (productID : string) (delta : Z) (reason : string)
    (db : DB) : (error + Inventory) * DB :=
  let proposed :=
    {| AvailableQuantity := delta; ReservedQuantity := 0;
       TotalQuantity := delta; Version := 1 |} in
  match inventory_violation proposed with
  | Some e => (inl (Errorf_w "failed to adjust inventory" e), db)
  | None =>
      let row :=
        match inventory db !! productID with
        | None => proposed
        | Some old => set_adjust delta old
        end in
      match inventory_violation row with
      | Some e => (inl (Errorf_w "failed to adjust inventory" e), db)
      | None =>
          (inr row, {| inventory := <[productID := row]> (inventory db);
                       reservations := reservations db |})
      end
  end.

(** The SQL function [cleanup_expired_reservations()], run at [now]: the
    loop over the reservations the query selected. *)
Definition expired (now : Z) (r : Reservation) : Prop :=
  status r = "active" /\ expires_at r < now.

#[global] Instance expired_dec now r : Decision (expired now r).
Proof. unfold expired. apply _. Defined.

Fixpoint release_expired (rs : list Reservation) (tx : DB) : error + DB :=
  match rs with
  | [] => inr tx
  | r :: rest =>
      match update_inventory (product_id r) (fun _ => true)
              (set_release (quantity r)) tx with
      | inl e => inl e
      | inr (_, tx1) =>
          release_expired rest
            (update_reservations (fun r' => reservation_id r' = reservation_id r)
               "released" tx1)
      end
  end.

Definition cleanup_expired_reservations (now : Z) (db : DB) : error + DB :=
  release_expired (filter (expired now) (reservations db)) db.

Definition CleanupExpiredReservations (now : Z) (db : DB) : option error * DB :=
  match cleanup_expired_reservations now db with
  | inl e => (Some (Errorf_w "failed to cleanup expired reservations" e), db)
  | inr db1 => (None, db1)
  end.

(** The operations that write to the inventory. *)
Inductive Operation : Type :=
| OpReserveStock (reservationID : string) (items : list ReservationItem) (ttlSeconds : Z)
| OpReleaseStock (reservationID : string)
| OpCommitStock (reservationID : string)
| OpAdjustInventory (productID : string) (delta : Z) (reason : string)
| OpCleanupExpiredReservations.

(** The database after an operation performed at [now]. *)
Definition perform (now : Z) (op : Operation) (db : DB) : DB :=
  match op with
  | OpReserveStock rid items ttl => snd (ReserveStock now rid items ttl db)
  | OpReleaseStock rid => snd (ReleaseStock rid db)
  | OpCommitStock rid => snd (CommitStock rid db)
  | OpAdjustInventory p delta reason => snd (AdjustInventory p delta reason db)
  | OpCleanupExpiredReservations => snd (CleanupExpiredReservations now db)
  end.

(** *** Conservation of the inventory *)

(** The invariant of a row. *)
Definition conserved (row : Inventory) : Prop :=
  AvailableQuantity row + ReservedQuantity row = TotalQuantity row /\
  0 <= AvailableQuantity row /\
  0 <= ReservedQuantity row.

(** How the table may move: a row that was there is still there, either
    as it was or with the invariant kept and a larger version; a new row
    satisfies the invariant. *)
Definition advances (m m' : gmap string Inventory) : Prop :=
  (forall p row, m !! p = Some row ->
     exists row', m' !! p = Some row' /\
       (row' = row \/ ((conserved row -> conserved row') /\ Version row < Version row'))) /\
  (forall p row', m' !! p = Some row' -> m !! p = None -> conserved row').

Lemma advances_refl (m : gmap string Inventory) : advances m m.
Proof.
  split.
  - intros p row H. exists row. auto.
  - intros p row' H1 H2. congruence.
Qed.

Lemma advances_trans (m1 m2 m3 : gmap string Inventory) :
  advances m1 m2 -> advances m2 m3 -> advances m1 m3.
Proof.
  intros [A1 B1] [A2 B2]. split.
  - intros p row H.
    destruct (A1 p row H) as (row2 & H2 & Hr2).
    destruct (A2 p row2 H2) as (row3 & H3 & Hr3).
    exists row3. split; [assumption|].
    destruct Hr2 as [->|[Hc2 Hv2]], Hr3 as [->|[Hc3 Hv3]]; auto.
    right. split; [auto | lia].
  - intros p row3 H3 H1.
    destruct (m2 !! p) as [row2|] eqn:H2.
    + destruct (A2 p row2 H2) as (row3' & H3' & Hr3).
      assert (row3' = row3) as -> by congruence.
      pose proof (B1 p row2 H2 H1) as Hc2.
      destruct Hr3 as [->|[Hc3 _]]; auto.
    + eauto.
Qed.

(** A SET clause is sound when every row it produces that the table
    accepts keeps the invariant and has a larger version. *)
Definition sound_set (set : Inventory -> Inventory) : Prop :=
  forall row, inventory_violation (set row) = None ->
    (conserved row -> conserved (set row)) /\ Version row < Version (set row).

Lemma inventory_violation_None (row : Inventory) :
  inventory_violation row = None ->
  0 <= AvailableQuantity row /\ 0 <= ReservedQuantity row.
Proof.
  unfold inventory_violation. intros H.
  destruct (negb _); [discriminate|].
  destruct (Z.ltb_spec (AvailableQuantity row) 0); [discriminate|].
  destruct (Z.ltb_spec (ReservedQuantity row) 0); [discriminate|].
  lia.
Qed.

Lemma sound_set_reserve (q : Z) : sound_set (set_reserve q).
Proof.
  intros row H. apply inventory_violation_None in H. cbn in *.
  unfold conserved; cbn. lia.
Qed.

Lemma sound_set_release (q : Z) : sound_set (set_release q).
Proof.
  intros row H. apply inventory_violation_None in H. cbn in *.
  unfold conserved; cbn. lia.
Qed.

Lemma sound_set_commit (q : Z) : sound_set (set_commit q).
Proof.
  intros row H. apply inventory_violation_None in H. cbn in *.
  unfold conserved; cbn. lia.
Qed.

Lemma sound_set_adjust (delta : Z) : sound_set (set_adjust delta).
Proof.
  intros row H. apply inventory_violation_None in H. cbn in *.
  unfold conserved; cbn. lia.
Qed.

Lemma advances_insert (m : gmap string Inventory) (p : string) (row' : Inventory) :
  match m !! p with
  | Some row => (conserved row -> conserved row') /\ Version row < Version row'
  | None => conserved row'
  end ->
  advances m (<[p := row']> m).
Proof.
  intros H. split.
  - intros p0 row0 H0. destruct (decide (p = p0)) as [->|Hne].
    + rewrite H0 in H. exists row'. rewrite lookup_insert_eq. auto.
    + exists row0. rewrite lookup_insert_ne by assumption. auto.
  - intros p0 row0 H0 Hnone. destruct (decide (p = p0)) as [->|Hne].
    + rewrite Hnone in H. rewrite lookup_insert_eq in H0. congruence.
    + rewrite lookup_insert_ne in H0 by assumption. congruence.
Qed.

Lemma update_inventory_advances p cond set (tx tx' : DB) (n : Z) :
  sound_set set ->
  update_inventory p cond set tx = inr (n, tx') ->
  advances (inventory tx) (inventory tx') /\ reservations tx' = reservations tx.
Proof.
  intros Hset. unfold update_inventory.
  destruct (inventory tx !! p) as [row|] eqn:Hrow.
  - destruct (cond row).
    + destruct (inventory_violation (set row)) eqn:Hv; [discriminate|].
      intros [= <- <-]. cbn. split; [| reflexivity].
      apply advances_insert. rewrite Hrow. apply Hset, Hv.
    + intros [= <- <-]. split; [apply advances_refl | reflexivity].
  - intros [= <- <-]. split; [apply advances_refl | reflexivity].
Qed.

Lemma insert_reservation_inventory (r : Reservation) (tx tx' : DB) :
  insert_reservation r tx = inr tx' ->
  inventory tx' = inventory tx /\ reservations tx' = reservations tx ++ [r].
Proof.
  unfold insert_reservation. repeat case_match; try discriminate.
  intros [= <-]. split; reflexivity.
Qed.

Lemma reserve_item_advances rid expiresAt item (tx tx' : DB) :
  reserve_item rid expiresAt item tx = inr tx' ->
  advances (inventory tx) (inventory tx').
Proof.
  unfold reserve_item.
  destruct (inventory tx !! ProductID item) as [inv|]; [| discriminate].
  destruct (AvailableQuantity inv <? Quantity item); [discriminate|].
  destruct (update_inventory _ _ _ tx) as [e|[n tx1]] eqn:Hu; [discriminate|].
  destruct (n =? 0); [discriminate|].
  destruct (insert_reservation _ tx1) as [e|tx2] eqn:Hi; [discriminate|].
  intros [= <-].
  apply update_inventory_advances in Hu as [Hu _]; [| apply sound_set_reserve].
  apply insert_reservation_inventory in Hi as [-> _]. exact Hu.
Qed.

Lemma reserve_items_advances rid expiresAt items :
  forall tx tx' : DB,
    reserve_items rid expiresAt items tx = inr tx' ->
    advances (inventory tx) (inventory tx').
Proof.
  induction items as [|item rest IH]; intros tx tx'; cbn.
  - intros [= <-]. apply advances_refl.
  - destruct (reserve_item rid expiresAt item tx) as [e|tx1] eqn:H1; [discriminate|].
    intros H2. eapply advances_trans; [eapply reserve_item_advances | eapply IH]; eassumption.
Qed.

Lemma update_each_advances updateFn items :
  (forall item tx n tx', updateFn item tx = inr (n, tx') ->
     advances (inventory tx) (inventory tx')) ->
  forall tx tx' : DB,
    update_each updateFn items tx = inr tx' ->
    advances (inventory tx) (inventory tx').
Proof.
  intros Hfn. induction items as [|item rest IH]; intros tx tx'; cbn.
  - intros [= <-]. apply advances_refl.
  - destruct (updateFn item tx) as [e|[n tx1]] eqn:H1; [discriminate|].
    intros H2. eapply advances_trans; [eapply Hfn | eapply IH]; eassumption.
Qed.

Lemma updateReservationStatus_advances rid newStatus updateFn (db : DB) :
  (forall item tx n tx', updateFn item tx = inr (n, tx') ->
     advances (inventory tx) (inventory tx')) ->
  advances (inventory db) (inventory (snd (updateReservationStatus rid newStatus updateFn db))).
Proof.
  intros Hfn. unfold updateReservationStatus.
  destruct (active_items rid db) as [|item items] eqn:Hitems; [apply advances_refl|].
  destruct (update_each updateFn (item :: items) db) as [e|tx] eqn:Hu; cbn [snd].
  - apply advances_refl.
  - cbn. eapply update_each_advances; eassumption.
Qed.

Lemma release_expired_advances rs :
  forall tx tx' : DB,
    release_expired rs tx = inr tx' -> advances (inventory tx) (inventory tx').
Proof.
  induction rs as [|r rest IH]; intros tx tx'; cbn.
  - intros [= <-]. apply advances_refl.
  - destruct (update_inventory _ _ _ tx) as [e|[n tx1]] eqn:Hu; [discriminate|].
    intros H. apply update_inventory_advances in Hu as [Hu _]; [| apply sound_set_release].
    eapply advances_trans; [exact Hu|].
    apply IH in H. exact H.
Qed.

Lemma AdjustInventory_advances p delta reason (db : DB) :
  advances (inventory db) (inventory (snd (AdjustInventory p delta reason db))).
Proof.
  unfold AdjustInventory.
  destruct (inventory_violation {| AvailableQuantity := delta |}) eqn:Hp;
    [apply advances_refl|].
  match goal with |- context [inventory_violation ?r] =>
    destruct (inventory_violation r) eqn:Hv end; [apply advances_refl|].
  cbn. apply advances_insert.
  destruct (inventory db !! p) as [old|] eqn:Hold.
  - apply sound_set_adjust, Hv.
  - apply inventory_violation_None in Hv. unfold conserved; cbn in *. lia.
Qed.

(** Every operation advances the table. *)
Lemma perform_advances (now : Z) (op : Operation) (db : DB) :
  advances (inventory db) (inventory (perform now op db)).
Proof.
  destruct op as [rid items ttl|rid|rid|p delta reason|]; cbn [perform].
  - unfold ReserveStock.
    destruct (reserve_items _ _ _ db) as [e|tx] eqn:H; cbn [snd].
    + apply advances_refl.
    + eapply reserve_items_advances, H.
  - apply updateReservationStatus_advances.
    intros item tx n tx' H.
    apply update_inventory_advances in H as [H _]; [exact H | apply sound_set_release].
  - apply updateReservationStatus_advances.
    intros item tx n tx' H.
    apply update_inventory_advances in H as [H _]; [exact H | apply sound_set_commit].
  - apply AdjustInventory_advances.
  - unfold CleanupExpiredReservations, cleanup_expired_reservations.
    destruct (release_expired _ db) as [e|db1] eqn:H; cbn [snd].
    + apply advances_refl.
    + eapply release_expired_advances, H.
Qed.

(** C1. If every row of the inventory satisfies
    [available + reserved = total], [available >= 0] and [reserved >= 0],
    then so does every row after [ReserveStock], [ReleaseStock],
    [CommitStock], [AdjustInventory] or the reaper of expired
    reservations; no row disappears, and a row that the operation changed
    has a strictly larger version than before. *)
Theorem inventory_conservation (now : Z) (op : Operation) (db : DB) :
  (forall p row, inventory db !! p = Some row -> conserved row) ->
  (forall p row', inventory (perform now op db) !! p = Some row' -> conserved row') /\
  (forall p row, inventory db !! p = Some row ->
     exists row', inventory (perform now op db) !! p = Some row' /\
       (row' = row \/ Version row < Version row')).
Proof.
  intros Hinv. destruct (perform_advances now op db) as [A B]. split.
  - intros p row' H'.
    destruct (inventory db !! p) as [row|] eqn:H.
    + destruct (A p row H) as (row2 & H2 & Hr).
      assert (row2 = row') as -> by congruence.
      destruct Hr as [->|[Hc _]]; eauto.
    + eauto.
  - intros p row H.
    destruct (A p row H) as (row' & H' & [->|[_ Hv]]); eauto.
Qed.

(** One product with three units in stock; the reservation of the
    contended scenario. *)
Definition three_in_stock : DB :=
  {| inventory := {[ p1 := {| AvailableQuantity := 3; ReservedQuantity := 0;
                                 TotalQuantity := 3; Version := 1 |} ]};
     reservations := [] |}.

Definition two_of_p1 : list ReservationItem := [ {| ProductID := p1; Quantity := 2 |} ].

Lemma inventory_conservation_witness :
  let db' := perform 0 (OpReserveStock "R1" two_of_p1 900) three_in_stock in
  (forall p row', inventory db' !! p = Some row' -> conserved row') /\
  (forall p row, inventory three_in_stock !! p = Some row ->
     exists row', inventory db' !! p = Some row' /\
       (row' = row \/ Version row < Version row')).
Proof.
  apply (inventory_conservation 0 (OpReserveStock "R1" two_of_p1 900) three_in_stock).
  intros p row H. cbn in H.
  apply lookup_singleton_Some in H as [_ <-].
  unfold conserved; cbn. lia.
Defined.

(** The contended scenario, one call after the other: the first
    reservation takes two of the three units, the next two are refused and
    change nothing. *)
Example contended_reservation :
  let '(r1, db1) := ReserveStock 0 "R1" two_of_p1 900 three_in_stock in
  let '(r2, db2) := ReserveStock 0 "R2" two_of_p1 900 db1 in
  let '(r3, db3) := ReserveStock 0 "R3" two_of_p1 900 db2 in
  r1 = None /\ is_Some r2 /\ is_Some r3 /\ db3 = db1 /\
  inventory db3 !! p1 =
    Some {| AvailableQuantity := 1; ReservedQuantity := 2; TotalQuantity := 3; Version := 2 |}.
Proof. vm_compute. repeat split; eauto. Qed.

(** The expired reservation: reserved at 0 for one second, reaped at 90
    seconds; the five units are back and the version went up by two. *)
Example expired_reservation :
  let db0 :=
    {| inventory := {[ p1 := {| AvailableQuantity := 5; ReservedQuantity := 0;
                                   TotalQuantity := 5; Version := 1 |} ]};
       reservations := [] |} in
  let '(r1, db1) := ReserveStock 0 "R1" [ {| ProductID := p1; Quantity := 5 |} ] 1 db0 in
  let '(r2, db2) := CleanupExpiredReservations (90 * 10 ^ 9) db1 in
  r1 = None /\ r2 = None /\
  map status (reservations db2) = ["released"] /\
  inventory db2 !! p1 =
    Some {| AvailableQuantity := 5; ReservedQuantity := 0; TotalQuantity := 5; Version := 3 |}.
Proof. vm_compute. repeat split. Qed.

(** *** The items of a reservation *)

(** The row [ReserveStock] inserts for an item. *)
Definition reservation_for (reservationID : string) (expiresAt : Z)
    (item : ReservationItem) : Reservation :=
  {| reservation_id := reservationID; product_id := ProductID item;
     quantity := Quantity item; status := "active"; expires_at := expiresAt |}.

Lemma reserve_item_inr rid expiresAt item (tx tx' : DB) :
  reserve_item rid expiresAt item tx = inr tx' ->
  exists inv,
    inventory tx !! ProductID item = Some inv /\
    Quantity item <= AvailableQuantity inv /\
    inventory tx' = <[ProductID item := set_reserve (Quantity item) inv]> (inventory tx) /\
    reservations tx' = reservations tx ++ [reservation_for rid expiresAt item].
Proof.
  unfold reserve_item.
  destruct (inventory tx !! ProductID item) as [inv|] eqn:Hinv; [| discriminate].
  destruct (Z.ltb_spec (AvailableQuantity inv) (Quantity item)); [discriminate|].
  unfold update_inventory. rewrite Hinv, Z.eqb_refl.
  destruct (inventory_violation _); [discriminate|].
  cbn [Z.eqb].
  destruct (insert_reservation _ _) as [e|tx2] eqn:Hi; [discriminate|].
  intros [= <-].
  apply insert_reservation_inventory in Hi as [Hi1 Hi2]. cbn in Hi1, Hi2.
  exists inv. repeat split; assumption.
Qed.

(** Inside the transaction the versioned update finds the row the SELECT
    has just read: it never affects zero rows. *)
Lemma versioned_update_affects_row (item : ReservationItem) (tx tx1 : DB) (inv : Inventory) (n : Z) :
  inventory tx !! ProductID item = Some inv ->
  update_inventory (ProductID item) (fun row => Version row =? Version inv)
    (set_reserve (Quantity item)) tx = inr (n, tx1) ->
  n = 1.
Proof.
  intros Hinv. unfold update_inventory. rewrite Hinv, Z.eqb_refl.
  destruct (inventory_violation _); [discriminate|]. intros [= <- _]. reflexivity.
Qed.

(** [reservation_id] is UNIQUE in the schema and every item of a call is
    inserted under the same id, so a call that commits has at most one
    item; with two or more the INSERT of the second is refused and the
    call is rolled back. *)
Remark ReserveStock_commits_at_most_one_item (now : Z) (reservationID : string)
    (items : list ReservationItem) (ttlSeconds : Z) (db db' : DB) :
  ReserveStock now reservationID items ttlSeconds db = (None, db') ->
  (length items <= 1)%nat.
Proof.
  unfold ReserveStock.
  destruct items as [|i1 [|i2 rest]]; cbn [length]; [lia | lia |].
  cbn [reserve_items].
  destruct (reserve_item _ _ i1 db) as [e|tx1] eqn:H1; [discriminate|].
  apply reserve_item_inr in H1 as (_ & _ & _ & _ & Hr).
  assert (H2 : exists e, reserve_item reservationID (expiry now ttlSeconds) i2 tx1 = inl e).
  { unfold reserve_item.
    destruct (inventory tx1 !! ProductID i2) as [inv|]; [| eauto].
    destruct (AvailableQuantity inv <? Quantity i2); [eauto|].
    destruct (update_inventory _ _ _ tx1) as [e|[n tx2]] eqn:Hu; [eauto|].
    destruct (n =? 0); [eauto|].
    assert (Hres : reservations tx2 = reservations tx1).
    { eapply update_inventory_advances; [apply sound_set_reserve | exact Hu]. }
    unfold insert_reservation. cbn.
    destruct (negb _); [eauto|].
    rewrite Hres, Hr, map_app. cbn.
    destruct (decide _) as [_|Hn]; [eauto|].
    exfalso. apply Hn. apply elem_of_app. right. apply list_elem_of_singleton. reflexivity. }
  destruct H2 as [e ->]. discriminate.
Qed.

(** A call with one item, made on a database where the product has a
    row with enough units, the updated row satisfies the constraints of
    the table, the quantity is an INTEGER and the reservation id is not
    taken, commits. *)
Lemma ReserveStock_one_item (now : Z) (reservationID : string) (item : ReservationItem)
    (ttlSeconds : Z) (db : DB) (inv : Inventory) :
  inventory db !! ProductID item = Some inv ->
  Quantity item <= AvailableQuantity inv ->
  inventory_violation (set_reserve (Quantity item) inv) = None ->
  int4 (Quantity item) = true ->
  reservationID ∉ map reservation_id (reservations db) ->
  ReserveStock now reservationID [item] ttlSeconds db =
    (None,
     {| inventory := <[ProductID item := set_reserve (Quantity item) inv]> (inventory db);
        reservations :=
          reservations db ++ [reservation_for reservationID (expiry now ttlSeconds) item] |}).
Proof.
  intros Hinv Hle Hok Hq Hfresh.
  unfold ReserveStock. cbn [reserve_items]. unfold reserve_item. rewrite Hinv.
  destruct (Z.ltb_spec (AvailableQuantity inv) (Quantity item)); [lia|].
  unfold update_inventory. rewrite Hinv, Z.eqb_refl, Hok. cbn [Z.eqb].
  unfold insert_reservation. cbn [quantity reservation_id product_id reservations inventory].
  rewrite Hq. cbn [negb].
  rewrite decide_False by exact Hfresh.
  rewrite decide_False by (rewrite lookup_insert_eq; discriminate).
  reflexivity.
Qed.

(** C4. What [ReserveStock] does with the items of a call.  A call that
    returns an error leaves the inventory and the reservations as they
    were, and a call returns an error when one of its items finds its
    product row absent or fewer units available than it asks for: so far
    the claim holds.  A call with one item, made where the product has
    enough units and the reservation id is new, commits: the updated
    inventory row and one reservation row with the id, status ["active"]
    and the computed expiry.  A call with two or more items never
    commits, however much stock there is: [reservation_id] is UNIQUE in
    the schema and the rows of a call share it, so the second INSERT is
    refused and the call is rolled back. *)
Theorem ReserveStock_commits_one_item_only (now : Z) (reservationID : string)
    (items : list ReservationItem) (ttlSeconds : Z) (db : DB) :
  (forall e db', ReserveStock now reservationID items ttlSeconds db = (Some e, db') ->
     db' = db) /\
  (forall item, item ∈ items ->
     (inventory db !! ProductID item = None \/
      exists row, inventory db !! ProductID item = Some row /\
                  AvailableQuantity row < Quantity item) ->
     exists e, ReserveStock now reservationID items ttlSeconds db = (Some e, db)) /\
  (forall item inv,
     items = [item] ->
     inventory db !! ProductID item = Some inv ->
     Quantity item <= AvailableQuantity inv ->
     inventory_violation (set_reserve (Quantity item) inv) = None ->
     int4 (Quantity item) = true ->
     reservationID ∉ map reservation_id (reservations db) ->
     ReserveStock now reservationID items ttlSeconds db =
       (None,
        {| inventory := <[ProductID item := set_reserve (Quantity item) inv]> (inventory db);
           reservations :=
             reservations db
               ++ [reservation_for reservationID (expiry now ttlSeconds) item] |})) /\
  ((2 <= length items)%nat ->
   exists e, ReserveStock now reservationID items ttlSeconds db = (Some e, db)).
Proof.
  assert (Hrollback : forall e db',
    ReserveStock now reservationID items ttlSeconds db = (Some e, db') -> db' = db).
  { unfold ReserveStock. intros e db'.
    destruct (reserve_items _ _ _ db); intros [= _ <-]; reflexivity. }
  assert (Hmany : (2 <= length items)%nat ->
    exists e, ReserveStock now reservationID items ttlSeconds db = (Some e, db)).
  { intros Hlen.
    destruct (ReserveStock now reservationID items ttlSeconds db) as [[e|] db'] eqn:Hcall
      in |- *.
    - apply Hrollback in Hcall as ->. eauto.
    - apply ReserveStock_commits_at_most_one_item in Hcall. lia. }
  split; [exact Hrollback|]. split; [| split; [| exact Hmany]].
  - intros item Hin Hshort.
    destruct items as [|item0 [|item1 rest]].
    + apply elem_of_nil in Hin. contradiction.
    + apply list_elem_of_singleton in Hin as ->.
      unfold ReserveStock. cbn [reserve_items]. unfold reserve_item.
      destruct Hshort as [Hnone|(row & Hrow & Hlt)].
      * rewrite Hnone. eauto.
      * rewrite Hrow.
        destruct (Z.ltb_spec (AvailableQuantity row) (Quantity item0)); [eauto | lia].
    + apply Hmany. cbn. lia.
  - intros item inv -> Hinv Hle Hok Hq Hfresh.
    apply ReserveStock_one_item; assumption.
Qed.

(** Three units of [p1] and three of [p2]; one unit of each is asked for. *)
Definition two_products : DB :=
  {| inventory :=
       {[ p1 := {| AvailableQuantity := 3; ReservedQuantity := 0;
                   TotalQuantity := 3; Version := 1 |};
          p2 := {| AvailableQuantity := 3; ReservedQuantity := 0;
                   TotalQuantity := 3; Version := 1 |} ]};
     reservations := [] |}.

Definition one_of_each : list ReservationItem :=
  [ {| ProductID := p1; Quantity := 1 |}; {| ProductID := p2; Quantity := 1 |} ].

(** The call the claim is about: each of the two items alone is reserved,
    the two together are refused at the second INSERT and nothing is
    changed. *)
Lemma ReserveStock_commits_one_item_only_witness :
  fst (ReserveStock 0 "R1" [ {| ProductID := p1; Quantity := 1 |} ] 900 two_products) = None /\
  fst (ReserveStock 0 "R1" [ {| ProductID := p2; Quantity := 1 |} ] 900 two_products) = None /\
  (exists e, ReserveStock 0 "R1" one_of_each 900 two_products = (Some e, two_products)) /\
  ReserveStock 0 "R1" one_of_each 900 two_products =
    (Some (Errorf_w "failed to create reservation"
             (pq_unique_violation "reservations_reservation_id_key")),
     two_products).
Proof.
  split; [vm_compute; reflexivity|]. split; [vm_compute; reflexivity|]. split.
  - apply (ReserveStock_commits_one_item_only 0 "R1" one_of_each 900 two_products).
    cbn. lia.
  - vm_compute. reflexivity.
Defined.

(** *** Reservations and the reserved quantity *)

(** The units of product [p] held by active reservations. *)
Definition held (p : string) (rs : list Reservation) : Z :=
  foldr (fun r acc =>
           if decide (product_id r = p /\ status r = "active") then quantity r + acc else acc)
        0 rs.

(** The units of product [p] a list of items asks for. *)
Definition asked (p : string) (items : list ReservationItem) : Z :=
  foldr (fun item acc => if decide (ProductID item = p) then Quantity item + acc else acc)
        0 items.

(** The two tables agree: reservation ids are distinct, every reservation
    is for a product of the inventory, and the reserved quantity of every
    product is what its active reservations hold. *)
Definition consistent (db : DB) : Prop :=
  NoDup (map reservation_id (reservations db)) /\
  (forall r, r ∈ reservations db -> is_Some (inventory db !! product_id r)) /\
  (forall p row, inventory db !! p = Some row ->
     ReservedQuantity row = held p (reservations db)).

Lemma held_app (p : string) (l1 l2 : list Reservation) :
  held p (l1 ++ l2) = held p l1 + held p l2.
Proof.
  induction l1 as [|r l1 IH]; [reflexivity|].
  change ((r :: l1) ++ l2) with (r :: (l1 ++ l2)).
  unfold held in *. cbn [foldr]. rewrite IH. case_decide; lia.
Qed.

Lemma held_cons (p : string) (r : Reservation) (l : list Reservation) :
  held p (r :: l) =
    (if decide (product_id r = p /\ status r = "active") then quantity r else 0) + held p l.
Proof. unfold held. cbn [foldr]. case_decide; lia. Qed.

Lemma asked_cons (p : string) (item : ReservationItem) (items : list ReservationItem) :
  asked p (item :: items) =
    (if decide (ProductID item = p) then Quantity item else 0) + asked p items.
Proof. unfold asked. cbn [foldr]. case_decide; lia. Qed.

(** No reservation for a product means nothing held. *)
Lemma held_none (p : string) (rs : list Reservation) :
  (forall r, r ∈ rs -> product_id r <> p) -> held p rs = 0.
Proof.
  induction rs as [|r rs IH]; intros H; [reflexivity|].
  rewrite held_cons, IH by (intros r' Hr'; apply H; right; exact Hr').
  destruct (decide _) as [[Hp _]|_]; [| reflexivity].
  exfalso. apply (H r); [left | exact Hp].
Qed.

Lemma reserve_item_fresh rid expiresAt item (tx tx' : DB) :
  reserve_item rid expiresAt item tx = inr tx' ->
  rid ∉ map reservation_id (reservations tx).
Proof.
  unfold reserve_item.
  destruct (inventory tx !! ProductID item) as [inv|]; [| discriminate].
  destruct (AvailableQuantity inv <? Quantity item); [discriminate|].
  destruct (update_inventory _ _ _ tx) as [e|[n tx1]] eqn:Hu; [discriminate|].
  destruct (n =? 0); [discriminate|].
  assert (Hres : reservations tx1 = reservations tx).
  { eapply update_inventory_advances; [apply sound_set_reserve | exact Hu]. }
  unfold insert_reservation. cbn.
  destruct (negb _); [discriminate|].
  destruct (decide _) as [|Hfresh]; [discriminate|].
  intros _. rewrite <- Hres. exact Hfresh.
Qed.

Lemma reserve_item_consistent rid expiresAt item (tx tx' : DB) :
  reserve_item rid expiresAt item tx = inr tx' -> consistent tx -> consistent tx'.
Proof.
  intros H (Hnd & Hfk & Hheld).
  pose proof (reserve_item_fresh _ _ _ _ _ H) as Hfresh.
  apply reserve_item_inr in H as (inv & Hinv & _ & Hi & Hr).
  unfold consistent. rewrite Hi, Hr. split; [| split].
  - rewrite map_app. apply NoDup_app. split; [exact Hnd|]. split.
    + intros x Hx Hx'. cbn in Hx'. apply list_elem_of_singleton in Hx'. subst x.
      contradiction.
    + cbn. apply NoDup_singleton.
  - intros r Hin. apply elem_of_app in Hin as [Hin|Hin].
    + destruct (decide (ProductID item = product_id r)) as [<-|Hne].
      * rewrite lookup_insert_eq. eauto.
      * rewrite lookup_insert_ne by assumption. apply Hfk, Hin.
    + apply list_elem_of_singleton in Hin as ->. cbn. rewrite lookup_insert_eq. eauto.
  - intros p row Hrow. rewrite held_app, held_cons. cbn.
    destruct (decide (ProductID item = p)) as [<-|Hne].
    + rewrite lookup_insert_eq in Hrow. injection Hrow as <-. cbn.
      rewrite (Hheld _ _ Hinv).
      destruct (decide _) as [_|Hn]; [lia|]. exfalso. apply Hn. auto.
    + rewrite lookup_insert_ne in Hrow by assumption.
      rewrite (Hheld _ _ Hrow).
      destruct (decide _) as [[Hp _]|_]; [contradiction | lia].
Qed.

Lemma reserve_items_consistent rid expiresAt items :
  forall tx tx' : DB,
    reserve_items rid expiresAt items tx = inr tx' -> consistent tx -> consistent tx'.
Proof.
  induction items as [|item rest IH]; intros tx tx'; cbn.
  - intros [= <-]. auto.
  - destruct (reserve_item rid expiresAt item tx) as [e|tx1] eqn:H1; [discriminate|].
    intros H2 Hc. eapply IH; [exact H2|]. eapply reserve_item_consistent; eassumption.
Qed.

(** The item [updateReservationStatus] reads from a reservation row. *)
Definition item_of (r : Reservation) : ReservationItem :=
  {| ProductID := product_id r; Quantity := quantity r |}.

(** [m'] is [m] with the reserved quantity of every product [p] lowered
    by [d p]; the same products have a row. *)
Definition lowered (d : string -> Z) (m m' : gmap string Inventory) : Prop :=
  forall p,
    option_Forall2 (fun row row' => ReservedQuantity row' = ReservedQuantity row - d p)
                   (m !! p) (m' !! p).

Lemma lowered_refl (m : gmap string Inventory) : lowered (fun _ => 0) m m.
Proof.
  intros p. destruct (m !! p); constructor. lia.
Qed.

Lemma lowered_trans d1 d2 d (m1 m2 m3 : gmap string Inventory) :
  (forall p, d p = d1 p + d2 p) ->
  lowered d1 m1 m2 -> lowered d2 m2 m3 -> lowered d m1 m3.
Proof.
  intros Hd H1 H2 p. specialize (H1 p). specialize (H2 p). specialize (Hd p).
  destruct H1 as [row row2 Hr1|]; inversion H2; subst; constructor. lia.
Qed.

Lemma update_inventory_lowered (set : Inventory -> Inventory) (q : Z) p (tx tx' : DB) (n : Z) :
  (forall row, ReservedQuantity (set row) = ReservedQuantity row - q) ->
  update_inventory p (fun _ => true) set tx = inr (n, tx') ->
  lowered (fun p0 => if decide (p = p0) then q else 0) (inventory tx) (inventory tx') /\
  reservations tx' = reservations tx.
Proof.
  intros Hset. unfold update_inventory.
  destruct (inventory tx !! p) as [row|] eqn:Hrow.
  - destruct (inventory_violation (set row)); [discriminate|].
    intros [= <- <-]. cbn. split; [| reflexivity].
    intros p0. destruct (decide (p = p0)) as [<-|Hne].
    + rewrite lookup_insert_eq, Hrow. constructor. apply Hset.
    + rewrite lookup_insert_ne by assumption.
      destruct (inventory tx !! p0); constructor. lia.
  - intros [= <- <-]. split; [| reflexivity].
    intros p0. destruct (inventory tx !! p0) eqn:Hp0; constructor.
    case_decide; [congruence | lia].
Qed.

(** The loop of [updateReservationStatus] with a SET clause that gives
    the quantity of the item back from the reserved quantity. *)
Lemma update_each_lowered (set : Z -> Inventory -> Inventory) items :
  (forall q row, ReservedQuantity (set q row) = ReservedQuantity row - q) ->
  forall tx tx' : DB,
    update_each (fun item => update_inventory (ProductID item) (fun _ => true)
                               (set (Quantity item))) items tx = inr tx' ->
    lowered (fun p => asked p items) (inventory tx) (inventory tx') /\
    reservations tx' = reservations tx.
Proof.
  intros Hset. induction items as [|item rest IH]; intros tx tx'; cbn [update_each].
  - intros [= <-]. split; [apply lowered_refl | reflexivity].
  - destruct (update_inventory _ _ _ tx) as [e|[n tx1]] eqn:Hu; [discriminate|].
    intros H. apply IH in H as [Hl Hr].
    apply update_inventory_lowered with (q := Quantity item) in Hu as [Hl1 Hr1];
      [| apply Hset].
    split; [| congruence].
    eapply lowered_trans; [| exact Hl1 | exact Hl].
    intros p. rewrite asked_cons. reflexivity.
Qed.

(** Rows selected among the active ones and given another status no
    longer hold their quantity. *)
Lemma held_marked (P : Reservation -> Prop) `{!forall r, Decision (P r)}
    (newStatus : string) (p : string) (rs : list Reservation) :
  newStatus <> "active" ->
  (forall r, P r -> status r = "active") ->
  held p (map (fun r => if decide (P r) then set_status newStatus r else r) rs) =
    held p rs - asked p (map item_of (filter P rs)).
Proof.
  intros Hs HP. induction rs as [|r rs IH]; [reflexivity|].
  cbn [map]. rewrite filter_cons, !held_cons, IH.
  destruct (decide (P r)) as [Hr|Hr].
  - cbn [map]. rewrite asked_cons. cbn.
    pose proof (HP r Hr) as Hact.
    destruct (decide (product_id r = p /\ newStatus = "active")) as [[_ ?]|_];
      [contradiction|].
    destruct (decide (product_id r = p /\ status r = "active")) as [[Hp _]|Hn];
      destruct (decide (product_id r = p)) as [Hp'|Hp']; try lia; try contradiction.
    exfalso. apply Hn. auto.
  - lia.
Qed.

Lemma marked_ids (P : Reservation -> Prop) `{!forall r, Decision (P r)}
    (newStatus : string) (rs : list Reservation) :
  map reservation_id (map (fun r => if decide (P r) then set_status newStatus r else r) rs) =
    map reservation_id rs.
Proof.
  rewrite map_map. apply map_ext. intros r. case_decide; reflexivity.
Qed.

Lemma marked_product (P : Reservation -> Prop) `{!forall r, Decision (P r)}
    (newStatus : string) (rs : list Reservation) (r' : Reservation) :
  r' ∈ map (fun r => if decide (P r) then set_status newStatus r else r) rs ->
  exists r, r ∈ rs /\ product_id r' = product_id r.
Proof.
  intros Hin. apply list_elem_of_fmap in Hin as (r & -> & Hr).
  exists r. split; [exact Hr|]. case_decide; reflexivity.
Qed.

Lemma updateReservationStatus_consistent (set : Z -> Inventory -> Inventory)
    (rid newStatus : string) (db : DB) :
  (forall q row, ReservedQuantity (set q row) = ReservedQuantity row - q) ->
  newStatus <> "active" ->
  consistent db ->
  consistent
    (snd (updateReservationStatus rid newStatus
            (fun item => update_inventory (ProductID item) (fun _ => true)
                           (set (Quantity item))) db)).
Proof.
  intros Hset Hs Hc. unfold updateReservationStatus.
  destruct (active_items rid db) as [|item items] eqn:Hitems; [exact Hc|].
  destruct (update_each _ (item :: items) db) as [e|tx] eqn:Hu; cbn [snd]; [exact Hc|].
  apply update_each_lowered in Hu as [Hl Hr]; [| exact Hset].
  destruct Hc as (Hnd & Hfk & Hheld).
  unfold consistent, update_reservations. cbn [inventory reservations]. rewrite Hr.
  split; [| split].
  - rewrite marked_ids. exact Hnd.
  - intros r' Hr'. apply marked_product in Hr' as (r & Hin & ->).
    destruct (Hfk r Hin) as [row Hrow]. specialize (Hl (product_id r)).
    rewrite Hrow in Hl. inversion Hl. eauto.
  - intros p row' Hrow'. specialize (Hl p). rewrite Hrow' in Hl.
    inversion Hl as [row ? Hres Heq|]; subst.
    rewrite Hres, (Hheld p row) by auto.
    rewrite held_marked; [| exact Hs | intros r [_ Ha]; exact Ha].
    rewrite <- Hitems. reflexivity.
Qed.

Lemma AdjustInventory_consistent p delta reason (db : DB) :
  consistent db -> consistent (snd (AdjustInventory p delta reason db)).
Proof.
  intros Hc. unfold AdjustInventory.
  destruct (inventory_violation {| AvailableQuantity := delta |}); [exact Hc|].
  match goal with |- context [inventory_violation ?r] =>
    destruct (inventory_violation r) end; [exact Hc|].
  destruct Hc as (Hnd & Hfk & Hheld).
  unfold consistent. cbn. split; [exact Hnd|]. split.
  - intros r Hr. destruct (decide (p = product_id r)) as [<-|Hne].
    + rewrite lookup_insert_eq. eauto.
    + rewrite lookup_insert_ne by assumption. apply Hfk, Hr.
  - intros p0 row Hrow. destruct (decide (p = p0)) as [<-|Hne].
    + rewrite lookup_insert_eq in Hrow. injection Hrow as <-.
      destruct (inventory db !! p) as [old|] eqn:Hold.
      * cbn. apply Hheld, Hold.
      * cbn. symmetry. apply held_none. intros r Hr Hp.
        destruct (Hfk r Hr) as [row Hrow]. congruence.
    + rewrite lookup_insert_ne in Hrow by assumption. apply Hheld, Hrow.
Qed.

(** The reaper, in closed form: the rows whose id is the id of a
    selected reservation are released, the reserved quantities are lowered
    by what the selected reservations held. *)
Definition release_ids (ids : list string) (r : Reservation) : Reservation :=
  if decide (reservation_id r ∈ ids) then set_status "released" r else r.

Lemma release_ids_nil (rs : list Reservation) : map (release_ids []) rs = rs.
Proof.
  rewrite <- (map_id rs) at 2. apply map_ext. intros r. unfold release_ids.
  destruct (decide _) as [H|_]; [| reflexivity]. apply elem_of_nil in H. contradiction.
Qed.

Lemma release_ids_cons (id : string) (ids : list string) (r : Reservation) :
  release_ids ids (if decide (reservation_id r = id) then set_status "released" r else r) =
    release_ids (id :: ids) r.
Proof.
  unfold release_ids. destruct (decide (reservation_id r = id)) as [<-|Hne]; cbn.
  - rewrite (decide_True (P := reservation_id r ∈ reservation_id r :: ids)) by left.
    case_decide; reflexivity.
  - destruct (decide (reservation_id r ∈ ids)) as [Hin|Hin].
    + rewrite decide_True by (right; exact Hin). reflexivity.
    + rewrite decide_False; [reflexivity|].
      intros H. apply elem_of_cons in H as [?|?]; contradiction.
Qed.

Lemma release_expired_inr (rs : list Reservation) :
  forall tx tx' : DB,
    release_expired rs tx = inr tx' ->
    lowered (fun p => asked p (map item_of rs)) (inventory tx) (inventory tx') /\
    reservations tx' = map (release_ids (map reservation_id rs)) (reservations tx).
Proof.
  induction rs as [|r rest IH]; intros tx tx'; cbn [release_expired].
  - intros [= <-]. split; [apply lowered_refl|]. cbn. symmetry. apply release_ids_nil.
  - destruct (update_inventory _ _ _ tx) as [e|[n tx1]] eqn:Hu; [discriminate|].
    intros H. apply IH in H as [Hl Hr].
    apply update_inventory_lowered with (q := quantity r) in Hu as [Hl1 Hr1];
      [| reflexivity].
    cbn [update_reservations inventory reservations] in Hl, Hr. split.
    + eapply lowered_trans; [| exact Hl1 | exact Hl].
      intros p. cbn [map]. rewrite asked_cons. reflexivity.
    + rewrite Hr, Hr1, map_map. cbn [map]. apply map_ext.
      intros r'. apply release_ids_cons.
Qed.

Lemma NoDup_map_eq {A B : Type} (f : A -> B) (l : list A) (x y : A) :
  NoDup (map f l) -> x ∈ l -> y ∈ l -> f x = f y -> x = y.
Proof.
  induction l as [|a l IH]; intros Hnd Hx Hy Hf.
  - apply elem_of_nil in Hx. contradiction.
  - cbn in Hnd. apply NoDup_cons in Hnd as [Ha Hnd].
    apply elem_of_cons in Hx as [->|Hx]; apply elem_of_cons in Hy as [->|Hy]; auto.
    + exfalso. apply Ha. rewrite Hf. apply (list_elem_of_fmap_2 f), Hy.
    + exfalso. apply Ha. rewrite <- Hf. apply (list_elem_of_fmap_2 f), Hx.
Qed.

(** With distinct ids, the rows the reaper releases are the ones its
    query selected. *)
Lemma release_ids_expired (now : Z) (rs : list Reservation) :
  NoDup (map reservation_id rs) ->
  map (release_ids (map reservation_id (filter (expired now) rs))) rs =
    map (fun r => if decide (expired now r) then set_status "released" r else r) rs.
Proof.
  intros Hnd. apply map_ext_in. intros r Hr. apply list_elem_of_In in Hr.
  unfold release_ids. destruct (decide (expired now r)) as [He|He].
  - rewrite decide_True; [reflexivity|].
    apply (list_elem_of_fmap_2 reservation_id). apply list_elem_of_filter. auto.
  - rewrite decide_False; [reflexivity|].
    intros Hin. apply list_elem_of_fmap in Hin as (r' & Hid & Hr').
    apply list_elem_of_filter in Hr' as [He' Hr'].
    assert (r = r') as -> by (eapply NoDup_map_eq; eassumption).
    contradiction.
Qed.

Lemma cleanup_expired_reservations_consistent (now : Z) (db db' : DB) :
  cleanup_expired_reservations now db = inr db' -> consistent db -> consistent db'.
Proof.
  unfold cleanup_expired_reservations. intros H (Hnd & Hfk & Hheld).
  apply release_expired_inr in H as [Hl Hr].
  rewrite release_ids_expired in Hr by exact Hnd.
  unfold consistent. rewrite Hr. split; [| split].
  - rewrite marked_ids. exact Hnd.
  - intros r' Hr'. apply marked_product in Hr' as (r & Hin & ->).
    destruct (Hfk r Hin) as [row Hrow]. specialize (Hl (product_id r)).
    rewrite Hrow in Hl. inversion Hl. eauto.
  - intros p row' Hrow'. specialize (Hl p). rewrite Hrow' in Hl.
    inversion Hl as [row ? Hres Heq|]; subst.
    rewrite Hres, (Hheld p row) by auto.
    rewrite held_marked; [reflexivity | discriminate | intros r [Ha _]; exact Ha].
Qed.

Lemma perform_consistent (now : Z) (op : Operation) (db : DB) :
  consistent db -> consistent (perform now op db).
Proof.
  intros Hc. destruct op as [rid items ttl|rid|rid|p delta reason|]; cbn [perform].
  - unfold ReserveStock.
    destruct (reserve_items _ _ _ db) as [e|tx] eqn:H; cbn [snd]; [exact Hc|].
    eapply reserve_items_consistent; eassumption.
  - apply (updateReservationStatus_consistent set_release); [reflexivity | discriminate | exact Hc].
  - apply (updateReservationStatus_consistent set_commit); [reflexivity | discriminate | exact Hc].
  - apply AdjustInventory_consistent, Hc.
  - unfold CleanupExpiredReservations.
    destruct (cleanup_expired_reservations now db) as [e|db1] eqn:H; cbn [snd]; [exact Hc|].
    eapply cleanup_expired_reservations_consistent; eassumption.
Qed.

Lemma perform_conserved (now : Z) (op : Operation) (db : DB) :
  (forall p row, inventory db !! p = Some row -> conserved row) ->
  forall p row', inventory (perform now op db) !! p = Some row' -> conserved row'.
Proof.
  intros Hinv p row' H'. destruct (perform_advances now op db) as [A B].
  destruct (inventory db !! p) as [row|] eqn:H.
  - destruct (A p row H) as (row2 & H2 & Hr).
    assert (row2 = row') as -> by congruence.
    destruct Hr as [->|[Hk _]]; eauto.
  - eauto.
Qed.

(** A run of operations, each performed at its own time. *)
Definition perform_all (ops : list (Z * Operation)) (db : DB) : DB :=
  foldl (fun d step => perform (fst step) (snd step) d) db ops.

(** X3. Stock is never oversold.  Start from a database where the two
    tables agree (distinct reservation ids, every reservation for a
    product of the inventory, reserved quantity = units held by the active
    reservations of the product) and every row has
    [available + reserved = total] with both non-negative.  After any run
    of [ReserveStock], [ReleaseStock], [CommitStock], [AdjustInventory]
    and reaper calls, failed ones included, the two tables still agree,
    and for every product the units held by its active reservations plus
    the available units are the total, with neither negative: active
    reservations never hold more than the total. *)
Theorem stock_never_oversold (ops : list (Z * Operation)) (db : DB) :
  consistent db ->
  (forall p row, inventory db !! p = Some row -> conserved row) ->
  let db' := perform_all ops db in
  consistent db' /\
  forall p row, inventory db' !! p = Some row ->
    AvailableQuantity row + held p (reservations db') = TotalQuantity row /\
    0 <= AvailableQuantity row /\
    0 <= held p (reservations db') <= TotalQuantity row.
Proof.
  intros Hc Hinv db'.
  assert (H : consistent db' /\
              forall p row, inventory db' !! p = Some row -> conserved row).
  { subst db'. revert db Hc Hinv.
    induction ops as [|[now op] ops IH]; intros db Hc Hinv; [split; assumption|].
    cbn [perform_all foldl fst snd]. apply IH.
    - apply perform_consistent, Hc.
    - apply perform_conserved, Hinv. }
  destruct H as [Hc' Hinv']. split; [exact Hc'|].
  intros p row Hrow. destruct Hc' as (_ & _ & Hheld).
  rewrite <- (Hheld p row Hrow).
  destruct (Hinv' p row Hrow) as (? & ? & ?). lia.
Qed.

Lemma stock_never_oversold_witness :
  let ops := [(0, OpReserveStock "R1" two_of_p1 900);
              (1, OpReserveStock "R2" two_of_p1 900);
              (2, OpCommitStock "R1")] in
  let db' := perform_all ops three_in_stock in
  consistent db' /\
  forall p row, inventory db' !! p = Some row ->
    AvailableQuantity row + held p (reservations db') = TotalQuantity row /\
    0 <= AvailableQuantity row /\
    0 <= held p (reservations db') <= TotalQuantity row.
Proof.
  apply (stock_never_oversold _ three_in_stock).
  - split; [constructor|]. split.
    + intros r Hr. apply elem_of_nil in Hr. contradiction.
    + intros p row Hrow. cbn in Hrow.
      apply lookup_singleton_Some in Hrow as [_ <-]. reflexivity.
  - intros p row Hrow. cbn in Hrow.
    apply lookup_singleton_Some in Hrow as [_ <-]. unfold conserved; cbn. lia.
Defined.

(** *** The reaper *)

Lemma filter_none {A : Type} (P : A -> Prop) `{!forall x, Decision (P x)} (l : list A) :
  (forall x, x ∈ l -> ~ P x) -> filter P l = [].
Proof.
  induction l as [|a l IH]; intros Hl; [reflexivity|].
  rewrite filter_cons, decide_False by (apply Hl; left).
  apply IH. intros x Hx. apply Hl. right. exact Hx.
Qed.

Lemma not_expired_after_release (now : Z) (r : Reservation) :
  ~ expired now (if decide (expired now r) then set_status "released" r else r).
Proof.
  destruct (decide (expired now r)) as [He|He]; [| exact He].
  intros [Hs _]. discriminate Hs.
Qed.

(** X4. The reaper releases exactly the reservations that are active and
    past their expiry.  On a table with distinct reservation ids, a
    reaper run at [now] that returns [nil] has set these rows to
    ["released"] and left every other row as it was; no reservation is
    both active and expired afterwards, so a second run, at [now] or at
    any earlier clock reading, returns [nil] and changes nothing. *)
Theorem reaper_releases_the_expired (now : Z) (db db' : DB) :
  NoDup (map reservation_id (reservations db)) ->
  CleanupExpiredReservations now db = (None, db') ->
  reservations db' =
    map (fun r => if decide (expired now r) then set_status "released" r else r)
        (reservations db) /\
  (forall r, r ∈ reservations db' -> ~ expired now r) /\
  (forall now', now' <= now -> CleanupExpiredReservations now' db' = (None, db')).
Proof.
  intros Hnd. unfold CleanupExpiredReservations.
  destruct (cleanup_expired_reservations now db) as [e|db1] eqn:H; [discriminate|].
  intros [= <-]. unfold cleanup_expired_reservations in H.
  apply release_expired_inr in H as [_ Hr].
  rewrite release_ids_expired in Hr by exact Hnd.
  assert (Hnone : forall r, r ∈ reservations db1 -> ~ expired now r).
  { intros r' Hr'. rewrite Hr in Hr'.
    apply list_elem_of_fmap in Hr' as (r & -> & _). apply not_expired_after_release. }
  split; [exact Hr|]. split; [exact Hnone|].
  intros now' Hle. unfold cleanup_expired_reservations.
  replace (filter (expired now') (reservations db1)) with (@nil Reservation);
    [reflexivity|].
  symmetry. apply filter_none. intros r Hin [Ha Ht]. apply (Hnone r Hin). split; [exact Ha | lia].
Qed.

(** Five units of [p1], all held by a reservation that expires one
    second after the epoch. *)
Definition five_reserved : DB :=
  {| inventory := {[ p1 := {| AvailableQuantity := 0; ReservedQuantity := 5;
                                 TotalQuantity := 5; Version := 2 |} ]};
     reservations :=
       [ {| reservation_id := "R1"; product_id := p1; quantity := 5;
            status := "active"; expires_at := 10 ^ 9 |} ] |}.

Lemma reaper_releases_the_expired_witness :
  let now := 90 * 10 ^ 9 in
  let db' := snd (CleanupExpiredReservations now five_reserved) in
  reservations db' =
    map (fun r => if decide (expired now r) then set_status "released" r else r)
        (reservations five_reserved) /\
  (forall r, r ∈ reservations db' -> ~ expired now r) /\
  (forall now', now' <= now -> CleanupExpiredReservations now' db' = (None, db')).
Proof.
  apply (reaper_releases_the_expired (90 * 10 ^ 9) five_reserved).
  - cbn. apply NoDup_singleton.
  - vm_compute. reflexivity.
Defined.

(** *** Settling a reservation *)

Lemma marked_not_active (rid newStatus : string) (rs : list Reservation) :
  newStatus <> "active" ->
  filter (active_of rid)
    (map (fun r => if decide (active_of rid r) then set_status newStatus r else r) rs) = [].
Proof.
  intros Hs. apply filter_none. intros r' Hr'.
  apply list_elem_of_fmap in Hr' as (r & -> & _).
  destruct (decide (active_of rid r)) as [Ha|Ha]; [| exact Ha].
  intros [_ Hst]. cbn in Hst. contradiction.
Qed.

Lemma updateReservationStatus_settles (set : Z -> Inventory -> Inventory)
    (rid newStatus : string) (db db' : DB) :
  (forall q row, ReservedQuantity (set q row) = ReservedQuantity row - q) ->
  newStatus <> "active" ->
  updateReservationStatus rid newStatus
    (fun item => update_inventory (ProductID item) (fun _ => true)
                   (set (Quantity item))) db = (None, db') ->
  active_items rid db' = [].
Proof.
  intros Hset Hs. unfold updateReservationStatus.
  destruct (active_items rid db) as [|item items]; [discriminate|].
  destruct (update_each _ (item :: items) db) as [e|tx] eqn:Hu; [discriminate|].
  intros [= <-]. apply update_each_lowered in Hu as [_ Hr]; [| exact Hset].
  unfold active_items, update_reservations. cbn [reservations].
  rewrite marked_not_active by exact Hs. reflexivity.
Qed.

Lemma updateReservationStatus_nothing_active rid newStatus updateFn (db : DB) :
  active_items rid db = [] ->
  updateReservationStatus rid newStatus updateFn db =
    (Some (errors_New ("no active reservations found for " +:+ rid)), db).
Proof. unfold updateReservationStatus. intros ->. reflexivity. Qed.

(** X5. A reservation is settled once.  After a [ReleaseStock] or a
    [CommitStock] of a reservation id has returned [nil], every further
    [ReleaseStock] and [CommitStock] of that id returns the error
    [no active reservations found] and leaves inventory and reservations
    as they are: stock is not given back or taken out twice. *)
Theorem reservation_settled_once (reservationID : string) (db db' : DB) :
  ReleaseStock reservationID db = (None, db') \/
  CommitStock reservationID db = (None, db') ->
  let refused :=
    (Some (errors_New ("no active reservations found for " +:+ reservationID)), db') in
  ReleaseStock reservationID db' = refused /\
  CommitStock reservationID db' = refused.
Proof.
  intros H refused.
  assert (Hnone : active_items reservationID db' = []).
  { destruct H as [H|H].
    - apply (updateReservationStatus_settles set_release) in H;
        [exact H | reflexivity | discriminate].
    - apply (updateReservationStatus_settles set_commit) in H;
        [exact H | reflexivity | discriminate]. }
  split; apply updateReservationStatus_nothing_active, Hnone.
Qed.

Lemma reservation_settled_once_witness :
  let db' := snd (CommitStock "R1" five_reserved) in
  let refused := (Some (errors_New ("no active reservations found for " +:+ "R1")), db') in
  ReleaseStock "R1" db' = refused /\ CommitStock "R1" db' = refused.
Proof.
  apply (reservation_settled_once "R1" five_reserved).
  right. vm_compute. reflexivity.
Defined.

(** *** Reserving and settling *)

(** The rows the table accepts. *)
Lemma inventory_violation_iff (row : Inventory) :
  inventory_violation row = None <->
  0 <= AvailableQuantity row < 2 ^ 31 /\
  0 <= ReservedQuantity row < 2 ^ 31 /\
  - 2 ^ 31 <= TotalQuantity row < 2 ^ 31 /\
  - 2 ^ 31 <= Version row < 2 ^ 31.
Proof.
  unfold inventory_violation, int4.
  repeat match goal with
         | |- context [?a <=? ?b] => destruct (Z.leb_spec a b)
         | |- context [?a <? ?b] => destruct (Z.ltb_spec a b)
         end; cbn; split; intros H'; try discriminate; try reflexivity; lia.
Qed.

Lemma int4_true (z : Z) : int4 z = true <-> - 2 ^ 31 <= z < 2 ^ 31.
Proof.
  unfold int4. rewrite andb_true_iff, Z.leb_le, Z.ltb_lt. reflexivity.
Qed.

(** The database after a reservation of one item has been made and then
    settled with the SET clause [set]. *)
Lemma reserve_then_settle (set : Z -> Inventory -> Inventory) (newStatus : string)
    (now : Z) (rid : string) (item : ReservationItem) (ttl : Z) (db db1 : DB)
    (inv : Inventory) :
  (forall q row, ReservedQuantity (set q row) = ReservedQuantity row - q) ->
  ReserveStock now rid [item] ttl db = (None, db1) ->
  inventory db !! ProductID item = Some inv ->
  inventory_violation (set (Quantity item) (set_reserve (Quantity item) inv)) = None ->
  updateReservationStatus rid newStatus
    (fun item => update_inventory (ProductID item) (fun _ => true)
                   (set (Quantity item))) db1 =
    (None,
     {| inventory :=
          <[ProductID item := set (Quantity item) (set_reserve (Quantity item) inv)]>
            (inventory db);
        reservations :=
          reservations db ++ [set_status newStatus (reservation_for rid (expiry now ttl) item)]
     |}).
Proof.
  intros Hset Hcall Hinv Hok. unfold ReserveStock in Hcall. cbn [reserve_items] in Hcall.
  destruct (reserve_item rid (expiry now ttl) item db) as [e|tx] eqn:H; [discriminate|].
  injection Hcall as <-.
  pose proof (reserve_item_fresh _ _ _ _ _ H) as Hfresh.
  apply reserve_item_inr in H as (inv' & Hinv' & _ & Hi & Hr).
  assert (inv' = inv) as -> by congruence.
  assert (Hold : forall r, r ∈ reservations db -> ~ active_of rid r).
  { intros r Hin [Hid _]. apply Hfresh. rewrite <- Hid.
    apply (list_elem_of_fmap_2 reservation_id), Hin. }
  assert (Hitems : active_items rid tx = [item]).
  { unfold active_items. rewrite Hr, filter_app, (filter_none _ _ Hold).
    rewrite filter_cons, decide_True by (split; reflexivity).
    destruct item; reflexivity. }
  unfold updateReservationStatus. rewrite Hitems. cbn [update_each].
  unfold update_inventory at 1. rewrite Hi, lookup_insert_eq, Hok.
  unfold update_reservations. cbn [inventory reservations].
  rewrite insert_insert_eq, Hr, map_app. do 3 f_equal.
  - rewrite <- (map_id (reservations db)) at 2. apply map_ext_in.
    intros r Hin. apply list_elem_of_In in Hin.
    rewrite decide_False by (apply Hold, Hin). reflexivity.
  - cbn. rewrite decide_True by (split; reflexivity). reflexivity.
Qed.

(** X6. Reserving and releasing gives the stock back.  When
    [ReserveStock] of one item has returned [nil] on a product row that
    satisfies the constraints of the table and whose version is at least
    two below the largest INTEGER, [ReleaseStock] of the same id returns
    [nil]: the available, reserved and total quantities of the product
    are what they were before the reservation, its version is two higher,
    every other product row is untouched, and the reservation row is kept
    with status ["released"]. *)
Theorem reserve_then_release (now : Z) (reservationID : string) (item : ReservationItem)
    (ttlSeconds : Z) (db db1 : DB) (inv : Inventory) :
  ReserveStock now reservationID [item] ttlSeconds db = (None, db1) ->
  inventory db !! ProductID item = Some inv ->
  inventory_violation inv = None ->
  Version inv + 2 < 2 ^ 31 ->
  ReleaseStock reservationID db1 =
    (None,
     {| inventory :=
          <[ProductID item :=
              {| AvailableQuantity := AvailableQuantity inv;
                 ReservedQuantity := ReservedQuantity inv;
                 TotalQuantity := TotalQuantity inv;
                 Version := Version inv + 2 |}]> (inventory db);
        reservations :=
          reservations db ++
          [set_status "released"
             (reservation_for reservationID (expiry now ttlSeconds) item)] |}).
Proof.
  intros Hcall Hinv Hok Hv. unfold ReleaseStock.
  assert (Hrow : set_release (Quantity item) (set_reserve (Quantity item) inv) =
                 {| AvailableQuantity := AvailableQuantity inv;
                    ReservedQuantity := ReservedQuantity inv;
                    TotalQuantity := TotalQuantity inv;
                    Version := Version inv + 2 |}).
  { unfold set_release, set_reserve. cbn. f_equal; lia. }
  rewrite (reserve_then_settle set_release "released" now reservationID item ttlSeconds
             db db1 inv); [rewrite Hrow; reflexivity | reflexivity | exact Hcall | exact Hinv |].
  rewrite Hrow. apply inventory_violation_iff in Hok. apply inventory_violation_iff. cbn. lia.
Qed.

Lemma reserve_then_release_witness :
  let db1 := snd (ReserveStock 0 "R1" two_of_p1 900 three_in_stock) in
  ReleaseStock "R1" db1 =
    (None,
     {| inventory :=
          <[p1 := {| AvailableQuantity := 3; ReservedQuantity := 0;
                     TotalQuantity := 3; Version := 3 |}]> (inventory three_in_stock);
        reservations :=
          [set_status "released"
             (reservation_for "R1" (expiry 0 900) {| ProductID := p1; Quantity := 2 |})] |}).
Proof.
  apply (reserve_then_release 0 "R1" {| ProductID := p1; Quantity := 2 |} 900 three_in_stock
           _ {| AvailableQuantity := 3; ReservedQuantity := 0;
                TotalQuantity := 3; Version := 1 |}).
  - vm_compute. reflexivity.
  - reflexivity.
  - reflexivity.
  - reflexivity.
Defined.

(** X7. Reserving and committing takes the stock out.  When
    [ReserveStock] of one item has returned [nil] on a product row that
    satisfies the constraints of the table, whose version is at least two
    below the largest INTEGER and whose total less the quantity is an
    INTEGER, [CommitStock] of the same id returns [nil]: available and
    total are both lower by the quantity of the item, the reserved
    quantity is what it was before the reservation, the version is two
    higher, every other product row is untouched, and the reservation row
    is kept with status ["committed"]. *)
Theorem reserve_then_commit (now : Z) (reservationID : string) (item : ReservationItem)
    (ttlSeconds : Z) (db db1 : DB) (inv : Inventory) :
  ReserveStock now reservationID [item] ttlSeconds db = (None, db1) ->
  inventory db !! ProductID item = Some inv ->
  inventory_violation inv = None ->
  Version inv + 2 < 2 ^ 31 ->
  int4 (TotalQuantity inv - Quantity item) = true ->
  CommitStock reservationID db1 =
    (None,
     {| inventory :=
          <[ProductID item :=
              {| AvailableQuantity := AvailableQuantity inv - Quantity item;
                 ReservedQuantity := ReservedQuantity inv;
                 TotalQuantity := TotalQuantity inv - Quantity item;
                 Version := Version inv + 2 |}]> (inventory db);
        reservations :=
          reservations db ++
          [set_status "committed"
             (reservation_for reservationID (expiry now ttlSeconds) item)] |}).
Proof.
  intros Hcall Hinv Hok Hv Ht. unfold CommitStock.
  assert (Hrow : set_commit (Quantity item) (set_reserve (Quantity item) inv) =
                 {| AvailableQuantity := AvailableQuantity inv - Quantity item;
                    ReservedQuantity := ReservedQuantity inv;
                    TotalQuantity := TotalQuantity inv - Quantity item;
                    Version := Version inv + 2 |}).
  { unfold set_commit, set_reserve. cbn. f_equal; lia. }
  rewrite (reserve_then_settle set_commit "committed" now reservationID item ttlSeconds
             db db1 inv); [rewrite Hrow; reflexivity | reflexivity | exact Hcall | exact Hinv |].
  rewrite Hrow. apply inventory_violation_iff in Hok. apply inventory_violation_iff. cbn.
  assert (Hres : inventory_violation (set_reserve (Quantity item) inv) = None).
  { unfold ReserveStock in Hcall. cbn [reserve_items] in Hcall.
    destruct (reserve_item _ _ item db) as [e|tx] eqn:H; [discriminate|].
    clear Hcall. unfold reserve_item, update_inventory in H.
    rewrite Hinv, Z.eqb_refl in H.
    destruct (AvailableQuantity inv <? Quantity item); [discriminate|].
    destruct (inventory_violation _); [discriminate | reflexivity]. }
  apply inventory_violation_iff in Hres. cbn in Hres.
  apply int4_true in Ht. lia.
Qed.

Lemma reserve_then_commit_witness :
  let db1 := snd (ReserveStock 0 "R1" two_of_p1 900 three_in_stock) in
  CommitStock "R1" db1 =
    (None,
     {| inventory :=
          <[p1 := {| AvailableQuantity := 3 - 2; ReservedQuantity := 0;
                     TotalQuantity := 3 - 2; Version := 3 |}]> (inventory three_in_stock);
        reservations :=
          [set_status "committed"
             (reservation_for "R1" (expiry 0 900) {| ProductID := p1; Quantity := 2 |})] |}).
Proof.
  apply (reserve_then_commit 0 "R1" {| ProductID := p1; Quantity := 2 |} 900 three_in_stock
           _ {| AvailableQuantity := 3; ReservedQuantity := 0;
                TotalQuantity := 3; Version := 1 |}).
  - vm_compute. reflexivity.
  - reflexivity.
  - reflexivity.
  - reflexivity.
  - reflexivity.
Defined.

End inventory.

(** ** Encodings *)

(** SHA-256 is kept symbolic (and so collision-free): the digest of a text
    is that text in a wrapper. *)
Definition sha256_hex (data : string) : string := "sha256:" +:+ data.

(** JSON values, for event payloads. *)
#[warnings="-register-all"]
Inductive json : Type :=
| JString (s : string)
| JNumber (z : Z)
| JArray (elements : list json)
| JObject (fields : list (string * json)).

(** What [json.Marshal] is given and what it produces, as far as the
    idempotency store is concerned: a struct encodes as a JSON object, a
    [[]byte] as a JSON string holding the base64 text of the bytes. *)
Inductive gobody (A : Type) : Type :=
| Struct (v : A)
| Bytes (v : A).       (* the JSON bytes of [v], as a []byte *)

Inductive document (A : Type) : Type :=
| Object (v : A)
| Base64String (v : A).

Arguments Struct {A} v.
Arguments Bytes {A} v.
Arguments Object {A} v.
Arguments Base64String {A} v.

Definition json_Marshal {A : Type} (body : gobody A) : document A :=
  match body with
  | Struct v => Object v
  | Bytes v => Base64String v
  end.

(** [json.Unmarshal(data, &v)] for a struct [v] of the Go type
    [typeName]. *)
Definition json_Unmarshal {A : Type} (typeName : string) (data : document A) : error + A :=
  match data with
  | Object v => inr v
  | Base64String _ =>
      inl (errors_New ("json: cannot unmarshal string into Go value of type " +:+ typeName))
  end.

(** ** pkg/idempotency *)

Module idempotency.

(** [24 * time.Hour], in nanoseconds. *)
Definition DefaultTTL : Z := 24 * 3600 * 10 ^ 9.
Definition KeyPrefix : string := "idempotency:".

Record Result (A : Type) : Type := mkResult {
  StatusCode : Z;
  Body : document A
}.

Arguments mkResult {A} _ _.
Arguments StatusCode {A} _.
Arguments Body {A} _.

Definition GenerateKey (userID operation idempotencyKey : string) : string :=
  KeyPrefix +:+ sha256_hex (userID +:+ ":" +:+ operation +:+ ":" +:+ idempotencyKey).

(** The Redis server behind the store: its clock, and for every key that
    was set the value stored and the instant the key expires at. *)
Record Redis (A : Type) : Type := mkRedis {
  clock : Z;
  keyspace : gmap string (Result A * Z)
}.

Arguments mkRedis {A} _ _.
Arguments clock {A} _.
Arguments keyspace {A} _.

(** [redis.Get]: a key that has expired is a key that is absent. *)
Definition Get {A : Type} (key : string) (redis : Redis A) : option (Result A) :=
  match keyspace redis !! key with
  | Some (result, expiresAt) => if clock redis <? expiresAt then Some result else None
  | None => None
  end.

(** [redis.Set(ctx, key, data, DefaultTTL)] *)
Definition Set_ {A : Type} (key : string) (statusCode : Z) (body : gobody A)
    (redis : Redis A) : Redis A :=
  {| clock := clock redis;
     keyspace :=
       <[key := ({| StatusCode := statusCode; Body := json_Marshal body |},
                 clock redis + DefaultTTL)]> (keyspace redis) |}.

End idempotency.

(** ** pkg/pubsub *)

Module pubsub.

Record Message : Type := mkMessage {
  Topic : string;
  Data : json;
  Attributes : list (string * string)
}.

(** The broker as the publisher sees it: which messages it refuses, the
    publish calls it has received and the messages it has accepted. *)
Record Broker : Type := mkBroker {
  refuses : Message -> bool;
  received : list Message;
  accepted : list Message
}.

Definition Publish (topicName : string) (data : json) (attrs : list (string * string))
    (b : Broker) : option error * Broker :=
  let msg := {| Topic := topicName; Data := data; Attributes := attrs |} in
  if refuses b msg then
    (Some (Errorf_w "failed to publish message" (errors_New "rpc error")),
     {| refuses := refuses b; received := received b ++ [msg]; accepted := accepted b |})
  else
    (None,
     {| refuses := refuses b; received := received b ++ [msg];
        accepted := accepted b ++ [msg] |}).

End pubsub.

(** ** services/orders *)

Module orders.

(** *** internal/repository *)

Module repository.

Definition OrderStatus : Type := string.

Definition StatusPending : OrderStatus := "pending".
Definition StatusConfirmed : OrderStatus := "confirmed".
Definition StatusPaid : OrderStatus := "paid".
Definition StatusProcessing : OrderStatus := "processing".
Definition StatusShipped : OrderStatus := "shipped".
Definition StatusDelivered : OrderStatus := "delivered".
Definition StatusCancelled : OrderStatus := "canceled".
Definition StatusRefunded : OrderStatus := "refunded".

Record OrderItem : Type := mkOrderItem {
  ItemID : string;
  OrderID : string;
  ProductID : string;
  ProductName : string;
  Quantity : Z;              (* int32 *)
  UnitPriceCurrency : string;
  UnitPriceAmount : Z;       (* int64 *)
  TotalPriceCurrency : string;
  TotalPriceAmount : Z       (* int64 *)
}.

Record Order : Type := mkOrder {
  ID : string;
  UserID : string;
  TotalCurrency : string;
  TotalAmount : Z;           (* int64 *)
  Status : OrderStatus;
  PaymentID : string;
  ShippingStreet : string;
  ShippingCity : string;
  ShippingState : string;
  ShippingPostalCode : string;
  ShippingCountry : string;
  Items : list OrderItem
}.

Record OutboxEvent : Type := mkOutboxEvent {
  EventID : string;
  AggregateType : string;
  AggregateID : string;
  EventType : string;
  Payload : list (string * json);
  Published : bool;
  PublishedAt : option Z
}.

(** The database of the service.  [order_status] is the list of labels of
    the enum type of that name, which the column [orders.status] has.  A
    row of [orders] is an [Order] without items ([Items] is no column);
    the rows of each table are in the order they were inserted. *)
Record DB : Type := mkDB {
  order_status : list string;
  orders : list Order;
  order_items : list OrderItem;
  outbox : list OutboxEvent
}.

(** The enum type as the migration creates it. *)
Definition migration_order_status : list string :=
  ["pending"; "confirmed"; "paid"; "processing"; "shipped"; "delivered";
   "cancelled"; "refunded"].

Definition pq_invalid_enum (value : string) : error :=
  errors_New ("pq: invalid input value for enum order_status: " +:+ quoted value).
Definition pq_unique_violation (constraint : string) : error :=
  errors_New ("pq: duplicate key value violates unique constraint " +:+ quoted constraint).

Definition with_orders (db : DB) (os : list Order) : DB :=
  {| order_status := order_status db; orders := os;
     order_items := order_items db; outbox := outbox db |}.

Definition with_order_items (db : DB) (its : list OrderItem) : DB :=
  {| order_status := order_status db; orders := orders db;
     order_items := its; outbox := outbox db |}.

Definition with_outbox (db : DB) (es : list OutboxEvent) : DB :=
  {| order_status := order_status db; orders := orders db;
     order_items := order_items db; outbox := es |}.

Definition with_ID (order : Order) (id : string) : Order :=
  {| ID := id; UserID := UserID order; TotalCurrency := TotalCurrency order;
     TotalAmount := TotalAmount order; Status := Status order;
     PaymentID := PaymentID order; ShippingStreet := ShippingStreet order;
     ShippingCity := ShippingCity order; ShippingState := ShippingState order;
     ShippingPostalCode := ShippingPostalCode order;
     ShippingCountry := ShippingCountry order; Items := Items order |}.

Definition with_Status (order : Order) (status : OrderStatus) : Order :=
  {| ID := ID order; UserID := UserID order; TotalCurrency := TotalCurrency order;
     TotalAmount := TotalAmount order; Status := status;
     PaymentID := PaymentID order; ShippingStreet := ShippingStreet order;
     ShippingCity := ShippingCity order; ShippingState := ShippingState order;
     ShippingPostalCode := ShippingPostalCode order;
     ShippingCountry := ShippingCountry order; Items := Items order |}.

Definition with_Items (order : Order) (items : list OrderItem) : Order :=
  {| ID := ID order; UserID := UserID order; TotalCurrency := TotalCurrency order;
     TotalAmount := TotalAmount order; Status := Status order;
     PaymentID := PaymentID order; ShippingStreet := ShippingStreet order;
     ShippingCity := ShippingCity order; ShippingState := ShippingState order;
     ShippingPostalCode := ShippingPostalCode order;
     ShippingCountry := ShippingCountry order; Items := items |}.

Definition with_ids (item : OrderItem) (id orderID : string) : OrderItem :=
  {| ItemID := id; OrderID := orderID; ProductID := ProductID item;
     ProductName := ProductName item; Quantity := Quantity item;
     UnitPriceCurrency := UnitPriceCurrency item;
     UnitPriceAmount := UnitPriceAmount item;
     TotalPriceCurrency := TotalPriceCurrency item;
     TotalPriceAmount := TotalPriceAmount item |}.

Definition with_event_ids (event : OutboxEvent) (id aggregateID : string) : OutboxEvent :=
  {| EventID := id; AggregateType := AggregateType event;
     AggregateID := aggregateID; EventType := EventType event;
     Payload := Payload event; Published := Published event;
     PublishedAt := PublishedAt event |}.

(** The row [INSERT INTO orders (id, user_id, ..., shipping_country)]
    writes for an order: [payment_id] is not among the columns of the
    statement, so it is NULL, which [GetByID] reads as the empty string. *)
Definition order_row (order : Order) : Order :=
  {| ID := ID order; UserID := UserID order; TotalCurrency := TotalCurrency order;
     TotalAmount := TotalAmount order; Status := Status order;
     PaymentID := ""; ShippingStreet := ShippingStreet order;
     ShippingCity := ShippingCity order; ShippingState := ShippingState order;
     ShippingPostalCode := ShippingPostalCode order;
     ShippingCountry := ShippingCountry order; Items := [] |}.

(** [INSERT INTO orders (...) VALUES (...)]: the status must be a label of
    the enum and the id is the primary key. *)
Definition insert_order (order : Order) (tx : DB) : error + DB :=
  if decide (Status order ∈ order_status tx) then
    if decide (ID order ∈ map ID (orders tx))
    then inl (pq_unique_violation "orders_pkey")
    else inr (with_orders tx (orders tx ++ [order_row order]))
  else inl (pq_invalid_enum (Status order)).

(** [INSERT INTO order_items (...) VALUES (...)] *)
Definition insert_order_item (item : OrderItem) (tx : DB) : error + DB :=
  if decide (ItemID item ∈ map ItemID (order_items tx))
  then inl (pq_unique_violation "order_items_pkey")
  else inr (with_order_items tx (order_items tx ++ [item])).

(** [INSERT INTO outbox (id, aggregate_type, aggregate_id, event_type,
    payload)]: [published] defaults to false. *)
Definition insert_outbox (event : OutboxEvent) (tx : DB) : error + DB :=
  if decide (EventID event ∈ map EventID (outbox tx))
  then inl (pq_unique_violation "outbox_pkey")
  else
    inr (with_outbox tx
           (outbox tx ++
            [ {| EventID := EventID event; AggregateType := AggregateType event;
                 AggregateID := AggregateID event; EventType := EventType event;
                 Payload := Payload event; Published := false;
                 PublishedAt := None |} ])).

(** The loop of [CreateWithOutbox] over [order.Items], from index [i]: each
    item gets an id and the id of the order, and is inserted.  The result
    carries the items as the loop left them. *)
Fixpoint insert_items (uuid : nat -> string) (orderID : string) (i : nat)
    (items : list OrderItem) (tx : DB) : error + (list OrderItem * DB) :=
  match items with
  | [] => inr ([], tx)
  | item :: rest =>
      let item1 := with_ids item (uuid i) orderID in
      match insert_order_item item1 tx with
      | inl e => inl (Errorf_w "failed to insert order item" e)
      | inr tx1 =>
          match insert_items uuid orderID (S i) rest tx1 with
          | inl e => inl e
          | inr (rest1, tx2) => inr (item1 :: rest1, tx2)
          end
      end
  end.

(** [CreateWithOutbox]; [uuid] lists the UUIDs the call draws: number 0 for
    the order, then one per item, then one for the event.  On success the
    order and the event are returned as the call has filled them in. *)
Definition CreateWithOutbox (uuid : nat -> string) (order : Order) (event : OutboxEvent)
    (db : DB) : (error + (Order * OutboxEvent)) * DB :=
  let order1 := with_ID order (uuid 0%nat) in
  match insert_order order1 db with
  | inl e => (inl (Errorf_w "failed to insert order" e), db)
  | inr tx1 =>
      match insert_items uuid (ID order1) 1 (Items order1) tx1 with
      | inl e => (inl e, db)
      | inr (items1, tx2) =>
          let order2 := with_Items order1 items1 in
          let event1 :=
            with_event_ids event (uuid (S (length (Items order1)))) (ID order2) in
          match insert_outbox event1 tx2 with
          | inl e => (inl (Errorf_w "failed to insert outbox event" e), db)
          | inr tx3 => (inr (order2, event1), tx3)
          end
      end
  end.

(** [GetByID]: [None] is the [nil, nil] of an absent order. *)
Definition GetByID (id : string) (db : DB) : option Order :=
  match filter (fun o => ID o = id) (orders db) with
  | [] => None
  | order :: _ =>
      Some (with_Items order (filter (fun it => OrderID it = id) (order_items db)))
  end.

(** [UPDATE orders SET status = $1 WHERE id = $2]; the result is the
    number of rows affected. *)
Definition update_order_status (status : OrderStatus) (orderID : string) (tx : DB) :
    error + (Z * DB) :=
  if decide (status ∈ order_status tx) then
    inr (Z.of_nat (length (filter (fun o => ID o = orderID) (orders tx))),
         with_orders tx
           (map (fun o => if decide (ID o = orderID) then with_Status o status else o)
                (orders tx)))
  else inl (pq_invalid_enum status).

(** [UpdateStatus]; [uuid 0] is the id drawn for the event. *)
Definition UpdateStatus (uuid : nat -> string) (orderID : string) (status : OrderStatus)
    (event : option OutboxEvent) (db : DB) : option error * DB :=
  match update_order_status status orderID db with
  | inl e => (Some (Errorf_w "failed to update order status" e), db)
  | inr (rowsAffected, tx1) =>
      if rowsAffected =? 0 then (Some (errors_New "order not found"), db)
      else
        match event with
        | Some ev =>
            match insert_outbox (with_event_ids ev (uuid 0%nat) orderID) tx1 with
            | inl e => (Some (Errorf_w "failed to insert outbox event" e), db)
            | inr tx2 => (None, tx2)
            end
        | None => (None, tx1)
        end
  end.

(** [GetUnpublishedEvents]: [WHERE published = false ORDER BY created_at
    LIMIT $1]. *)
Definition GetUnpublishedEvents (limit : nat) (db : DB) : list OutboxEvent :=
  take limit (filter (fun e => Published e = false) (outbox db)).

Definition mark_published (now : Z) (event : OutboxEvent) : OutboxEvent :=
  {| EventID := EventID event; AggregateType := AggregateType event;
     AggregateID := AggregateID event; EventType := EventType event;
     Payload := Payload event; Published := true; PublishedAt := Some now |}.

(** [MarkEventPublished], run at [now]. *)
Definition MarkEventPublished (now : Z) (eventID : string) (db : DB) : option error * DB :=
  let rowsAffected := length (filter (fun e => EventID e = eventID) (outbox db)) in
  if decide (rowsAffected = 0%nat) then (Some (errors_New "event not found"), db)
  else
    (None,
     with_outbox db
       (map (fun e => if decide (EventID e = eventID) then mark_published now e else e)
            (outbox db))).

(** *** Facts about the repository *)

Lemma insert_outbox_inr (event : OutboxEvent) (tx tx' : DB) :
  insert_outbox event tx = inr tx' ->
  (EventID event ∉ map EventID (outbox tx)) /\
  order_status tx' = order_status tx /\
  orders tx' = orders tx /\
  order_items tx' = order_items tx /\
  outbox tx' =
    outbox tx ++ [ {| EventID := EventID event; AggregateType := AggregateType event;
                      AggregateID := AggregateID event; EventType := EventType event;
                      Payload := Payload event; Published := false;
                      PublishedAt := None |} ].
Proof.
  unfold insert_outbox. destruct (decide _) as [|Hfresh]; [discriminate|].
  intros [= <-]. cbn. auto.
Qed.

Lemma insert_outbox_fresh (event : OutboxEvent) (tx : DB) :
  EventID event ∉ map EventID (outbox tx) ->
  exists tx', insert_outbox event tx = inr tx'.
Proof.
  intros H. unfold insert_outbox. destruct (decide _); [contradiction | eauto].
Qed.

Lemma GetByID_Some (id : string) (db : DB) (order : Order) :
  GetByID id db = Some order ->
  ID order = id /\ filter (fun o => ID o = id) (orders db) <> [].
Proof.
  unfold GetByID.
  destruct (filter _ (orders db)) as [|o rest] eqn:Hf; [discriminate|].
  intros [= <-]. split; [| discriminate].
  assert (Hin : o ∈ filter (fun o => ID o = id) (orders db)) by (rewrite Hf; left).
  apply list_elem_of_filter in Hin as [Hid _]. exact Hid.
Qed.

Lemma filter_ID_map (f : Order -> Order) (id : string) (l : list Order) :
  (forall o, ID (f o) = ID o) ->
  filter (fun o => ID o = id) (map f l) = map f (filter (fun o => ID o = id) l).
Proof.
  intros Hf. induction l as [|o l IH]; [reflexivity|].
  cbn [map]. rewrite !filter_cons, Hf.
  destruct (decide (ID o = id)); cbn [map]; rewrite IH; reflexivity.
Qed.

(** After the update of the status of [id0], an order read back is the
    order read before, with the new status if it is [id0]. *)
Lemma GetByID_after_update (id id0 : string) (status : OrderStatus) (db : DB)
    (events : list OutboxEvent) :
  GetByID id
    {| order_status := order_status db;
       orders := map (fun o => if decide (ID o = id0) then with_Status o status else o)
                     (orders db);
       order_items := order_items db;
       outbox := events |} =
  (fun o => if decide (id = id0) then with_Status o status else o) <$> GetByID id db.
Proof.
  unfold GetByID. cbn [orders order_items].
  rewrite filter_ID_map by (intros o; destruct (decide _); reflexivity).
  destruct (filter (fun o => ID o = id) (orders db)) as [|o rest] eqn:Hf; [reflexivity|].
  assert (Hin : o ∈ filter (fun o => ID o = id) (orders db)) by (rewrite Hf; left).
  apply list_elem_of_filter in Hin as [Hid _].
  cbn. rewrite Hid. destruct (decide (id = id0)); reflexivity.
Qed.

(** [UpdateStatus] on an order that exists, with a status the column
    accepts and an event id that is not taken. *)
Lemma UpdateStatus_applies (uuid : nat -> string) (orderID : string)
    (status : OrderStatus) (event : OutboxEvent) (db : DB) (order : Order) :
  GetByID orderID db = Some order ->
  status ∈ order_status db ->
  uuid 0%nat ∉ map EventID (outbox db) ->
  exists db',
    UpdateStatus uuid orderID status (Some event) db = (None, db') /\
    GetByID orderID db' = Some (with_Status order status) /\
    (forall id, id <> orderID -> GetByID id db' = GetByID id db) /\
    outbox db' =
      outbox db ++ [ {| EventID := uuid 0%nat; AggregateType := AggregateType event;
                        AggregateID := orderID; EventType := EventType event;
                        Payload := Payload event; Published := false;
                        PublishedAt := None |} ].
Proof.
  intros Hget Hlabel Hfresh.
  pose proof (GetByID_Some _ _ _ Hget) as [_ Hne].
  unfold UpdateStatus, update_order_status.
  destruct (decide (status ∈ order_status db)); [| contradiction].
  destruct (Z.eqb_spec (Z.of_nat (length (filter (fun o => ID o = orderID) (orders db)))) 0)
    as [Hz|_].
  { destruct (filter _ (orders db)); [congruence | cbn in Hz; lia]. }
  unfold insert_outbox, with_orders, with_outbox. cbn.
  destruct (decide _) as [|_]; [contradiction|].
  eexists. split; [reflexivity|]. cbn.
  split; [| split; [| reflexivity]].
  - rewrite GetByID_after_update, Hget. cbn.
    destruct (decide (orderID = orderID)); [reflexivity | contradiction].
  - intros id Hid. rewrite GetByID_after_update.
    destruct (GetByID id db); cbn; [| reflexivity].
    destruct (decide (id = orderID)); [contradiction | reflexivity].
Qed.

(** An [UpdateStatus] that returns an error has changed nothing, and it
    returns one when the order is absent or the column refuses the value. *)
Lemma UpdateStatus_error (uuid : nat -> string) (orderID : string)
    (status : OrderStatus) (event : option OutboxEvent) (db db' : DB) (e : error) :
  UpdateStatus uuid orderID status event db = (Some e, db') -> db' = db.
Proof.
  unfold UpdateStatus.
  destruct (update_order_status _ _ _) as [e1|[n tx1]]; [intros [= _ <-]; reflexivity|].
  destruct (n =? 0); [intros [= _ <-]; reflexivity|].
  destruct event as [ev|]; [| discriminate].
  destruct (insert_outbox _ _); [intros [= _ <-]; reflexivity | discriminate].
Qed.

Lemma UpdateStatus_refused (uuid : nat -> string) (orderID : string)
    (status : OrderStatus) (event : option OutboxEvent) (db : DB) :
  GetByID orderID db = None \/ status ∉ order_status db ->
  exists e, UpdateStatus uuid orderID status event db = (Some e, db).
Proof.
  intros H. unfold UpdateStatus, update_order_status.
  destruct (decide (status ∈ order_status db)) as [Hl|Hl]; [| eauto].
  destruct H as [H|H]; [| contradiction].
  unfold GetByID in H.
  destruct (filter (fun o => ID o = orderID) (orders db)); [| discriminate].
  cbn. eauto.
Qed.

(** The items as the loop of [CreateWithOutbox] numbers them. *)
Fixpoint numbered (uuid : nat -> string) (orderID : string) (i : nat)
    (items : list OrderItem) : list OrderItem :=
  match items with
  | [] => []
  | item :: rest => with_ids item (uuid i) orderID :: numbered uuid orderID (S i) rest
  end.

Lemma insert_items_inr (uuid : nat -> string) (orderID : string) (items : list OrderItem) :
  forall (i : nat) (tx tx' : DB) (items1 : list OrderItem),
    insert_items uuid orderID i items tx = inr (items1, tx') ->
    items1 = numbered uuid orderID i items /\
    order_status tx' = order_status tx /\
    orders tx' = orders tx /\
    order_items tx' = order_items tx ++ items1 /\
    outbox tx' = outbox tx.
Proof.
  induction items as [|item rest IH]; intros i tx tx' items1; cbn.
  - intros [= <- <-]. rewrite app_nil_r. auto.
  - unfold insert_order_item at 1. destruct (decide _); [discriminate|].
    destruct (insert_items uuid orderID (S i) rest _) as [e|[rest1 tx2]] eqn:H; [discriminate|].
    intros [= <- <-].
    apply IH in H as (-> & H1 & H2 & H3 & H4). cbn in *.
    rewrite H3, <- app_assoc. auto.
Qed.

(** A [CreateWithOutbox] that returns [nil] has appended the order row,
    the item rows and the event row; one that returns an error has changed
    nothing. *)
Lemma CreateWithOutbox_inr (uuid : nat -> string) (order order' : Order)
    (event event' : OutboxEvent) (db db' : DB) :
  CreateWithOutbox uuid order event db = (inr (order', event'), db') ->
  order' = with_Items (with_ID order (uuid 0%nat))
             (numbered uuid (uuid 0%nat) 1 (Items order)) /\
  order_status db' = order_status db /\
  orders db' = orders db ++ [order_row order'] /\
  order_items db' = order_items db ++ Items order' /\
  outbox db' =
    outbox db ++
    [ {| EventID := uuid (S (length (Items order))); AggregateType := AggregateType event;
         AggregateID := uuid 0%nat; EventType := EventType event;
         Payload := Payload event; Published := false; PublishedAt := None |} ].
Proof.
  unfold CreateWithOutbox, insert_order.
  destruct (decide _) as [_|_]; [| discriminate].
  destruct (decide _) as [_|_]; [discriminate|].
  destruct (insert_items _ _ _ _ _) as [e1|[items1 tx2]] eqn:Hitems; [discriminate|].
  destruct (insert_outbox _ tx2) as [e1|tx3] eqn:Hout; [discriminate|].
  intros [= <- <- <-].
  apply insert_items_inr in Hitems as (-> & H1 & H2 & H3 & H4).
  apply insert_outbox_inr in Hout as (_ & H5 & H6 & H7 & H8).
  cbn in *. rewrite H5, H6, H7, H8, H1, H2, H3, H4.
  destruct order; cbn. auto.
Qed.

Lemma CreateWithOutbox_inl (uuid : nat -> string) (order : Order)
    (event : OutboxEvent) (db db' : DB) (e : error) :
  CreateWithOutbox uuid order event db = (inl e, db') -> db' = db.
Proof.
  unfold CreateWithOutbox.
  destruct (insert_order _ db) as [e1|tx1]; [intros [= _ <-]; reflexivity|].
  destruct (insert_items _ _ _ _ _) as [e1|[items1 tx2]]; [intros [= _ <-]; reflexivity|].
  destruct (insert_outbox _ tx2); [intros [= _ <-]; reflexivity | discriminate].
Qed.

(** *** Reading back what was created *)










End repository.

(** *** internal/service *)

Module service.

Record Money : Type := mkMoney {
  Currency : string;
  Amount : Z                 (* int64 *)
}.

Record OrderItemRequest : Type := mkOrderItemRequest {
  ProductID : string;
  ProductName : string;
  Quantity : Z;              (* int32 *)
  UnitPrice : Money
}.

Record CreateOrderRequest : Type := mkCreateOrderRequest {
  UserID : string;
  Items : list OrderItemRequest;
  ShippingStreet : string;
  ShippingCity : string;
  ShippingState : string;
  ShippingPostalCode : string;
  ShippingCountry : string
}.

(** What the service holds: the database behind its repository and the
    Redis server behind its idempotency store. *)
Record OrderService : Type := mkOrderService {
  repo : repository.DB;
  idempotency : idempotency.Redis repository.Order
}.

(** The first loop of [CreateOrder]: the total and the currency. *)
Definition calculate_total (items : list OrderItemRequest) : Z * string :=
  fold_left
    (fun '(totalAmount, currency) item =>
       (int64_add totalAmount (int64_mul (Amount (UnitPrice item)) (Quantity item)),
        if decide (Currency (UnitPrice item) = "") then currency
        else Currency (UnitPrice item)))
    items (0, "USD").

(** The second loop: the order items. *)
Definition order_item (item : OrderItemRequest) : repository.OrderItem :=
  {| repository.ItemID := "";
     repository.OrderID := "";
     repository.ProductID := ProductID item;
     repository.ProductName := ProductName item;
     repository.Quantity := Quantity item;
     repository.UnitPriceCurrency := Currency (UnitPrice item);
     repository.UnitPriceAmount := Amount (UnitPrice item);
     repository.TotalPriceCurrency := Currency (UnitPrice item);
     repository.TotalPriceAmount := int64_mul (Amount (UnitPrice item)) (Quantity item) |}.

Definition json_of_item (item : OrderItemRequest) : json :=
  JObject [("ProductID", JString (ProductID item));
           ("ProductName", JString (ProductName item));
           ("Quantity", JNumber (Quantity item));
           ("UnitPrice", JObject [("Currency", JString (Currency (UnitPrice item)));
                                  ("Amount", JNumber (Amount (UnitPrice item)))])].

Definition CreateOrder (uuid : nat -> string) (idempotencyKey : string)
    (req : CreateOrderRequest) (s : OrderService) :
    (error + (repository.Order * bool)) * OrderService :=
  let key := idempotency.GenerateKey (UserID req) "create_order" idempotencyKey in
  match idempotency.Get key (idempotency s) with
  | Some cached =>
      match json_Unmarshal "repository.Order" (idempotency.Body cached) with
      | inl e => (inl (Errorf_w "failed to unmarshal cached order" e), s)
      | inr order => (inr (order, true), s)
      end
  | None =>
      let '(totalAmount, currency) := calculate_total (Items req) in
      let order :=
        {| repository.ID := "";
           repository.UserID := UserID req;
           repository.TotalCurrency := currency;
           repository.TotalAmount := totalAmount;
           repository.Status := repository.StatusPending;
           repository.PaymentID := "";
           repository.ShippingStreet := ShippingStreet req;
           repository.ShippingCity := ShippingCity req;
           repository.ShippingState := ShippingState req;
           repository.ShippingPostalCode := ShippingPostalCode req;
           repository.ShippingCountry := ShippingCountry req;
           repository.Items := map order_item (Items req) |} in
      let event :=
        {| repository.EventID := "";
           repository.AggregateType := "order";
           repository.AggregateID := "";
           repository.EventType := "order.created";
           repository.Payload :=
             [("order_id", JString (repository.ID order));
              ("user_id", JString (repository.UserID order));
              ("total", JNumber totalAmount);
              ("currency", JString currency);
              ("status", JString (repository.Status order));
              ("items", JArray (map json_of_item (Items req)))];
           repository.Published := false;
           repository.PublishedAt := None |} in
      match repository.CreateWithOutbox uuid order event (repo s) with
      | (inl e, db) =>
          (inl (Errorf_w "failed to create order" e),
           {| repo := db; idempotency := idempotency s |})
      | (inr (order1, _), db) =>
          (inr (order1, false),
           {| repo := db;
              idempotency := idempotency.Set_ key 200 (Bytes order1) (idempotency s) |})
      end
  end.

Definition GetOrder (orderID : string) (s : OrderService) : error + repository.Order :=
  match repository.GetByID orderID (repo s) with
  | None => inl (errors_New "order not found")
  | Some order => inr order
  end.

Definition UpdateOrderStatus (uuid : nat -> string) (orderID : string)
    (status : repository.OrderStatus) (s : OrderService) : option error * OrderService :=
  let event :=
    {| repository.EventID := "";
       repository.AggregateType := "order";
       repository.AggregateID := "";
       repository.EventType := "order." +:+ status;
       repository.Payload := [("order_id", JString orderID); ("status", JString status)];
       repository.Published := false;
       repository.PublishedAt := None |} in
  match repository.UpdateStatus uuid orderID status (Some event) (repo s) with
  | (Some e, db) =>
      (Some (Errorf_w "failed to update order status" e),
       {| repo := db; idempotency := idempotency s |})
  | (None, db) => (None, {| repo := db; idempotency := idempotency s |})
  end.

Definition CancelOrder (uuid : nat -> string) (orderID reason : string)
    (s : OrderService) : option error * OrderService :=
  match repository.GetByID orderID (repo s) with
  | None => (Some (errors_New "order not found"), s)
  | Some order =>
      if decide (repository.Status order = repository.StatusDelivered
                 \/ repository.Status order = repository.StatusCancelled)
      then
        (Some (errors_New ("order cannot be canceled in status: "
                           +:+ repository.Status order)), s)
      else
        let event :=
          {| repository.EventID := "";
             repository.AggregateType := "order";
             repository.AggregateID := "";
             repository.EventType := "order.canceled";
             repository.Payload := [("order_id", JString orderID);
                                    ("reason", JString reason)];
             repository.Published := false;
             repository.PublishedAt := None |} in
        match repository.UpdateStatus uuid orderID repository.StatusCancelled
                (Some event) (repo s) with
        | (Some e, db) =>
            (Some (Errorf_w "failed to cancel order" e),
             {| repo := db; idempotency := idempotency s |})
        | (None, db) => (None, {| repo := db; idempotency := idempotency s |})
        end
  end.

(** *** Status changes *)

Lemma OrderService_eta (s : OrderService) :
  {| repo := repo s; idempotency := idempotency s |} = s.
Proof. destruct s; reflexivity. Qed.

(** C5 (as amended). [UpdateOrderStatus] does not look at the current
    status of the order.  Whatever that status is, when the order exists,
    the requested status is a label of the enum of [orders.status] and the
    id drawn for the event is not taken, the call returns [nil], the order
    has the requested status and one outbox row of type
    ["order." ++ status] has been appended.  A call that returns an error
    has changed nothing; the call returns one when the order does not
    exist or the requested status is not a label of the enum. *)
Theorem UpdateOrderStatus_any_transition (uuid : nat -> string) (orderID : string)
    (status : repository.OrderStatus) (s : OrderService) :
  (forall order,
     repository.GetByID orderID (repo s) = Some order ->
     status ∈ repository.order_status (repo s) ->
     uuid 0%nat ∉ map repository.EventID (repository.outbox (repo s)) ->
     exists s',
       UpdateOrderStatus uuid orderID status s = (None, s') /\
       repository.GetByID orderID (repo s') = Some (repository.with_Status order status) /\
       (forall id, id <> orderID ->
          repository.GetByID id (repo s') = repository.GetByID id (repo s)) /\
       repository.outbox (repo s') =
         repository.outbox (repo s) ++
         [ {| repository.EventID := uuid 0%nat;
              repository.AggregateType := "order";
              repository.AggregateID := orderID;
              repository.EventType := "order." +:+ status;
              repository.Payload := [("order_id", JString orderID);
                                     ("status", JString status)];
              repository.Published := false;
              repository.PublishedAt := None |} ]) /\
  (forall e s', UpdateOrderStatus uuid orderID status s = (Some e, s') -> s' = s) /\
  (repository.GetByID orderID (repo s) = None
   \/ status ∉ repository.order_status (repo s) ->
   exists e, UpdateOrderStatus uuid orderID status s = (Some e, s)).
Proof.
  unfold UpdateOrderStatus. split; [| split].
  - intros order Hget Hlabel Hfresh.
    match goal with |- context [repository.UpdateStatus _ _ _ (Some ?ev) _] =>
      destruct (repository.UpdateStatus_applies uuid orderID status ev (repo s) order
                  Hget Hlabel Hfresh) as (db' & -> & Hg & Hothers & Hout) end.
    eexists. split; [reflexivity|]. cbn. auto.
  - intros e s'.
    destruct (repository.UpdateStatus _ _ _ _ _) as [[e1|] db] eqn:H; [| discriminate].
    apply repository.UpdateStatus_error in H as ->.
    intros [= _ <-]. apply OrderService_eta.
  - intros H.
    match goal with |- context [repository.UpdateStatus _ _ _ ?ev _] =>
      destruct (repository.UpdateStatus_refused uuid orderID status ev (repo s) H)
        as [e ->] end.
    rewrite OrderService_eta. eauto.
Qed.

Definition sample_order (id : string) (status : repository.OrderStatus) : repository.Order :=
  {| repository.ID := id; repository.UserID := u1;
     repository.TotalCurrency := "USD"; repository.TotalAmount := 1000;
     repository.Status := status; repository.PaymentID := "";
     repository.ShippingStreet := "1 Main St"; repository.ShippingCity := "Springfield";
     repository.ShippingState := "IL"; repository.ShippingPostalCode := "62701";
     repository.ShippingCountry := "US"; repository.Items := [] |}.

(** A service whose database was created by the migration and holds the
    given orders. *)
Definition migrated (os : list repository.Order) : OrderService :=
  {| repo := {| repository.order_status := repository.migration_order_status;
                repository.orders := os;
                repository.order_items := [];
                repository.outbox := [] |};
     idempotency := {| idempotency.clock := 0; idempotency.keyspace := ∅ |} |}.

(** C5 as stated fails: [delivered] is terminal in the status graph, yet
    on the database of the migration a delivered order is set back to
    [pending] and the call returns [nil]. *)
Lemma UpdateOrderStatus_counterexample :
  let s := migrated [sample_order o1 repository.StatusDelivered] in
  let '(err, s') := UpdateOrderStatus (uuid_text "e000") o1 repository.StatusPending s in
  repository.Status <$> repository.GetByID o1 (repo s) = Some repository.StatusDelivered /\
  err = None /\
  repository.Status <$> repository.GetByID o1 (repo s') = Some repository.StatusPending /\
  map repository.EventType (repository.outbox (repo s')) = ["order.pending"].
Proof. vm_compute. repeat split. Qed.

(** C9. [CancelOrder] on a database created by the migration, whose
    enum spells the label [cancelled].  An order that is [delivered] is
    refused by the check of the service and left as it is, as the claim
    says (so is one whose status is the [canceled] of the service, which
    no row of such a database has).  Every other order passes the check,
    and the update then writes [canceled], which is not a label of the
    enum: the column refuses it, [CancelOrder] returns
    [failed to cancel order: failed to update order status: ...], the
    order keeps its status and no event is recorded.  So a refunded order
    is refused, as the claim says, and so is a pending one, which the
    claim says is cancelled. *)
Theorem CancelOrder_refused_by_the_enum (uuid : nat -> string) (orderID reason : string)
    (s : OrderService) (order : repository.Order) :
  repository.order_status (repo s) = repository.migration_order_status ->
  repository.GetByID orderID (repo s) = Some order ->
  (repository.Status order = repository.StatusDelivered
   \/ repository.Status order = repository.StatusCancelled ->
   CancelOrder uuid orderID reason s =
     (Some (errors_New ("order cannot be canceled in status: "
                        +:+ repository.Status order)), s)) /\
  (~ (repository.Status order = repository.StatusDelivered
      \/ repository.Status order = repository.StatusCancelled) ->
   CancelOrder uuid orderID reason s =
     (Some (Errorf_w "failed to cancel order"
              (Errorf_w "failed to update order status"
                 (repository.pq_invalid_enum repository.StatusCancelled))), s)).
Proof.
  intros Hlabels Hget. unfold CancelOrder. rewrite Hget. split.
  - intros Hterm. destruct (decide _); [reflexivity | contradiction].
  - intros Hopen. destruct (decide _); [contradiction|].
    unfold repository.UpdateStatus, repository.update_order_status.
    rewrite decide_False.
    + rewrite OrderService_eta. reflexivity.
    + rewrite Hlabels. vm_compute. intros H.
      repeat (apply elem_of_cons in H as [H|H]; [discriminate|]).
      apply elem_of_nil in H. exact H.
Qed.

(** The call the claim is about: a pending order on the database of the
    migration is not cancelled. *)
Lemma CancelOrder_refused_by_the_enum_witness :
  let s := migrated [sample_order o1 repository.StatusPending] in
  CancelOrder (uuid_text "e000") o1 "changed my mind" s =
    (Some (Errorf_w "failed to cancel order"
             (Errorf_w "failed to update order status"
                (repository.pq_invalid_enum repository.StatusCancelled))), s) /\
  repository.Status <$> repository.GetByID o1 (repo s) = Some repository.StatusPending /\
  repository.outbox (repo s) = [].
Proof.
  split; [| split; reflexivity].
  apply (CancelOrder_refused_by_the_enum (uuid_text "e000") o1 "changed my mind"
           (migrated [sample_order o1 repository.StatusPending])
           (sample_order o1 repository.StatusPending)).
  - reflexivity.
  - reflexivity.
  - intros [H|H]; discriminate H.
Defined.

(** X12. The enum of the migration spells the label [cancelled]; the constant
    [StatusCancelled] is not one of its labels, so on a database created by
    the migration every call of [CancelOrder] returns an error and changes
    nothing. *)
Remark CancelOrder_on_migration_enum (uuid : nat -> string) (orderID reason : string)
    (s : OrderService) :
  repository.order_status (repo s) = repository.migration_order_status ->
  exists e, CancelOrder uuid orderID reason s = (Some e, s).
Proof.
  intros Hlabels. unfold CancelOrder.
  destruct (repository.GetByID orderID (repo s)) as [order|]; [| eauto].
  destruct (decide _); [eauto|].
  match goal with |- context [repository.UpdateStatus _ _ _ ?ev _] =>
    destruct (repository.UpdateStatus_refused uuid orderID repository.StatusCancelled
                ev (repo s)) as [e ->] end.
  - right. rewrite Hlabels. vm_compute. intros H.
    repeat (apply elem_of_cons in H as [H|H]; [discriminate|]).
    apply elem_of_nil in H. exact H.
  - rewrite OrderService_eta. eauto.
Qed.

Lemma CancelOrder_on_migration_enum_witness :
  let s := migrated [sample_order o1 repository.StatusPending] in
  exists e, CancelOrder (uuid_text "e000") o1 "changed my mind" s = (Some e, s).
Proof.
  apply (CancelOrder_on_migration_enum (uuid_text "e000") o1 "changed my mind"
           (migrated [sample_order o1 repository.StatusPending])).
  reflexivity.
Defined.

(** *** Totals *)

(** The exact price of a line and the exact sum of the lines. *)
Definition line_total (item : OrderItemRequest) : Z :=
  Amount (UnitPrice item) * Quantity item.

Definition sum_of_lines (items : list OrderItemRequest) : Z :=
  foldr (fun item acc => line_total item + acc) 0 items.

(** The currencies the items name, those left empty apart. *)
Definition named_currencies (items : list OrderItemRequest) : list string :=
  filter (fun c => c <> "") (map (fun item => Currency (UnitPrice item)) items).

Lemma default_last_cons (c x : string) (l : list string) :
  default c (last (x :: l)) = default x (last l).
Proof.
  revert c x. induction l as [|y l IH]; intros c x; [reflexivity|].
  change (last (x :: y :: l)) with (last (y :: l)).
  rewrite (IH c y), (IH x y). reflexivity.
Qed.

Lemma calculate_total_from (items : list OrderItemRequest) :
  forall (t : Z) (c : string),
    fold_left
      (fun '(totalAmount, currency) item =>
         (int64_add totalAmount (int64_mul (Amount (UnitPrice item)) (Quantity item)),
          if decide (Currency (UnitPrice item) = "") then currency
          else Currency (UnitPrice item)))
      items (wrap64 t, c)
    = (wrap64 (t + sum_of_lines items), default c (last (named_currencies items))).
Proof.
  induction items as [|item rest IH]; intros t c; cbn [fold_left].
  - cbn. rewrite Z.add_0_r. reflexivity.
  - rewrite int64_add_mul_wrap, IH. f_equal.
    + f_equal. change (sum_of_lines (item :: rest))
        with (line_total item + sum_of_lines rest).
      unfold line_total. ring.
    + unfold named_currencies. cbn [map]. rewrite filter_cons.
      destruct (decide (Currency (UnitPrice item) = "")) as [He|Hne].
      * destruct (decide (Currency (UnitPrice item) <> "")); [contradiction | reflexivity].
      * destruct (decide (Currency (UnitPrice item) <> "")); [| contradiction].
        symmetry. apply default_last_cons.
Qed.

Lemma calculate_total_spec (items : list OrderItemRequest) :
  calculate_total items =
    (wrap64 (sum_of_lines items), default "USD" (last (named_currencies items))).
Proof.
  unfold calculate_total. change 0 with (wrap64 0) at 1.
  rewrite calculate_total_from. reflexivity.
Qed.

Lemma last_all_same (c : string) (cs : list string) :
  cs <> [] -> Forall (fun x => x = c) cs -> last cs = Some c.
Proof.
  induction cs as [|x [|y rest] IH]; intros Hne Hall; [congruence | |].
  - apply Forall_cons in Hall as [-> _]. reflexivity.
  - apply Forall_cons in Hall as [_ Hall]. cbn [last]. apply IH; [discriminate | exact Hall].
Qed.

Lemma numbered_order_items (uuid : nat -> string) (orderID : string)
    (items : list OrderItemRequest) :
  forall i : nat,
    Forall2
      (fun stored item =>
         repository.OrderID stored = orderID /\
         repository.ProductID stored = ProductID item /\
         repository.ProductName stored = ProductName item /\
         repository.Quantity stored = Quantity item /\
         repository.UnitPriceAmount stored = Amount (UnitPrice item) /\
         repository.UnitPriceCurrency stored = Currency (UnitPrice item) /\
         repository.TotalPriceCurrency stored = Currency (UnitPrice item) /\
         repository.TotalPriceAmount stored = wrap64 (line_total item) /\
         (is_int64 (line_total item) -> repository.TotalPriceAmount stored = line_total item))
      (repository.numbered uuid orderID i (map order_item items)) items.
Proof.
  induction items as [|item rest IH]; intros i; cbn; constructor.
  - repeat split; try reflexivity.
    intros Hfit. apply wrap64_small, Hfit.
  - apply IH.
Qed.

(** C8 (as amended). An order that the service layer's [CreateOrder] has
    persisted is stored as one order row and one item row per line of the
    request. Its total amount is the sum over the lines of unit price
    times quantity computed in 64-bit two's-complement arithmetic, which
    is the exact sum whenever that fits in an [int64]; the total price of
    each item is its unit price times its quantity computed the same way.
    Its currency is the unit-price currency of the last line that names
    one, and USD when no line does: when all lines name the same currency
    it is that currency. *)
Theorem CreateOrder_totals (uuid : nat -> string) (idempotencyKey : string)
    (req : CreateOrderRequest) (s s' : OrderService) (order : repository.Order) :
  CreateOrder uuid idempotencyKey req s = (inr (order, false), s') ->
  repository.orders (repo s') =
    repository.orders (repo s) ++ [repository.with_Items order []] /\
  repository.order_items (repo s') =
    repository.order_items (repo s) ++ repository.Items order /\
  repository.TotalAmount order = wrap64 (sum_of_lines (Items req)) /\
  (is_int64 (sum_of_lines (Items req)) ->
   repository.TotalAmount order = sum_of_lines (Items req)) /\
  Forall2
    (fun stored item =>
       repository.OrderID stored = repository.ID order /\
       repository.ProductID stored = ProductID item /\
       repository.ProductName stored = ProductName item /\
       repository.Quantity stored = Quantity item /\
       repository.UnitPriceAmount stored = Amount (UnitPrice item) /\
       repository.UnitPriceCurrency stored = Currency (UnitPrice item) /\
       repository.TotalPriceCurrency stored = Currency (UnitPrice item) /\
       repository.TotalPriceAmount stored = wrap64 (line_total item) /\
       (is_int64 (line_total item) -> repository.TotalPriceAmount stored = line_total item))
    (repository.Items order) (Items req) /\
  repository.TotalCurrency order = default "USD" (last (named_currencies (Items req))) /\
  (forall c, c <> "" -> Items req <> [] ->
     Forall (fun item => Currency (UnitPrice item) = c) (Items req) ->
     repository.TotalCurrency order = c).
Proof.
  unfold CreateOrder.
  destruct (idempotency.Get _ _) as [cached|].
  { destruct (json_Unmarshal _ _); discriminate. }
  rewrite calculate_total_spec.
  destruct (repository.CreateWithOutbox _ _ _ _) as [[e|[order1 event1]] db] eqn:H;
    [discriminate|].
  intros [= <- <-].
  apply repository.CreateWithOutbox_inr in H as (Horder & _ & Hrows & Hitems & _).
  cbn [repo]. split; [rewrite Hrows, Horder; reflexivity|]. split; [exact Hitems|].
  subst order1. cbn.
  split; [reflexivity|].
  split; [intros Hfit; apply wrap64_small, Hfit|].
  split; [apply numbered_order_items|].
  split; [reflexivity|].
  intros c Hc Hne Hall.
  rewrite (last_all_same c).
  - reflexivity.
  - unfold named_currencies. destruct (Items req) as [|item rest]; [congruence|].
    apply Forall_cons in Hall as [Hitem _]. cbn [map]. rewrite filter_cons.
    destruct (decide _) as [_|Hn]; [discriminate|].
    exfalso. apply Hn. rewrite Hitem. exact Hc.
  - unfold named_currencies. apply Forall_forall. intros x Hx.
    apply list_elem_of_filter in Hx as [_ Hx].
    apply list_elem_of_fmap in Hx as (item & -> & Hin).
    rewrite Forall_forall in Hall. apply Hall, Hin.
Qed.

Definition line (product name : string) (quantity : Z) (currency : string) (amount : Z) :
    OrderItemRequest :=
  {| ProductID := product; ProductName := name; Quantity := quantity;
     UnitPrice := {| Currency := currency; Amount := amount |} |}.

Definition request (items : list OrderItemRequest) : CreateOrderRequest :=
  {| UserID := u1; Items := items;
     ShippingStreet := "1 Main St"; ShippingCity := "Springfield";
     ShippingState := "IL"; ShippingPostalCode := "62701"; ShippingCountry := "US" |}.

(** The happy path: two units at 5.00 USD make a pending order of 10.00
    USD and one [order.created] event. *)
Definition happy_path : (error + (repository.Order * bool)) * OrderService :=
  Eval vm_compute in
    CreateOrder (uuid_text "f000") "k1" (request [line p1 "Widget" 2 "USD" 500]) (migrated []).

Lemma CreateOrder_totals_witness :
  let req := request [line p1 "Widget" 2 "USD" 500] in
  let s := migrated [] in
  exists order s',
    CreateOrder (uuid_text "f000") "k1" req s = (inr (order, false), s') /\
    repository.TotalAmount order = 1000 /\
    repository.TotalCurrency order = "USD" /\
    repository.Status order = repository.StatusPending /\
    map repository.EventType (repository.outbox (repo s')) = ["order.created"].
Proof.
  intros req s.
  destruct happy_path as [[e|[order fromCache]] s'] eqn:Hrun; [discriminate|].
  destruct fromCache; [discriminate|].
  exists order, s'.
  assert (Hcall : CreateOrder (uuid_text "f000") "k1" req s = (inr (order, false), s')).
  { rewrite <- Hrun. vm_compute. reflexivity. }
  pose proof (CreateOrder_totals (uuid_text "f000") "k1" req s s' order Hcall)
    as (_ & _ & Htotal & _ & _ & Hcur & _).
  split; [exact Hcall|]. split; [exact Htotal|]. split; [exact Hcur|].
  injection Hrun as <- <-. split; reflexivity.
Defined.

(** C8 as stated fails on amounts that overflow and on lines whose
    currencies differ: for one line of four units at 2^62 EUR and one of
    one unit at 1 USD the stored total is 1 USD, the sum of the lines is
    2^64 + 1, and the first item is stored with a total price of 0 EUR. *)
Lemma CreateOrder_totals_counterexample :
  let items := [line p1 "Widget" 4 "EUR" (2 ^ 62); line p2 "Gadget" 1 "USD" 1] in
  exists order s',
    CreateOrder (uuid_text "f000") "k1" (request items) (migrated []) = (inr (order, false), s') /\
    sum_of_lines items = 2 ^ 64 + 1 /\
    repository.TotalAmount order = 1 /\
    repository.TotalCurrency order = "USD" /\
    map repository.UnitPriceCurrency (repository.Items order) = ["EUR"; "USD"] /\
    map repository.TotalPriceAmount (repository.Items order) = [0; 1] /\
    map repository.TotalAmount (repository.orders (repo s')) = [1].
Proof.
  intros items.
  destruct (CreateOrder (uuid_text "f000") "k1" (request items) (migrated []))
    as [[e|[order fromCache]] s'] eqn:Hrun; vm_compute in Hrun; [discriminate|].
  injection Hrun as <- <- <-.
  eexists _, _. split; [reflexivity|]. vm_compute. repeat split.
Qed.

(** A call of [CreateOrder] that does not return a fresh order (an error,
    or an order from the idempotency store) has changed nothing. *)
Lemma CreateOrder_not_persisted (uuid : nat -> string) (idempotencyKey : string)
    (req : CreateOrderRequest) (s s' : OrderService)
    (r : error + (repository.Order * bool)) :
  CreateOrder uuid idempotencyKey req s = (r, s') ->
  (forall order, r <> inr (order, false)) ->
  s' = s.
Proof.
  unfold CreateOrder.
  destruct (idempotency.Get _ _) as [cached|].
  { destruct (json_Unmarshal _ _); intros [= <- <-]; reflexivity. }
  destruct (calculate_total (Items req)) as [totalAmount currency].
  destruct (repository.CreateWithOutbox _ _ _ _) as [[e|[order1 event1]] db] eqn:H.
  - apply repository.CreateWithOutbox_inl in H as ->.
    intros [= <- <-] _. apply OrderService_eta.
  - intros [= <- <-] Hr. exfalso. eapply Hr. reflexivity.
Qed.

(** *** Replays *)

(** X11. A replayed [CreateOrder] is answered with an error.  A call
    that has created an order has stored its result under the key made of
    the user id and the idempotency key, for 24 hours.  On every later
    state in which that entry is still the one stored, whatever happened
    to the database and to the other keys: while the 24 hours have not
    passed on the clock of the store, a call with the same user id and
    idempotency key, whatever else it asks for, finds the entry and fails
    to decode it, because the result was stored as the JSON encoding of a
    byte slice, which is a string and not an object; the call returns
    [failed to unmarshal cached order], never the cached order, and
    changes nothing.  Once the 24 hours have passed the store no longer
    answers for the key, and the call is handled as a first call. *)
Theorem CreateOrder_replay (uuid uuid' : nat -> string) (idempotencyKey : string)
    (req req' : CreateOrderRequest) (s s' later : OrderService) (order : repository.Order) :
  CreateOrder uuid idempotencyKey req s = (inr (order, false), s') ->
  UserID req' = UserID req ->
  let key := idempotency.GenerateKey (UserID req) "create_order" idempotencyKey in
  idempotency.keyspace (idempotency later) !! key =
    idempotency.keyspace (idempotency s') !! key ->
  (idempotency.clock (idempotency later) <
     idempotency.clock (idempotency s') + idempotency.DefaultTTL ->
   CreateOrder uuid' idempotencyKey req' later =
     (inl (Errorf_w "failed to unmarshal cached order"
             (errors_New
                "json: cannot unmarshal string into Go value of type repository.Order")),
      later)) /\
  (idempotency.clock (idempotency s') + idempotency.DefaultTTL <=
     idempotency.clock (idempotency later) ->
   idempotency.Get key (idempotency later) = None).
Proof.
  intros Hfirst Huser key Hsame. unfold CreateOrder in Hfirst. fold key in Hfirst.
  destruct (idempotency.Get key (idempotency s)) as [cached|].
  { destruct (json_Unmarshal _ _); discriminate. }
  destruct (calculate_total (Items req)) as [totalAmount currency].
  destruct (repository.CreateWithOutbox _ _ _ _) as [[e|[order1 event1]] db];
    [discriminate|].
  injection Hfirst as <- <-.
  cbn [idempotency idempotency.Set_ idempotency.keyspace idempotency.clock] in Hsame |- *.
  rewrite lookup_insert_eq in Hsame.
  split.
  - intros Hlive. unfold CreateOrder. rewrite Huser. fold key.
    unfold idempotency.Get. rewrite Hsame.
    destruct (Z.ltb_spec (idempotency.clock (idempotency later))
                (idempotency.clock (idempotency s) + idempotency.DefaultTTL)); [| lia].
    reflexivity.
  - intros Hexpired. unfold idempotency.Get. rewrite Hsame.
    destruct (Z.ltb_spec (idempotency.clock (idempotency later))
                (idempotency.clock (idempotency s) + idempotency.DefaultTTL)); [lia|].
    reflexivity.
Qed.

(** The state of the happy path after some time: the clock of the store
    has moved, nothing else has. *)
Definition after_a_while (elapsed : Z) (s : OrderService) : OrderService :=
  {| repo := repo s;
     idempotency :=
       {| idempotency.clock := idempotency.clock (idempotency s) + elapsed;
          idempotency.keyspace := idempotency.keyspace (idempotency s) |} |}.

Lemma CreateOrder_replay_witness :
  let again := request [line p2 "Gadget" 1 "USD" 900] in
  let later := after_a_while (3600 * 10 ^ 9) (snd happy_path) in
  let next_day := after_a_while idempotency.DefaultTTL (snd happy_path) in
  CreateOrder (uuid_text "f111") "k1" again later =
    (inl (Errorf_w "failed to unmarshal cached order"
            (errors_New
               "json: cannot unmarshal string into Go value of type repository.Order")),
     later) /\
  idempotency.Get (idempotency.GenerateKey u1 "create_order" "k1") (idempotency next_day)
    = None.
Proof.
  assert (Hfirst : exists order,
            CreateOrder (uuid_text "f000") "k1" (request [line p1 "Widget" 2 "USD" 500])
              (migrated []) = (inr (order, false), snd happy_path)).
  { vm_compute. eexists. reflexivity. }
  destruct Hfirst as [order Hfirst].
  split.
  - apply (CreateOrder_replay (uuid_text "f000") (uuid_text "f111") "k1"
             (request [line p1 "Widget" 2 "USD" 500])
             (request [line p2 "Gadget" 1 "USD" 900])
             (migrated []) (snd happy_path)
             (after_a_while (3600 * 10 ^ 9) (snd happy_path)) order Hfirst);
      reflexivity.
  - apply (CreateOrder_replay (uuid_text "f000") (uuid_text "f111") "k1"
             (request [line p1 "Widget" 2 "USD" 500])
             (request [line p2 "Gadget" 1 "USD" 900])
             (migrated []) (snd happy_path)
             (after_a_while idempotency.DefaultTTL (snd happy_path)) order Hfirst);
      [reflexivity | reflexivity | vm_compute; discriminate].
Defined.

(** One hour after the happy path the replay is refused; a day after it,
    the same request creates a second order. *)
Example CreateOrder_within_and_after_a_day :
  let req := request [line p1 "Widget" 2 "USD" 500] in
  let '(r1, s1) :=
    CreateOrder (uuid_text "f111") "k1" req (after_a_while (3600 * 10 ^ 9) (snd happy_path)) in
  let '(r2, s2) :=
    CreateOrder (uuid_text "f111") "k1" req
      (after_a_while idempotency.DefaultTTL (snd happy_path)) in
  (exists e, r1 = inl e) /\
  length (repository.orders (repo s1)) = 1%nat /\
  (exists order, r2 = inr (order, false)) /\
  length (repository.orders (repo s2)) = 2%nat.
Proof. vm_compute. repeat split; eexists; reflexivity. Qed.

End service.

(** *** internal/grpc *)

Module grpc.

Inductive Code : Type := InvalidArgument | NotFound | Internal.

(** [status.Error(code, msg)] *)
Record Status : Type := mkStatus {
  code : Code;
  message : string
}.

Record OrderItemDraft : Type := mkOrderItemDraft {
  ProductId : string;
  Quantity : Z               (* int32 *)
}.

Record Address : Type := mkAddress {
  Street : string;
  City : string;
  State : string;
  PostalCode : string;
  Country : string
}.

(** [ordersv1.CreateOrderRequest]; a message field that was not sent is a
    nil pointer. *)
Record CreateOrderRequest : Type := mkCreateOrderRequest {
  IdempotencyKey : string;
  UserId : string;
  Items : list OrderItemDraft;
  ShippingAddress : option Address
}.

Record CreateOrderResponse : Type := mkCreateOrderResponse {
  Order : repository.Order;
  FromCache : bool
}.

(** The handler [Server.CreateOrder]. *)
Definition CreateOrder_handler (uuid : nat -> string) (req : CreateOrderRequest)
    (s : service.OrderService) :
    handled (Status + CreateOrderResponse) * service.OrderService :=
  if decide (IdempotencyKey req = "") then
    (Returns (inl {| code := InvalidArgument; message := "idempotency_key is required" |}), s)
  else if decide (UserId req = "") then
    (Returns (inl {| code := InvalidArgument; message := "user_id is required" |}), s)
  else if decide (length (Items req) = 0%nat) then
    (Returns (inl {| code := InvalidArgument; message := "items are required" |}), s)
  else
    let items :=
      map (fun item =>
             {| service.ProductID := ProductId item;
                service.ProductName := "";
                service.Quantity := Quantity item;
                service.UnitPrice := {| service.Currency := ""; service.Amount := 0 |} |})
          (Items req) in
    match ShippingAddress req with
    | None => (Panics, s)          (* nil pointer dereference *)
    | Some address =>
        let orderReq :=
          {| service.UserID := UserId req;
             service.Items := items;
             service.ShippingStreet := Street address;
             service.ShippingCity := City address;
             service.ShippingState := State address;
             service.ShippingPostalCode := PostalCode address;
             service.ShippingCountry := Country address |} in
        match service.CreateOrder uuid (IdempotencyKey req) orderReq s with
        | (inl _, s1) =>
            (Returns (inl {| code := Internal; message := "failed to create order" |}), s1)
        | (inr (order, fromCache), s1) =>
            (Returns (inr {| Order := order; FromCache := fromCache |}), s1)
        end
    end.

(** [middleware.RecoveryInterceptor]: a panic becomes an Internal error. *)
Definition RecoveryInterceptor {A : Type} (h : handled (Status + A)) : Status + A :=
  match h with
  | Returns r => r
  | Panics => inl {| code := Internal; message := "internal server error" |}
  end.

(** The RPC as the server answers it. *)
Definition CreateOrder (uuid : nat -> string) (req : CreateOrderRequest)
    (s : service.OrderService) : (Status + CreateOrderResponse) * service.OrderService :=
  let '(h, s1) := CreateOrder_handler uuid req s in (RecoveryInterceptor h, s1).

(** *** The RPC *)

(** The sample request: its items ask for zero and for minus three units
    and every field of its address is empty. *)
Definition unchecked_request : CreateOrderRequest :=
  {| IdempotencyKey := "k1"; UserId := u1;
     Items := [ {| ProductId := p1; Quantity := 0 |};
                {| ProductId := p2; Quantity := -3 |} ];
     ShippingAddress :=
       Some {| Street := ""; City := ""; State := ""; PostalCode := ""; Country := "" |} |}.

(** C7 as stated fails: the request above is not refused; it is persisted
    with its quantities and its empty address, and an [order.created]
    event is recorded. *)
Lemma CreateOrder_validation_counterexample :
  let '(r, s') := CreateOrder (uuid_text "f000") unchecked_request (service.migrated []) in
  (exists resp, r = inr resp /\ FromCache resp = false) /\
  map repository.ShippingStreet (repository.orders (service.repo s')) = [""] /\
  map repository.Quantity (repository.order_items (service.repo s')) = [0; -3] /\
  map repository.EventType (repository.outbox (service.repo s')) = ["order.created"].
Proof. vm_compute. repeat split. eexists. split; reflexivity. Qed.

(** C7 (as amended). The RPC answers [InvalidArgument] exactly when the
    idempotency key is empty, the user id is empty or the list of items is
    empty; quantities, currencies and the fields of the address are not
    examined.  A call that is refused, with that code or any other, has
    neither persisted anything nor recorded an event. *)
Theorem CreateOrder_validation (uuid : nat -> string) (req : CreateOrderRequest)
    (s : service.OrderService) :
  (IdempotencyKey req = "" \/ UserId req = "" \/ Items req = [] ->
   exists msg,
     CreateOrder uuid req s = (inl {| code := InvalidArgument; message := msg |}, s)) /\
  (forall st s', CreateOrder uuid req s = (inl st, s') ->
     s' = s /\
     (code st = InvalidArgument ->
      IdempotencyKey req = "" \/ UserId req = "" \/ Items req = [])).
Proof.
  unfold CreateOrder, CreateOrder_handler. split.
  - intros Hbad.
    destruct (decide (IdempotencyKey req = "")); [cbn; eauto|].
    destruct (decide (UserId req = "")); [cbn; eauto|].
    destruct (decide (length (Items req) = 0%nat)) as [|Hlen]; [cbn; eauto|].
    exfalso. destruct Hbad as [?|[?|Hnil]]; try contradiction.
    apply Hlen. rewrite Hnil. reflexivity.
  - intros st s'.
    destruct (decide (IdempotencyKey req = "")); [intros [= <- <-]; auto|].
    destruct (decide (UserId req = "")); [intros [= <- <-]; auto|].
    destruct (decide (length (Items req) = 0%nat)) as [Hlen|Hlen].
    { intros [= <- <-]. split; [reflexivity|]. intros _. right. right.
      destruct (Items req); [reflexivity | discriminate]. }
    destruct (ShippingAddress req) as [address|].
    + destruct (service.CreateOrder _ _ _ _) as [[e|[order fromCache]] s1] eqn:H;
        intros [= <- <-].
      split; [| discriminate].
      eapply service.CreateOrder_not_persisted; [exact H | discriminate].
    + intros [= <- <-]. split; [reflexivity | discriminate].
Qed.

Lemma zero_priced_lines (drafts : list OrderItemDraft) :
  service.sum_of_lines
    (map (fun item =>
            {| service.ProductID := ProductId item;
               service.ProductName := "";
               service.Quantity := Quantity item;
               service.UnitPrice := {| service.Currency := ""; service.Amount := 0 |} |})
         drafts) = 0 /\
  service.named_currencies
    (map (fun item =>
            {| service.ProductID := ProductId item;
               service.ProductName := "";
               service.Quantity := Quantity item;
               service.UnitPrice := {| service.Currency := ""; service.Amount := 0 |} |})
         drafts) = [].
Proof.
  induction drafts as [|d rest [IH1 IH2]]; [split; reflexivity|]. split.
  - cbn [map]. change (service.sum_of_lines (?x :: ?l))
      with (service.line_total x + service.sum_of_lines l).
    rewrite IH1. reflexivity.
  - unfold service.named_currencies in *. cbn [map]. rewrite filter_cons.
    destruct (decide _) as [Hn|_]; [| exact IH2].
    exfalso. apply Hn. reflexivity.
Qed.

(** C10. Whatever the prices of the products are, every order row that a
    call of the RPC adds has a total amount of 0 in USD, and every item
    row it adds has a unit price and a total price of 0, no currency and
    an empty product name: the drafts the handler passes on carry the
    product id and the quantity only.  When the answer is an order that
    does not come from the idempotency store, that order is the row added,
    with one item row per draft. *)
Theorem CreateOrder_zero_prices (uuid : nat -> string) (req : CreateOrderRequest)
    (s s' : service.OrderService) (r : Status + CreateOrderResponse) :
  CreateOrder uuid req s = (r, s') ->
  (forall row, row ∈ repository.orders (service.repo s') ->
     row ∉ repository.orders (service.repo s) ->
     repository.TotalAmount row = 0 /\ repository.TotalCurrency row = "USD") /\
  (forall item, item ∈ repository.order_items (service.repo s') ->
     item ∉ repository.order_items (service.repo s) ->
     repository.UnitPriceAmount item = 0 /\ repository.TotalPriceAmount item = 0 /\
     repository.UnitPriceCurrency item = "" /\ repository.ProductName item = "") /\
  (forall resp, r = inr resp -> FromCache resp = false ->
     repository.orders (service.repo s') =
       repository.orders (service.repo s) ++ [repository.with_Items (Order resp) []] /\
     repository.order_items (service.repo s') =
       repository.order_items (service.repo s) ++ repository.Items (Order resp) /\
     repository.TotalAmount (Order resp) = 0 /\
     repository.TotalCurrency (Order resp) = "USD" /\
     Forall2
       (fun stored draft =>
          repository.ProductID stored = ProductId draft /\
          repository.Quantity stored = Quantity draft /\
          repository.UnitPriceAmount stored = 0 /\
          repository.TotalPriceAmount stored = 0 /\
          repository.ProductName stored = "")
       (repository.Items (Order resp)) (Items req)).
Proof.
  intros Hcall.
  assert (Hcases :
    s' = s \/
    exists order,
      r = inr {| Order := order; FromCache := false |} /\
      repository.orders (service.repo s') =
        repository.orders (service.repo s) ++ [repository.with_Items order []] /\
      repository.order_items (service.repo s') =
        repository.order_items (service.repo s) ++ repository.Items order /\
      repository.TotalAmount order = 0 /\
      repository.TotalCurrency order = "USD" /\
      Forall2
        (fun stored draft =>
           repository.ProductID stored = ProductId draft /\
           repository.Quantity stored = Quantity draft /\
           repository.UnitPriceAmount stored = 0 /\
           repository.TotalPriceAmount stored = 0 /\
           repository.UnitPriceCurrency stored = "" /\
           repository.ProductName stored = "")
        (repository.Items order) (Items req)).
  { revert Hcall. unfold CreateOrder, CreateOrder_handler.
    destruct (decide (IdempotencyKey req = "")); [intros [= <- <-]; auto|].
    destruct (decide (UserId req = "")); [intros [= <- <-]; auto|].
    destruct (decide (length (Items req) = 0%nat)); [intros [= <- <-]; auto|].
    destruct (ShippingAddress req) as [address|]; [| intros [= <- <-]; auto].
    destruct (service.CreateOrder _ _ _ _) as [[e|[order fromCache]] s1] eqn:H;
      intros [= <- <-].
    { left. eapply service.CreateOrder_not_persisted; [exact H | discriminate]. }
    destruct fromCache.
    { left. eapply service.CreateOrder_not_persisted; [exact H | discriminate]. }
    right. exists order. split; [reflexivity|].
    apply service.CreateOrder_totals in H
      as (Hrows & Hitems & Htotal & _ & Hlines & Hcur & _).
    cbn [service.Items] in Htotal, Hlines, Hcur.
    destruct (zero_priced_lines (Items req)) as [Hsum Hnamed].
    rewrite Hsum in Htotal. rewrite Hnamed in Hcur.
    split; [exact Hrows|]. split; [exact Hitems|].
    split; [exact Htotal|]. split; [exact Hcur|].
    apply Forall2_fmap_r in Hlines.
    eapply Forall2_impl; [exact Hlines|].
    intros stored draft (_ & Hp & Hn & Hq & Hu & Hc & _ & Ht & _). cbn in *.
    repeat split; assumption. }
  destruct Hcases as [->|(order & -> & Hrows & Hitems & Htotal & Hcur & Hlines)].
  - split; [intros row H1 H2; contradiction|].
    split; [intros item H1 H2; contradiction|].
    intros resp -> Hfresh.
    exfalso. revert Hcall. unfold CreateOrder, CreateOrder_handler.
    repeat (destruct (decide _); [discriminate|]).
    destruct (ShippingAddress req) as [address|]; [| discriminate].
    destruct (service.CreateOrder _ _ _ _) as [[e|[order fromCache]] s1] eqn:H;
      [discriminate|].
    intros [= <- <-]. cbn in Hfresh. subst fromCache.
    apply service.CreateOrder_totals in H as (Hrows & _).
    apply (f_equal length) in Hrows. rewrite length_app in Hrows. cbn in Hrows. lia.
  - split; [| split].
    + intros row Hin Hout. rewrite Hrows in Hin.
      apply elem_of_app in Hin as [Hin|Hin]; [contradiction|].
      apply list_elem_of_singleton in Hin as ->. cbn. auto.
    + intros item Hin Hout. rewrite Hitems in Hin.
      apply elem_of_app in Hin as [Hin|Hin]; [contradiction|].
      apply list_elem_of_lookup in Hin as [i Hi].
      destruct (Forall2_lookup_l _ _ _ _ _ Hlines Hi) as (draft & _ & H).
      tauto.
    + intros resp [= <-] _. cbn.
      split; [exact Hrows|]. split; [exact Hitems|].
      split; [exact Htotal|]. split; [exact Hcur|].
      eapply Forall2_impl; [exact Hlines|]. cbn. tauto.
Qed.

Lemma CreateOrder_zero_prices_witness :
  let '(r, s') := CreateOrder (uuid_text "f000") unchecked_request (service.migrated []) in
  (forall row, row ∈ repository.orders (service.repo s') ->
     row ∉ repository.orders (service.repo (service.migrated [])) ->
     repository.TotalAmount row = 0 /\ repository.TotalCurrency row = "USD") /\
  map repository.TotalAmount (repository.orders (service.repo s')) = [0].
Proof.
  destruct (CreateOrder (uuid_text "f000") unchecked_request (service.migrated []))
    as [r s'] eqn:Hcall.
  split.
  - apply (CreateOrder_zero_prices (uuid_text "f000") unchecked_request
             (service.migrated []) s' r Hcall).
  - vm_compute in Hcall. injection Hcall as <- <-. reflexivity.
Defined.

(** *** The other RPCs *)

(** The messages of [ordersv1] the handlers build and read.  The enum
    [OrderStatus] is an [int32]; [ORDER_STATUS_other] stands for the
    numbers that are none of the nine names.  Timestamps are left out. *)
Module ordersv1.

Inductive OrderStatus : Type :=
| ORDER_STATUS_UNSPECIFIED
| ORDER_STATUS_PENDING
| ORDER_STATUS_CONFIRMED
| ORDER_STATUS_PAID
| ORDER_STATUS_PROCESSING
| ORDER_STATUS_SHIPPED
| ORDER_STATUS_DELIVERED
| ORDER_STATUS_CANCELED
| ORDER_STATUS_REFUNDED
| ORDER_STATUS_other (number : Z).

Record Money : Type := mkMoney {
  Currency : string;
  Amount : Z
}.

Record OrderItem : Type := mkOrderItem {
  ProductId : string;
  ProductName : string;
  Quantity : Z;
  UnitPrice : Money;
  TotalPrice : Money
}.

Record Order : Type := mkOrder {
  Id : string;
  UserId : string;
  Items : list OrderItem;
  TotalAmount : Money;
  Status : OrderStatus;
  PaymentId : string;
  ShippingAddress : Address
}.

Record GetOrderRequest : Type := mkGetOrderRequest {
  get_OrderId : string
}.

Record CancelOrderRequest : Type := mkCancelOrderRequest {
  cancel_OrderId : string;
  Reason : string
}.

Record UpdateOrderStatusRequest : Type := mkUpdateOrderStatusRequest {
  update_OrderId : string;
  update_Status : OrderStatus
}.

End ordersv1.

Definition toProtoStatus (status : repository.OrderStatus) : ordersv1.OrderStatus :=
  if decide (status = repository.StatusPending) then ordersv1.ORDER_STATUS_PENDING
  else if decide (status = repository.StatusConfirmed) then ordersv1.ORDER_STATUS_CONFIRMED
  else if decide (status = repository.StatusPaid) then ordersv1.ORDER_STATUS_PAID
  else if decide (status = repository.StatusProcessing) then ordersv1.ORDER_STATUS_PROCESSING
  else if decide (status = repository.StatusShipped) then ordersv1.ORDER_STATUS_SHIPPED
  else if decide (status = repository.StatusDelivered) then ordersv1.ORDER_STATUS_DELIVERED
  else if decide (status = repository.StatusCancelled) then ordersv1.ORDER_STATUS_CANCELED
  else if decide (status = repository.StatusRefunded) then ordersv1.ORDER_STATUS_REFUNDED
  else ordersv1.ORDER_STATUS_UNSPECIFIED.

Definition toRepoStatus (status : ordersv1.OrderStatus) : repository.OrderStatus :=
  match status with
  | ordersv1.ORDER_STATUS_PENDING => repository.StatusPending
  | ordersv1.ORDER_STATUS_CONFIRMED => repository.StatusConfirmed
  | ordersv1.ORDER_STATUS_PAID => repository.StatusPaid
  | ordersv1.ORDER_STATUS_PROCESSING => repository.StatusProcessing
  | ordersv1.ORDER_STATUS_SHIPPED => repository.StatusShipped
  | ordersv1.ORDER_STATUS_DELIVERED => repository.StatusDelivered
  | ordersv1.ORDER_STATUS_CANCELED => repository.StatusCancelled
  | ordersv1.ORDER_STATUS_REFUNDED => repository.StatusRefunded
  | _ => repository.StatusPending
  end.

Definition toProtoOrder (order : repository.Order) : ordersv1.Order :=
  {| ordersv1.Id := repository.ID order;
     ordersv1.UserId := repository.UserID order;
     ordersv1.Items :=
       map (fun item =>
              {| ordersv1.ProductId := repository.ProductID item;
                 ordersv1.ProductName := repository.ProductName item;
                 ordersv1.Quantity := repository.Quantity item;
                 ordersv1.UnitPrice :=
                   {| ordersv1.Currency := repository.UnitPriceCurrency item;
                      ordersv1.Amount := repository.UnitPriceAmount item |};
                 ordersv1.TotalPrice :=
                   {| ordersv1.Currency := repository.TotalPriceCurrency item;
                      ordersv1.Amount := repository.TotalPriceAmount item |} |})
           (repository.Items order);
     ordersv1.TotalAmount :=
       {| ordersv1.Currency := repository.TotalCurrency order;
          ordersv1.Amount := repository.TotalAmount order |};
     ordersv1.Status := toProtoStatus (repository.Status order);
     ordersv1.PaymentId := repository.PaymentID order;
     ordersv1.ShippingAddress :=
       {| Street := repository.ShippingStreet order;
          City := repository.ShippingCity order;
          State := repository.ShippingState order;
          PostalCode := repository.ShippingPostalCode order;
          Country := repository.ShippingCountry order |} |}.

(** The handlers; the response messages hold the order and nothing else. *)
Definition GetOrder (req : ordersv1.GetOrderRequest) (s : service.OrderService) :
    Status + ordersv1.Order :=
  if decide (ordersv1.get_OrderId req = "") then
    inl {| code := InvalidArgument; message := "order_id is required" |}
  else
    match service.GetOrder (ordersv1.get_OrderId req) s with
    | inl _ => inl {| code := NotFound; message := "order not found" |}
    | inr order => inr (toProtoOrder order)
    end.

Definition CancelOrder (uuid : nat -> string) (req : ordersv1.CancelOrderRequest)
    (s : service.OrderService) : (Status + ordersv1.Order) * service.OrderService :=
  if decide (ordersv1.cancel_OrderId req = "") then
    (inl {| code := InvalidArgument; message := "order_id is required" |}, s)
  else
    match service.CancelOrder uuid (ordersv1.cancel_OrderId req) (ordersv1.Reason req) s with
    | (Some _, s1) => (inl {| code := Internal; message := "failed to cancel order" |}, s1)
    | (None, s1) =>
        match service.GetOrder (ordersv1.cancel_OrderId req) s1 with
        | inl _ => (inl {| code := Internal; message := "failed to get order" |}, s1)
        | inr order => (inr (toProtoOrder order), s1)
        end
    end.

Definition UpdateOrderStatus (uuid : nat -> string) (req : ordersv1.UpdateOrderStatusRequest)
    (s : service.OrderService) : (Status + ordersv1.Order) * service.OrderService :=
  if decide (ordersv1.update_OrderId req = "") then
    (inl {| code := InvalidArgument; message := "order_id is required" |}, s)
  else
    let repoStatus := toRepoStatus (ordersv1.update_Status req) in
    match service.UpdateOrderStatus uuid (ordersv1.update_OrderId req) repoStatus s with
    | (Some _, s1) =>
        (inl {| code := Internal; message := "failed to update order status" |}, s1)
    | (None, s1) =>
        match service.GetOrder (ordersv1.update_OrderId req) s1 with
        | inl _ => (inl {| code := Internal; message := "failed to get order" |}, s1)
        | inr order => (inr (toProtoOrder order), s1)
        end
    end.

(** The statuses the service has a constant for. *)
Definition known_statuses : list repository.OrderStatus :=
  [repository.StatusPending; repository.StatusConfirmed; repository.StatusPaid;
   repository.StatusProcessing; repository.StatusShipped; repository.StatusDelivered;
   repository.StatusCancelled; repository.StatusRefunded].

(** X13. The two status conversions.  A named status other than
    UNSPECIFIED survives the way to the repository and back; UNSPECIFIED
    and every unnamed number come back as PENDING.  A repository status
    survives the way to the message and back exactly when it is one of the
    eight constants of the service; every other text reads as UNSPECIFIED
    and comes back as [pending].  The label [cancelled] of the migration's
    enum is such a text: it is the only label of the migration that the
    conversion does not recognise. *)
Theorem status_conversions :
  (forall status,
     toProtoStatus (toRepoStatus status) =
       match status with
       | ordersv1.ORDER_STATUS_UNSPECIFIED | ordersv1.ORDER_STATUS_other _ =>
           ordersv1.ORDER_STATUS_PENDING
       | _ => status
       end) /\
  (forall status,
     toRepoStatus (toProtoStatus status) =
       if decide (status ∈ known_statuses) then status else repository.StatusPending) /\
  (forall status,
     toProtoStatus status = ordersv1.ORDER_STATUS_UNSPECIFIED <-> status ∉ known_statuses) /\
  (forall label, label ∈ repository.migration_order_status ->
     toProtoStatus label = ordersv1.ORDER_STATUS_UNSPECIFIED <-> label = "cancelled").
Proof.
  assert (Hknown : forall status,
            status ∈ known_statuses <->
            status = repository.StatusPending \/ status = repository.StatusConfirmed \/
            status = repository.StatusPaid \/ status = repository.StatusProcessing \/
            status = repository.StatusShipped \/ status = repository.StatusDelivered \/
            status = repository.StatusCancelled \/ status = repository.StatusRefunded).
  { intros status. unfold known_statuses.
    rewrite !elem_of_cons, elem_of_nil. tauto. }
  assert (Hunspec : forall status,
            toProtoStatus status = ordersv1.ORDER_STATUS_UNSPECIFIED <->
            status ∉ known_statuses).
  { intros status. rewrite Hknown. unfold toProtoStatus.
    repeat (destruct (decide _) as [->|?]; [split; [discriminate | tauto]|]).
    split; [tauto | reflexivity]. }
  split; [| split; [| split]].
  - intros []; reflexivity.
  - intros status. destruct (decide (status ∈ known_statuses)) as [Hin|Hnot].
    + apply Hknown in Hin.
      repeat (destruct Hin as [->|Hin]; [reflexivity|]). subst. reflexivity.
    + apply Hunspec in Hnot. rewrite Hnot. reflexivity.
  - exact Hunspec.
  - intros label Hin. unfold repository.migration_order_status in Hin.
    rewrite !elem_of_cons, elem_of_nil in Hin.
    repeat (destruct Hin as [->|Hin]; [split; [try discriminate; reflexivity | try discriminate; reflexivity]|]).
    contradiction.
Qed.



(** A shipped order on the database of the migration, sent back to
    pending by a request that names no status. *)
Example UpdateOrderStatus_without_status :
  let s := service.migrated [service.sample_order o1 repository.StatusShipped] in
  let req := {| ordersv1.update_OrderId := o1;
                ordersv1.update_Status := ordersv1.ORDER_STATUS_UNSPECIFIED |} in
  (exists order, GetOrder {| ordersv1.get_OrderId := o1 |} s = inr order /\
                 ordersv1.Status order = ordersv1.ORDER_STATUS_SHIPPED) /\
  (exists order, fst (UpdateOrderStatus (uuid_text "e000") req s) = inr order /\
                 ordersv1.Status order = ordersv1.ORDER_STATUS_PENDING).
Proof. vm_compute. split; eexists; split; reflexivity. Qed.


End grpc.

(** *** internal/outbox *)

Module outbox.

(** What the publisher holds: the database behind its repository and the
    broker behind its Pub/Sub client. *)
Record Publisher : Type := mkPublisher {
  repo : repository.DB;
  publisher : pubsub.Broker
}.

Definition generateMessageID (outboxID : string) : string := sha256_hex outboxID.

(** The message [publishEvent] hands to the broker. *)
Definition message_of (event : repository.OutboxEvent) : pubsub.Message :=
  {| pubsub.Topic := repository.EventType event;
     pubsub.Data := JObject (repository.Payload event);
     pubsub.Attributes :=
       [("event_id", repository.EventID event);
        ("aggregate_type", repository.AggregateType event);
        ("aggregate_id", repository.AggregateID event);
        ("event_type", repository.EventType event);
        ("message_id", generateMessageID (repository.EventID event))] |}.

Definition publishEvent (event : repository.OutboxEvent) (b : pubsub.Broker) :
    option error * pubsub.Broker :=
  let msg := message_of event in
  match pubsub.Publish (pubsub.Topic msg) (pubsub.Data msg) (pubsub.Attributes msg) b with
  | (Some e, b1) => (Some (Errorf_w "failed to publish to pubsub" e), b1)
  | (None, b1) => (None, b1)
  end.

(** The loop of [processEvents] over the batch, in a tick that runs at
    [now]. *)
Fixpoint process (now : Z) (events : list repository.OutboxEvent) (p : Publisher) : Publisher :=
  match events with
  | [] => p
  | event :: rest =>
      match publishEvent event (publisher p) with
      | (Some _, b1) =>                                   (* logged; continue *)
          process now rest {| repo := repo p; publisher := b1 |}
      | (None, b1) =>
          match repository.MarkEventPublished now (repository.EventID event) (repo p) with
          | (Some _, db1) =>                              (* logged; continue *)
              process now rest {| repo := db1; publisher := b1 |}
          | (None, db1) =>
              process now rest {| repo := db1; publisher := b1 |}
          end
      end
  end.

Definition processEvents (now : Z) (p : Publisher) : option error * Publisher :=
  let events := repository.GetUnpublishedEvents 100 (repo p) in
  match events with
  | [] => (None, p)
  | _ => (None, process now events p)
  end.

(** *** One tick of the dispatcher *)

(** The events of a batch that the broker accepts. *)
Definition accepted_of (b : pubsub.Broker) (events : list repository.OutboxEvent) :
    list repository.OutboxEvent :=
  filter (fun e => pubsub.refuses b (message_of e) = false) events.

(** A row after the tick: marked if one of the accepted events has its id. *)
Definition marked (now : Z) (ids : list string) (row : repository.OutboxEvent) :
    repository.OutboxEvent :=
  if decide (repository.EventID row ∈ ids) then repository.mark_published now row else row.

Lemma MarkEventPublished_outbox (now : Z) (eventID : string) (db : repository.DB) :
  let db' := snd (repository.MarkEventPublished now eventID db) in
  repository.order_status db' = repository.order_status db /\
  repository.orders db' = repository.orders db /\
  repository.order_items db' = repository.order_items db /\
  repository.outbox db' = map (marked now [eventID]) (repository.outbox db).
Proof.
  unfold repository.MarkEventPublished.
  destruct (decide _) as [Hnone|Hsome]; cbn.
  - repeat split; try reflexivity.
    induction (repository.outbox db) as [|row rows IH]; [reflexivity|].
    rewrite filter_cons in Hnone.
    destruct (decide (repository.EventID row = eventID)) as [|Hne]; [discriminate|].
    cbn [map]. rewrite <- IH by exact Hnone. f_equal.
    unfold marked. destruct (decide _) as [Hin|]; [| reflexivity].
    apply list_elem_of_singleton in Hin. contradiction.
  - repeat split; try reflexivity.
    apply map_ext. intros row. unfold marked.
    destruct (decide (repository.EventID row = eventID)) as [He|Hne],
             (decide (repository.EventID row ∈ [eventID])) as [Hin|Hnin]; try reflexivity.
    + exfalso. apply Hnin. apply list_elem_of_singleton. exact He.
    + apply list_elem_of_singleton in Hin. contradiction.
Qed.

Lemma marked_marked (now : Z) (id : string) (ids : list string) (row : repository.OutboxEvent) :
  marked now ids (marked now [id] row) = marked now (id :: ids) row.
Proof.
  unfold marked.
  destruct (decide (repository.EventID row ∈ [id])) as [H1|H1].
  - apply list_elem_of_singleton in H1.
    destruct (decide (repository.EventID row ∈ id :: ids)) as [_|H2].
    + cbn. destruct (decide _); reflexivity.
    + exfalso. apply H2. rewrite H1. left.
  - destruct (decide (repository.EventID row ∈ ids)) as [H2|H2],
             (decide (repository.EventID row ∈ id :: ids)) as [H3|H3]; try reflexivity.
    + exfalso. apply H3. right. exact H2.
    + exfalso. apply elem_of_cons in H3 as [H3|H3]; [| contradiction].
      apply H1. apply list_elem_of_singleton. exact H3.
Qed.

(** The loop in closed form: every event of the batch is handed to the
    broker, in order; the broker keeps those it accepts; the rows with the
    id of an accepted event are marked and no other row is touched. *)
Lemma process_spec (now : Z) (events : list repository.OutboxEvent) :
  forall p : Publisher,
    let p' := process now events p in
    pubsub.refuses (publisher p') = pubsub.refuses (publisher p) /\
    pubsub.received (publisher p') =
      pubsub.received (publisher p) ++ map message_of events /\
    pubsub.accepted (publisher p') =
      pubsub.accepted (publisher p) ++ map message_of (accepted_of (publisher p) events) /\
    repository.order_status (repo p') = repository.order_status (repo p) /\
    repository.orders (repo p') = repository.orders (repo p) /\
    repository.order_items (repo p') = repository.order_items (repo p) /\
    repository.outbox (repo p') =
      map (marked now (map repository.EventID (accepted_of (publisher p) events)))
          (repository.outbox (repo p)).
Proof.
  induction events as [|event rest IH]; intros p; cbn [process].
  - cbn. rewrite !app_nil_r. repeat split; try reflexivity.
    symmetry. erewrite map_ext; [apply map_id|].
    intros row. unfold marked. destruct (decide _) as [Hin|]; [| reflexivity].
    apply elem_of_nil in Hin. contradiction.
  - unfold publishEvent, pubsub.Publish. cbn [pubsub.Topic pubsub.Data pubsub.Attributes message_of].
    fold (message_of event).
    unfold accepted_of. rewrite filter_cons. fold (accepted_of (publisher p) rest).
    destruct (pubsub.refuses (publisher p) (message_of event)) eqn:Hr.
    + destruct (decide (true = false)); [discriminate|].
      match goal with |- context [process now rest ?q] =>
        destruct (IH q) as (H1 & H2 & H3 & H4 & H5 & H6 & H7) end.
      cbn in *. rewrite H1, H2, H3, H4, H5, H6, H7, <- !app_assoc.
      repeat split; reflexivity.
    + destruct (decide (false = false)); [| contradiction].
      pose proof (MarkEventPublished_outbox now (repository.EventID event) (repo p))
        as (M1 & M2 & M3 & M4).
      destruct (repository.MarkEventPublished now (repository.EventID event) (repo p))
        as [[e1|] db1]; cbn [snd] in M1, M2, M3, M4;
      match goal with |- context [process now rest ?q] =>
        destruct (IH q) as (H1 & H2 & H3 & H4 & H5 & H6 & H7) end;
      cbn in *; rewrite H1, H2, H3, H4, H5, H6, H7, M1, M2, M3, M4, <- !app_assoc;
      rewrite map_map;
      repeat split; try reflexivity;
      apply map_ext; intros row; apply marked_marked.
Qed.

Lemma same_id_same_row (rows : list repository.OutboxEvent)
    (x y : repository.OutboxEvent) :
  NoDup (map repository.EventID rows) ->
  x ∈ rows -> y ∈ rows -> repository.EventID x = repository.EventID y -> x = y.
Proof.
  induction rows as [|row rest IH]; intros Hnd Hx Hy Hid.
  - apply elem_of_nil in Hx. contradiction.
  - cbn in Hnd. apply NoDup_cons in Hnd as [Hfresh Hnd].
    apply elem_of_cons in Hx as [->|Hx], Hy as [->|Hy]; auto.
    + exfalso. apply Hfresh. rewrite Hid. apply list_elem_of_fmap. eauto.
    + exfalso. apply Hfresh. rewrite <- Hid. apply list_elem_of_fmap. eauto.
Qed.

Lemma batch_rows (limit : nat) (db : repository.DB) (event : repository.OutboxEvent) :
  event ∈ repository.GetUnpublishedEvents limit db ->
  event ∈ repository.outbox db /\ repository.Published event = false.
Proof.
  unfold repository.GetUnpublishedEvents. intros H.
  apply (sublist_subseteq _ _ (sublist_take _ _)) in H.
  apply list_elem_of_filter in H as [Hp Hin]. auto.
Qed.

(** C2. In one tick of the dispatcher, with the ids of the outbox rows
    distinct (the primary key): every event of the batch read is handed to
    the broker, in the order of the batch, whatever happened to the events
    before it; an event whose publication fails is left as it was,
    unpublished, for a later tick; and a row that is published after the
    tick either was published before it or is the row of an event of the
    batch that the broker accepted in this tick. *)
Theorem dispatcher_tick (now : Z) (p : Publisher) :
  NoDup (map repository.EventID (repository.outbox (repo p))) ->
  let batch := repository.GetUnpublishedEvents 100 (repo p) in
  let p' := snd (processEvents now p) in
  pubsub.received (publisher p') =
    pubsub.received (publisher p) ++ map message_of batch /\
  (forall event, event ∈ batch ->
     pubsub.refuses (publisher p) (message_of event) = true ->
     event ∈ repository.outbox (repo p') /\ repository.Published event = false) /\
  (forall row, row ∈ repository.outbox (repo p') ->
     repository.Published row = true ->
     row ∈ repository.outbox (repo p) \/
     exists event,
       event ∈ batch /\
       repository.EventID event = repository.EventID row /\
       pubsub.refuses (publisher p) (message_of event) = false /\
       message_of event ∈ pubsub.accepted (publisher p')).
Proof.
  intros Hnd batch p'.
  assert (Hp' : p' = process now batch p).
  { subst p'. unfold processEvents. fold batch. destruct batch; reflexivity. }
  rewrite Hp'. clear Hp' p'.
  destruct (process_spec now batch p) as (_ & Hrecv & Hacc & _ & _ & _ & Hout).
  split; [exact Hrecv|]. split.
  - intros event Hin Hrefused.
    destruct (batch_rows _ _ _ Hin) as [Hrow Hunpub]. split; [| exact Hunpub].
    rewrite Hout. apply list_elem_of_fmap. exists event. split; [| exact Hrow].
    unfold marked. destruct (decide _) as [Hmarked|]; [| reflexivity].
    exfalso. apply list_elem_of_fmap in Hmarked as (event' & Hid & Hin').
    apply list_elem_of_filter in Hin' as [Haccepted Hin'].
    destruct (batch_rows _ _ _ Hin') as [Hrow' _].
    assert (event = event') by (eapply same_id_same_row; eassumption).
    subst event'. congruence.
  - intros row Hin Hpub. rewrite Hout in Hin.
    apply list_elem_of_fmap in Hin as (row0 & -> & Hin0).
    unfold marked in *. destruct (decide _) as [Hmarked|]; [| left; exact Hin0].
    right. apply list_elem_of_fmap in Hmarked as (event & Hid & Hin').
    pose proof Hin' as Hacc'.
    apply list_elem_of_filter in Hin' as [Haccepted Hbatch].
    exists event. cbn. repeat split; auto.
    rewrite Hacc. apply elem_of_app. right.
    apply list_elem_of_fmap. eauto.
Qed.

(** Three events in the outbox; the broker refuses the second. *)
Definition event (id : string) : repository.OutboxEvent :=
  {| repository.EventID := id; repository.AggregateType := "order";
     repository.AggregateID := o1; repository.EventType := "order.created";
     repository.Payload := [("order_id", JString o1)];
     repository.Published := false; repository.PublishedAt := None |}.

Definition flaky : Publisher :=
  {| repo := {| repository.order_status := repository.migration_order_status;
                repository.orders := [];
                repository.order_items := [];
                repository.outbox := [event (uuid_text "e000" 1); event (uuid_text "e000" 2); event (uuid_text "e000" 3)] |};
     publisher :=
       {| pubsub.refuses := fun msg =>
            bool_decide (("event_id", uuid_text "e000" 2) ∈ pubsub.Attributes msg);
          pubsub.received := [];
          pubsub.accepted := [] |} |}.

Lemma dispatcher_tick_witness :
  let batch := repository.GetUnpublishedEvents 100 (repo flaky) in
  let p' := snd (processEvents 7 flaky) in
  (pubsub.received (publisher p') =
     pubsub.received (publisher flaky) ++ map message_of batch /\
   (forall event, event ∈ batch ->
      pubsub.refuses (publisher flaky) (message_of event) = true ->
      event ∈ repository.outbox (repo p') /\ repository.Published event = false) /\
   (forall row, row ∈ repository.outbox (repo p') ->
      repository.Published row = true ->
      row ∈ repository.outbox (repo flaky) \/
      exists event,
        event ∈ batch /\
        repository.EventID event = repository.EventID row /\
        pubsub.refuses (publisher flaky) (message_of event) = false /\
        message_of event ∈ pubsub.accepted (publisher p'))) /\
  map repository.Published (repository.outbox (repo p')) = [true; false; true] /\
  map pubsub.Attributes (pubsub.received (publisher p'))
    = map (fun e => pubsub.Attributes (message_of e)) batch.
Proof.
  split; [| split; reflexivity].
  apply (dispatcher_tick 7 flaky).
  cbn. repeat constructor; rewrite ?elem_of_cons, ?elem_of_nil; intuition discriminate.
Defined.

(** *** After the tick *)





End outbox.

End orders.

(** ** services/payments *)

Module payments.

(** *** internal/provider *)

Module provider.

Record ProcessPaymentRequest : Type := mkProcessPaymentRequest {
  OrderID : string;
  Amount : Z;                (* int64 *)
  Currency : string;
  PaymentMethod : string
}.

Record ProcessPaymentResponse : Type := mkProcessPaymentResponse {
  TransactionID : string;
  Status : string;
  Message : string
}.

(** The interface [PaymentProvider], as far as the service uses it: what
    [ProcessPayment] returns for a request, a response that may be [nil]
    and an error that may be [nil], and how long it takes to, in
    nanoseconds (a time that has passed is not negative). *)
Class PaymentProvider : Type := {
  ProcessPayment : ProcessPaymentRequest ->
                   N * (option ProcessPaymentResponse * option error)
}.

End provider.

(** *** internal/service *)

Module service.

Record Payment : Type := mkPayment {
  ID : string;
  OrderID : string;
  UserID : string;
  AmountCurrency : string;
  AmountValue : Z;           (* int64 *)
  Status : string;
  Method : string;
  ProviderTransactionID : string;
  ErrorMessage : string
}.

Record OutboxRow : Type := mkOutboxRow {
  RowID : string;
  AggregateType : string;
  AggregateID : string;
  EventType : string;
  Payload : list (string * json);
  Published : bool
}.

(** The tables [payments] and [payment_outbox].  A NULL transaction id or
    error message is the empty string that [GetPayment] reads it as. *)
Record DB : Type := mkDB {
  payments : list Payment;
  payment_outbox : list OutboxRow
}.

(** What the service holds: its database and its circuit breaker. *)
Record PaymentService : Type := mkPaymentService {
  db : DB;
  circuitBreaker : circuitbreaker.CircuitBreaker
}.

Definition GetPayment (paymentID : string) (d : DB) : error + Payment :=
  match filter (fun p => ID p = paymentID) (payments d) with
  | [] => inl (errors_New "payment not found")
  | payment :: _ => inr payment
  end.

Definition with_status (payment : Payment) (status errorMsg : string) : Payment :=
  {| ID := ID payment; OrderID := OrderID payment; UserID := UserID payment;
     AmountCurrency := AmountCurrency payment; AmountValue := AmountValue payment;
     Status := status; Method := Method payment;
     ProviderTransactionID := ProviderTransactionID payment;
     ErrorMessage := errorMsg |}.

Definition with_transaction (payment : Payment) (status transactionID : string) : Payment :=
  {| ID := ID payment; OrderID := OrderID payment; UserID := UserID payment;
     AmountCurrency := AmountCurrency payment; AmountValue := AmountValue payment;
     Status := status; Method := Method payment;
     ProviderTransactionID := transactionID;
     ErrorMessage := ErrorMessage payment |}.

(** [UPDATE payments SET status = $1, error_message = $2 WHERE id = $3] *)
Definition updatePaymentStatus (paymentID status errorMsg : string) (d : DB) : DB :=
  {| payments :=
       map (fun p => if decide (ID p = paymentID) then with_status p status errorMsg else p)
           (payments d);
     payment_outbox := payment_outbox d |}.

Definition updatePaymentStatusWithError (paymentID status errorMsg : string) (d : DB) : DB :=
  updatePaymentStatus paymentID status errorMsg d.

(** [UPDATE payments SET status = $1, provider_transaction_id = $2 WHERE
    id = $3] *)
Definition updatePaymentStatusWithTransaction (paymentID status transactionID : string)
    (d : DB) : DB :=
  {| payments :=
       map (fun p => if decide (ID p = paymentID) then with_transaction p status transactionID
                     else p)
           (payments d);
     payment_outbox := payment_outbox d |}.

(** [publishEvent]: the row is inserted under the id [id]; when the insert
    fails (the id is taken) the error is logged and nothing is inserted. *)
Definition publishEvent (id paymentID eventType : string) (payload : list (string * json))
    (d : DB) : DB :=
  if decide (id ∈ map RowID (payment_outbox d)) then d
  else
    {| payments := payments d;
       payment_outbox :=
         payment_outbox d ++
         [ {| RowID := id; AggregateType := "payment"; AggregateID := paymentID;
              EventType := eventType; Payload := payload; Published := false |} ] |}.

(** The request [ConfirmPayment] makes of the provider, and the closure it
    hands to the breaker: the closure returns the provider's error and
    leaves the provider's response in [providerResp]. *)
Definition request_for (payment : Payment) : provider.ProcessPaymentRequest :=
  {| provider.OrderID := OrderID payment;
     provider.Amount := AmountValue payment;
     provider.Currency := AmountCurrency payment;
     provider.PaymentMethod := Method payment |}.

Definition closure `{provider.PaymentProvider} (payment : Payment) : circuitbreaker.Call :=
  let '(took, (_, provErr)) := provider.ProcessPayment (request_for payment) in
  {| circuitbreaker.call_err := provErr; circuitbreaker.call_took := Z.of_N took |}.

Definition providerResp `{provider.PaymentProvider} (payment : Payment) :
    option provider.ProcessPaymentResponse :=
  fst (snd (provider.ProcessPayment (request_for payment))).

(** The caller's context: done after some time with some error, or never.
    [ctx_Err ctx elapsed] is [ctx.Err()] once [elapsed] has passed since
    the call was made. *)
Definition ctx_Err (ctx : option (Z * error)) (elapsed : Z) : option error :=
  match ctx with
  | Some (c, e) => if c <=? elapsed then Some e else None
  | None => None
  end.

(** The statements of the service run under the caller's context:
    [QueryRowContext] and [ExecContext] return the error of a context
    that is done and do nothing.  A statement is taken to return at once,
    so that the time that passes in a call is the time of its call through
    the breaker. *)
Definition GetPayment_ctx (ctx : option (Z * error)) (elapsed : Z) (paymentID : string)
    (d : DB) : error + Payment :=
  match ctx_Err ctx elapsed with
  | Some e => inl (Errorf_w "failed to get payment" e)
  | None => GetPayment paymentID d
  end.

Definition ExecContext (ctx : option (Z * error)) (elapsed : Z) (statement : DB -> DB)
    (d : DB) : option error * DB :=
  match ctx_Err ctx elapsed with
  | Some e => (Some e, d)
  | None => (None, statement d)
  end.

(** [ConfirmPayment], called at [now] under the context [ctx]; [uuid 0] is
    the id drawn for the outbox row.  The errors of the update to
    ["failed"] and of the insert into the outbox are logged and dropped. *)
Definition ConfirmPayment `{provider.PaymentProvider} (uuid : nat -> string) (now : Z)
    (ctx : option (Z * error)) (paymentID : string) (s : PaymentService) :
    handled (error + Payment) * PaymentService :=
  match GetPayment_ctx ctx 0 paymentID (db s) with
  | inl e => (Returns (inl e), s)
  | inr payment =>
      if decide (Status payment <> "pending") then (Returns (inr payment), s)
      else
        match ExecContext ctx 0 (updatePaymentStatus paymentID "processing" "") (db s) with
        | (Some e, _) => (Returns (inl e), s)
        | (None, d1) =>
            let o := circuitbreaker.Execute now ctx (closure payment) (circuitBreaker s) in
            let elapsed :=
              circuitbreaker.Execute_took now ctx (closure payment) (circuitBreaker s) in
            match circuitbreaker.returned o with
            | Some err =>
                let d2 :=
                  snd (ExecContext ctx elapsed
                         (updatePaymentStatusWithError paymentID "failed" (Error err)) d1) in
                let d3 :=
                  snd (ExecContext ctx elapsed
                         (publishEvent (uuid 0%nat) paymentID "payment.failed"
                            [("payment_id", JString paymentID);
                             ("order_id", JString (OrderID payment));
                             ("error", JString (Error err))]) d2) in
                (Returns (inl (Errorf_w "payment processing failed" err)),
                 {| db := d3; circuitBreaker := circuitbreaker.after o |})
            | None =>
                match providerResp payment with
                | None =>                       (* nil pointer dereference *)
                    (Panics, {| db := d1; circuitBreaker := circuitbreaker.after o |})
                | Some resp =>
                    match ExecContext ctx elapsed
                            (updatePaymentStatusWithTransaction paymentID "succeeded"
                               (provider.TransactionID resp)) d1 with
                    | (Some e, _) =>
                        (Returns (inl e),
                         {| db := d1; circuitBreaker := circuitbreaker.after o |})
                    | (None, d2) =>
                        let d3 :=
                          snd (ExecContext ctx elapsed
                                 (publishEvent (uuid 0%nat) paymentID "payment.succeeded"
                                    [("payment_id", JString paymentID);
                                     ("order_id", JString (OrderID payment));
                                     ("transaction_id",
                                      JString (provider.TransactionID resp))]) d2) in
                        (Returns (GetPayment_ctx ctx elapsed paymentID d3),
                         {| db := d3; circuitBreaker := circuitbreaker.after o |})
                    end
                end
            end
        end
  end.

(** *** The failure path *)

Lemma GetPayment_inr (paymentID : string) (d : DB) (payment : Payment) :
  GetPayment paymentID d = inr payment -> ID payment = paymentID.
Proof.
  unfold GetPayment.
  destruct (filter _ (payments d)) as [|p rest] eqn:Hf; [discriminate|].
  intros [= <-].
  assert (Hin : p ∈ filter (fun p => ID p = paymentID) (payments d)) by (rewrite Hf; left).
  apply list_elem_of_filter in Hin as [Hid _]. exact Hid.
Qed.

Lemma GetPayment_after_update (paymentID : string) (f : Payment -> Payment)
    (d : DB) (rows : list OutboxRow) (payment : Payment) :
  (forall p, ID (f p) = ID p) ->
  GetPayment paymentID d = inr payment ->
  GetPayment paymentID
    {| payments := map (fun p => if decide (ID p = paymentID) then f p else p) (payments d);
       payment_outbox := rows |} = inr (f payment).
Proof.
  intros Hf. unfold GetPayment. cbn [payments].
  induction (payments d) as [|p rest IH]; [discriminate|].
  cbn [map]. rewrite !filter_cons.
  destruct (decide (ID p = paymentID)) as [Hp|Hp].
  - rewrite Hf. destruct (decide (ID p = paymentID)); [| contradiction].
    intros [= <-]. reflexivity.
  - destruct (decide (ID p = paymentID)); [contradiction|]. exact IH.
Qed.

Lemma map_update_twice (paymentID : string) (f g : Payment -> Payment) (l : list Payment) :
  (forall p, ID (f p) = ID p) ->
  map (fun p => if decide (ID p = paymentID) then g p else p)
      (map (fun p => if decide (ID p = paymentID) then f p else p) l) =
  map (fun p => if decide (ID p = paymentID) then g (f p) else p) l.
Proof.
  intros Hf. rewrite map_map. apply map_ext. intros p.
  destruct (decide (ID p = paymentID)) as [Hp|Hp].
  - rewrite decide_True by (rewrite Hf; exact Hp). reflexivity.
  - rewrite decide_False by exact Hp. reflexivity.
Qed.

Lemma GetPayment_publishEvent (id paymentID eventType : string)
    (payload : list (string * json)) (paymentID' : string) (d : DB) :
  GetPayment paymentID' (publishEvent id paymentID eventType payload d) =
    GetPayment paymentID' d.
Proof. unfold publishEvent. destruct (decide _); reflexivity. Qed.

(** **** The caller's context and the call through the breaker *)

Lemma closure_took `{provider.PaymentProvider} (payment : Payment) :
  0 <= circuitbreaker.call_took (closure payment).
Proof.
  unfold closure. destruct (provider.ProcessPayment _) as [took [resp provErr]]. cbn. lia.
Qed.

Lemma WithTimeout_within (ctx : option (Z * error)) (timeout elapsed : Z) :
  elapsed < fst (circuitbreaker.WithTimeout ctx timeout) -> ctx_Err ctx elapsed = None.
Proof.
  unfold circuitbreaker.WithTimeout, ctx_Err. destruct ctx as [[c e]|]; [| reflexivity].
  destruct (Z.ltb_spec c timeout); cbn; intros Hlt;
    destruct (Z.leb_spec c elapsed); try reflexivity; lia.
Qed.

Lemma ctx_Err_earlier (ctx : option (Z * error)) (t t' : Z) :
  t <= t' -> ctx_Err ctx t' = None -> ctx_Err ctx t = None.
Proof.
  unfold ctx_Err. destruct ctx as [[c e]|]; [| reflexivity].
  intros Hle. destruct (Z.leb_spec c t'); [discriminate|].
  destruct (Z.leb_spec c t); [lia | reflexivity].
Qed.

Lemma canAttempt_Timeout (now : Z) (cb : circuitbreaker.CircuitBreaker) :
  circuitbreaker.config (snd (circuitbreaker.canAttempt now cb)) = circuitbreaker.config cb.
Proof.
  unfold circuitbreaker.canAttempt. repeat case_match; cbn;
    rewrite ?circuitbreaker.setState_config; reflexivity.
Qed.

(** A call that returned before its deadline, and a call that the breaker
    refused under a live context, end under a live context. *)
Lemma Execute_took_within (now : Z) ctx fn (cb : circuitbreaker.CircuitBreaker) :
  ctx_Err ctx 0 = None ->
  circuitbreaker.call_took fn <
    fst (circuitbreaker.WithTimeout ctx
           (circuitbreaker.Timeout (circuitbreaker.config cb))) ->
  ctx_Err ctx (circuitbreaker.Execute_took now ctx fn cb) = None.
Proof.
  intros Hlive Hlt. unfold circuitbreaker.Execute_took.
  pose proof (canAttempt_Timeout now cb) as Hcfg.
  destruct (circuitbreaker.canAttempt now cb) as [[|] cb1]; cbn [snd] in Hcfg; [| exact Hlive].
  cbn zeta. rewrite Hcfg.
  destruct (Z.ltb_spec (circuitbreaker.call_took fn)
              (fst (circuitbreaker.WithTimeout ctx
                      (circuitbreaker.Timeout (circuitbreaker.config cb))))); [| lia].
  eapply WithTimeout_within. eassumption.
Qed.

(** A call through the breaker that returned [nil] took the time of the
    wrapped function and ended before every deadline. *)
Lemma Execute_nil (now : Z) ctx fn (cb : circuitbreaker.CircuitBreaker) :
  circuitbreaker.returned (circuitbreaker.Execute now ctx fn cb) = None ->
  circuitbreaker.Execute_took now ctx fn cb = circuitbreaker.call_took fn /\
  ctx_Err ctx (circuitbreaker.call_took fn) = None.
Proof.
  unfold circuitbreaker.Execute, circuitbreaker.Execute_took.
  destruct (circuitbreaker.canAttempt now cb) as [[|] cb1]; [| discriminate].
  cbn zeta.
  destruct (Z.ltb_spec (circuitbreaker.call_took fn)
              (fst (circuitbreaker.WithTimeout ctx
                      (circuitbreaker.Timeout (circuitbreaker.config cb1))))) as [Hlt|];
    [| discriminate].
  intros _. split; [reflexivity|]. eapply WithTimeout_within. exact Hlt.
Qed.

(** The payment after the two updates of either path. *)
Lemma GetPayment_after_two_updates (paymentID : string) (f g : Payment -> Payment)
    (d : DB) (rows : list OutboxRow) (payment : Payment) :
  (forall p, ID (f p) = ID p) ->
  (forall p, ID (g p) = ID p) ->
  GetPayment paymentID d = inr payment ->
  GetPayment paymentID
    {| payments :=
         map (fun p => if decide (ID p = paymentID) then g p else p)
           (map (fun p => if decide (ID p = paymentID) then f p else p) (payments d));
       payment_outbox := rows |} = inr (g (f payment)).
Proof.
  intros Hf Hg Hget. rewrite map_update_twice by exact Hf.
  apply (GetPayment_after_update paymentID (fun p => g (f p)) d); [| exact Hget].
  intros p. rewrite Hg. apply Hf.
Qed.

(** C6 (as amended). [ConfirmPayment] is called under a live context on
    a pending payment, and the call through the circuit breaker returns an
    error (the provider declined, the call timed out, or the breaker is
    open).  Then [ConfirmPayment] returns that error, wrapped, and no
    payment, and the breaker has recorded the call.  When the caller's
    context is still live at that point, the payment row is left in
    status ["failed"] with the text of the error and a ["payment.failed"]
    row is appended to the payment outbox (the id drawn for it being
    free); this is so whenever the wrapped call returned before its
    deadline (the provider declined) and whenever the breaker refused the
    call.  When the caller's context has ended by then (its deadline
    passed or it was cancelled while the provider was being called), the
    update and the insert fail with it: the payment stays
    ["processing"] and no row is written to the outbox. *)
Theorem ConfirmPayment_failure `{provider.PaymentProvider} (uuid : nat -> string)
    (now : Z) (ctx : option (Z * error)) (paymentID : string) (s : PaymentService)
    (payment : Payment) (err : error) :
  GetPayment paymentID (db s) = inr payment ->
  Status payment = "pending" ->
  ctx_Err ctx 0 = None ->
  circuitbreaker.returned
    (circuitbreaker.Execute now ctx (closure payment) (circuitBreaker s)) = Some err ->
  uuid 0%nat ∉ map RowID (payment_outbox (db s)) ->
  let elapsed :=
    circuitbreaker.Execute_took now ctx (closure payment) (circuitBreaker s) in
  exists s',
    ConfirmPayment uuid now ctx paymentID s =
      (Returns (inl (Errorf_w "payment processing failed" err)), s') /\
    circuitBreaker s' =
      circuitbreaker.after
        (circuitbreaker.Execute now ctx (closure payment) (circuitBreaker s)) /\
    (ctx_Err ctx elapsed = None ->
     GetPayment paymentID (db s') = inr (with_status payment "failed" (Error err)) /\
     payment_outbox (db s') =
       payment_outbox (db s) ++
       [ {| RowID := uuid 0%nat; AggregateType := "payment"; AggregateID := paymentID;
            EventType := "payment.failed";
            Payload := [("payment_id", JString paymentID);
                        ("order_id", JString (OrderID payment));
                        ("error", JString (Error err))];
            Published := false |} ]) /\
    (ctx_Err ctx elapsed <> None ->
     GetPayment paymentID (db s') = inr (with_status payment "processing" "") /\
     payment_outbox (db s') = payment_outbox (db s)) /\
    (circuitbreaker.call_took (closure payment) <
       fst (circuitbreaker.WithTimeout ctx
              (circuitbreaker.Timeout (circuitbreaker.config (circuitBreaker s)))) ->
     ctx_Err ctx elapsed = None).
Proof.
  intros Hget Hpending Hlive Herr Hfresh elapsed.
  unfold ConfirmPayment, GetPayment_ctx, ExecContext. rewrite Hlive, Hget.
  destruct (decide (Status payment <> "pending")) as [Hn|_]; [contradiction|].
  rewrite Herr. fold elapsed.
  eexists. split; [reflexivity|]. cbn [db circuitBreaker].
  split; [reflexivity|]. split; [| split].
  - intros Hstill. rewrite Hstill. cbn [snd].
    unfold publishEvent, updatePaymentStatusWithError, updatePaymentStatus.
    cbn [payment_outbox payments].
    destruct (decide _) as [|_]; [contradiction|]. cbn [payment_outbox payments].
    split; [| reflexivity].
    apply (GetPayment_after_two_updates paymentID
             (fun p => with_status p "processing" "")
             (fun p => with_status p "failed" (Error err)) (db s));
      [reflexivity | reflexivity | exact Hget].
  - intros Hended. destruct (ctx_Err ctx elapsed) as [e|]; [| contradiction].
    cbn [snd]. split; [| reflexivity].
    apply (GetPayment_after_update paymentID (fun p => with_status p "processing" "") (db s));
      [reflexivity | exact Hget].
  - apply Execute_took_within, Hlive.
Qed.

(** A provider that declines every payment after a millisecond. *)
Definition declining : provider.PaymentProvider :=
  {| provider.ProcessPayment := fun _ =>
       (1000000%N, (None, Some (errors_New "payment declined by provider"))) |}.

Definition pending_payment : Payment :=
  {| ID := pay1; OrderID := o1; UserID := u1; AmountCurrency := "USD";
     AmountValue := 1000; Status := "pending"; Method := "card";
     ProviderTransactionID := ""; ErrorMessage := "" |}.

Definition one_pending : PaymentService :=
  {| db := {| payments := [pending_payment]; payment_outbox := [] |};
     circuitBreaker := circuitbreaker.New circuitbreaker.payment_config 0 |}.

Lemma ConfirmPayment_failure_witness :
  exists s',
    @ConfirmPayment declining (uuid_text "e000") (10 ^ 9) None pay1 one_pending =
      (Returns (inl (Errorf_w "payment processing failed"
                       (errors_New "payment declined by provider"))), s') /\
    GetPayment pay1 (db s') =
      inr (with_status pending_payment "failed"
             (Error (errors_New "payment declined by provider"))) /\
    payment_outbox (db s') =
      payment_outbox (db one_pending) ++
      [ {| RowID := uuid_text "e000" 0%nat; AggregateType := "payment";
           AggregateID := pay1; EventType := "payment.failed";
           Payload := [("payment_id", JString pay1);
                       ("order_id", JString (OrderID pending_payment));
                       ("error", JString (Error (errors_New "payment declined by provider")))];
           Published := false |} ] /\
    circuitBreaker s' =
      circuitbreaker.after
        (circuitbreaker.Execute (10 ^ 9) None (@closure declining pending_payment)
           (circuitBreaker one_pending)).
Proof.
  destruct (@ConfirmPayment_failure declining (uuid_text "e000") (10 ^ 9) None
              pay1 one_pending pending_payment (errors_New "payment declined by provider"))
    as (s' & Hcall & Hbreaker & Hlive & _ & _).
  - reflexivity.
  - reflexivity.
  - reflexivity.
  - reflexivity.
  - cbn. apply not_elem_of_nil.
  - exists s'. destruct (Hlive eq_refl) as [Hrow Hout]. auto.
Defined.

(** C6 as stated fails: the declined payment is recorded as failed and the
    event is written, but the caller of [ConfirmPayment] gets an error and
    no payment. *)
Lemma ConfirmPayment_counterexample :
  let '(r, s') :=
    @ConfirmPayment declining (uuid_text "e000") (10 ^ 9) None pay1 one_pending in
  r = Returns (inl (Errorf_w "payment processing failed"
                      (errors_New "payment declined by provider"))) /\
  (forall payment, r <> Returns (inr payment)) /\
  map Status (payments (db s')) = ["failed"] /\
  map EventType (payment_outbox (db s')) = ["payment.failed"].
Proof. vm_compute. repeat split. intros payment. discriminate. Qed.

(** A provider that approves every payment after five seconds, called by
    a client that gives up after two: the client's deadline ends the call
    through the breaker, the update to ["failed"] and the outbox insert
    fail with it, and the payment stays ["processing"]. *)
Definition slow : provider.PaymentProvider :=
  {| provider.ProcessPayment := fun req =>
       (5000000000%N,
        (Some {| provider.TransactionID := "txn_" +:+ provider.OrderID req;
                 provider.Status := "succeeded";
                 provider.Message := "Payment processed successfully" |},
         None)) |}.

Example ConfirmPayment_deadline_first :
  let '(r, s') :=
    @ConfirmPayment slow (uuid_text "e000") (10 ^ 9) (Some (2 * 10 ^ 9, DeadlineExceeded))
      pay1 one_pending in
  r = Returns (inl (Errorf_w "payment processing failed" DeadlineExceeded)) /\
  map Status (payments (db s')) = ["processing"] /\
  payment_outbox (db s') = [].
Proof. vm_compute. repeat split. Qed.

(** *** The success path and repeated confirmations *)

(** X16. A confirmed payment.  When [ConfirmPayment] is called on a
    pending payment, the call through the circuit breaker returns [nil]
    and the provider has answered with a response, [ConfirmPayment]
    returns the payment as it is stored afterwards: status ["succeeded"],
    the transaction id of the provider, no error message, everything else
    as before.  A ["payment.succeeded"] row carrying the transaction id is
    appended to the payment outbox (the id drawn for it being free), and
    the breaker has recorded the call. *)
Theorem ConfirmPayment_success `{provider.PaymentProvider} (uuid : nat -> string)
    (now : Z) (ctx : option (Z * error)) (paymentID : string) (s : PaymentService)
    (payment : Payment) (resp : provider.ProcessPaymentResponse) :
  GetPayment paymentID (db s) = inr payment ->
  Status payment = "pending" ->
  circuitbreaker.returned
    (circuitbreaker.Execute now ctx (closure payment) (circuitBreaker s)) = None ->
  providerResp payment = Some resp ->
  uuid 0%nat ∉ map RowID (payment_outbox (db s)) ->
  let confirmed :=
    with_transaction (with_status payment "processing" "") "succeeded"
      (provider.TransactionID resp) in
  exists s',
    ConfirmPayment uuid now ctx paymentID s = (Returns (inr confirmed), s') /\
    GetPayment paymentID (db s') = inr confirmed /\
    payment_outbox (db s') =
      payment_outbox (db s) ++
      [ {| RowID := uuid 0%nat; AggregateType := "payment"; AggregateID := paymentID;
           EventType := "payment.succeeded";
           Payload := [("payment_id", JString paymentID);
                       ("order_id", JString (OrderID payment));
                       ("transaction_id", JString (provider.TransactionID resp))];
           Published := false |} ] /\
    circuitBreaker s' =
      circuitbreaker.after
        (circuitbreaker.Execute now ctx (closure payment) (circuitBreaker s)).
Proof.
  intros Hget Hpending Hok Hresp Hfresh confirmed.
  destruct (Execute_nil _ _ _ _ Hok) as [Htook Hend].
  assert (Hlive : ctx_Err ctx 0 = None).
  { eapply ctx_Err_earlier; [apply closure_took | exact Hend]. }
  assert (Hstored : forall rows,
            GetPayment paymentID
              {| payments :=
                   payments (updatePaymentStatusWithTransaction paymentID "succeeded"
                               (provider.TransactionID resp)
                               (updatePaymentStatus paymentID "processing" "" (db s)));
                 payment_outbox := rows |} = inr confirmed).
  { intros rows. unfold updatePaymentStatusWithTransaction, updatePaymentStatus.
    cbn [payments].
    apply (GetPayment_after_two_updates paymentID
             (fun p => with_status p "processing" "")
             (fun p => with_transaction p "succeeded" (provider.TransactionID resp)) (db s));
      [reflexivity | reflexivity | exact Hget]. }
  unfold ConfirmPayment, GetPayment_ctx, ExecContext. rewrite Hlive, Hget.
  destruct (decide (Status payment <> "pending")) as [Hn|_]; [contradiction|].
  rewrite Hok, Hresp, Htook, Hend. cbn [snd].
  unfold publishEvent.
  destruct (decide _) as [Htaken|_]; [contradiction|].
  rewrite Hstored.
  eexists. split; [reflexivity|]. cbn [db circuitBreaker payment_outbox].
  split; [apply Hstored | split; reflexivity].
Qed.

(** A provider that approves every payment after a millisecond. *)
Definition approving : provider.PaymentProvider :=
  {| provider.ProcessPayment := fun req =>
       (1000000%N,
        (Some {| provider.TransactionID := "txn_" +:+ provider.OrderID req;
                 provider.Status := "succeeded";
                 provider.Message := "Payment processed successfully" |},
         None)) |}.

Lemma ConfirmPayment_success_witness :
  let confirmed :=
    with_transaction (with_status pending_payment "processing" "") "succeeded"
      ("txn_" +:+ o1) in
  exists s',
    @ConfirmPayment approving (uuid_text "e000") (10 ^ 9) None pay1 one_pending =
      (Returns (inr confirmed), s') /\
    GetPayment pay1 (db s') = inr confirmed /\
    payment_outbox (db s') =
      payment_outbox (db one_pending) ++
      [ {| RowID := uuid_text "e000" 0%nat; AggregateType := "payment";
           AggregateID := pay1; EventType := "payment.succeeded";
           Payload := [("payment_id", JString pay1);
                       ("order_id", JString (OrderID pending_payment));
                       ("transaction_id", JString ("txn_" +:+ o1))];
           Published := false |} ] /\
    circuitBreaker s' =
      circuitbreaker.after
        (circuitbreaker.Execute (10 ^ 9) None (@closure approving pending_payment)
           (circuitBreaker one_pending)).
Proof.
  apply (@ConfirmPayment_success approving (uuid_text "e000") (10 ^ 9) None
           pay1 one_pending pending_payment
           {| provider.TransactionID := "txn_" +:+ o1;
              provider.Status := "succeeded";
              provider.Message := "Payment processed successfully" |}).
  - reflexivity.
  - reflexivity.
  - reflexivity.
  - reflexivity.
  - cbn. apply not_elem_of_nil.
Defined.

(** After a [ConfirmPayment] made under a live context the payment, if
    there is one, is not pending. *)
Lemma ConfirmPayment_settles `{provider.PaymentProvider} (uuid : nat -> string)
    (now : Z) (ctx : option (Z * error)) (paymentID : string) (s : PaymentService) :
  ctx_Err ctx 0 = None ->
  match GetPayment paymentID (db (snd (ConfirmPayment uuid now ctx paymentID s))) with
  | inl _ => True
  | inr payment => Status payment <> "pending"
  end.
Proof.
  intros Hlive. unfold ConfirmPayment, GetPayment_ctx, ExecContext. rewrite Hlive.
  destruct (GetPayment paymentID (db s)) as [e|payment] eqn:Hget; cbn [snd].
  { rewrite Hget. exact I. }
  destruct (decide (Status payment <> "pending")) as [Hn|_]; cbn [snd].
  { rewrite Hget. exact Hn. }
  assert (Hprocessing :
            GetPayment paymentID (updatePaymentStatus paymentID "processing" "" (db s)) =
              inr (with_status payment "processing" "")).
  { apply (GetPayment_after_update paymentID (fun p => with_status p "processing" "") (db s));
      [reflexivity | exact Hget]. }
  assert (Hfailed : forall err,
            GetPayment paymentID
              (updatePaymentStatusWithError paymentID "failed" (Error err)
                 (updatePaymentStatus paymentID "processing" "" (db s))) =
              inr (with_status payment "failed" (Error err))).
  { intros err. unfold updatePaymentStatusWithError, updatePaymentStatus.
    cbn [payments payment_outbox].
    apply (GetPayment_after_two_updates paymentID
             (fun p => with_status p "processing" "")
             (fun p => with_status p "failed" (Error err)) (db s));
      [reflexivity | reflexivity | exact Hget]. }
  assert (Hsucceeded : forall txn,
            GetPayment paymentID
              (updatePaymentStatusWithTransaction paymentID "succeeded" txn
                 (updatePaymentStatus paymentID "processing" "" (db s))) =
              inr (with_transaction (with_status payment "processing" "") "succeeded" txn)).
  { intros txn. unfold updatePaymentStatusWithTransaction, updatePaymentStatus.
    cbn [payments payment_outbox].
    apply (GetPayment_after_two_updates paymentID
             (fun p => with_status p "processing" "")
             (fun p => with_transaction p "succeeded" txn) (db s));
      [reflexivity | reflexivity | exact Hget]. }
  set (elapsed := circuitbreaker.Execute_took now ctx (closure payment) (circuitBreaker s)).
  destruct (circuitbreaker.returned _) as [err|].
  - destruct (ctx_Err ctx elapsed) as [e|]; cbn [snd db].
    + rewrite Hprocessing. discriminate.
    + rewrite GetPayment_publishEvent, Hfailed. discriminate.
  - destruct (providerResp payment) as [resp|]; cbn [snd db].
    + destruct (ctx_Err ctx elapsed) as [e|]; cbn [snd db].
      * rewrite Hprocessing. discriminate.
      * rewrite GetPayment_publishEvent, Hsucceeded. discriminate.
    + rewrite Hprocessing. discriminate.
Qed.

(** X17. A payment is put to the provider at most once.  Whatever a
    call of [ConfirmPayment] made under a live context did (returned a
    payment, returned an error, saw the caller's context end during the
    call through the breaker, or panicked on a provider that answered
    with neither a response nor an error), the payment is not pending
    afterwards, and every later call for the same payment id only reads:
    it returns what [GetPayment] returns under its own context, and
    leaves the payments, the outbox and the circuit breaker as they are,
    so the provider is not called again.  (A call made under a context
    that is already done stops at its first statement and changes
    nothing: the payment is still pending and a later call confirms
    it.) *)
Theorem ConfirmPayment_at_most_once `{provider.PaymentProvider} (uuid uuid' : nat -> string)
    (now now' : Z) (ctx ctx' : option (Z * error)) (paymentID : string)
    (s : PaymentService) :
  ctx_Err ctx 0 = None ->
  let s' := snd (ConfirmPayment uuid now ctx paymentID s) in
  ConfirmPayment uuid' now' ctx' paymentID s' =
    (Returns (GetPayment_ctx ctx' 0 paymentID (db s')), s').
Proof.
  intros Hlive. cbn zeta.
  pose proof (ConfirmPayment_settles uuid now ctx paymentID s Hlive) as Hsettled.
  set (s' := snd (ConfirmPayment uuid now ctx paymentID s)) in *.
  unfold ConfirmPayment at 1. unfold GetPayment_ctx.
  destruct (ctx_Err ctx' 0) as [e|]; [reflexivity|].
  destruct (GetPayment paymentID (db s')) as [e|payment]; [reflexivity|].
  rewrite decide_True by exact Hsettled. reflexivity.
Qed.

Lemma ConfirmPayment_at_most_once_witness :
  let s' := snd (@ConfirmPayment declining (uuid_text "e000") (10 ^ 9) None pay1 one_pending) in
  @ConfirmPayment approving (uuid_text "e111") (2 * 10 ^ 9) None pay1 s' =
    (Returns (GetPayment_ctx None 0 pay1 (db s')), s') /\
  (exists payment, GetPayment_ctx None 0 pay1 (db s') = inr payment /\
                   Status payment = "failed").
Proof.
  split.
  - apply (@ConfirmPayment_at_most_once declining (uuid_text "e000") (uuid_text "e111")
             (10 ^ 9) (2 * 10 ^ 9) None None pay1 one_pending).
    reflexivity.
  - vm_compute. eexists. split; reflexivity.
Defined.

(** A call made under a context that was cancelled before it: it returns
    the error of the context and the payment stays pending; the next call,
    under a live context, puts the payment to the provider. *)
Example ConfirmPayment_after_a_cancelled_call :
  let '(r1, s1) :=
    @ConfirmPayment approving (uuid_text "e000") (10 ^ 9) (Some (0, Canceled))
      pay1 one_pending in
  let '(r2, s2) := @ConfirmPayment approving (uuid_text "e000") (2 * 10 ^ 9) None pay1 s1 in
  r1 = Returns (inl (Errorf_w "failed to get payment" Canceled)) /\
  s1 = one_pending /\
  map Status (payments (db s2)) = ["succeeded"] /\
  map EventType (payment_outbox (db s2)) = ["payment.succeeded"].
Proof. vm_compute. repeat split. Qed.

End service.

End payments.
